(** * dynamicGCE: the per-class autoencoder explainer and the dynamic evaluator

    A shallow embedding of
      - [src/explainer/dynamic_graphs/ada_gce.py]
          ([AdaptiveGCE], [GCNEncoder]) and
      - [src/evaluation/dynamic_graphs/dynamic_evaluator.py]
          ([DynamicEvaluator]),
    together with the properties the specification states about them.

    Python objects are records, attribute assignment is record update,
    exceptions and mutation are threaded through a state-and-exception
    monad, the file system is a finite map from paths to nodes, and the
    numeric kernels of torch / torch_geometric are operations of an
    interface ([TorchOps]) the development is parametric in. *)

From Stdlib Require Import ZArith List Ascii String Lia Reals Lra.
From stdpp Require Import base option list gmap strings pretty.

Local Open Scope Z_scope.
Local Open Scope string_scope.
Local Open Scope list_scope.

(* ===================================================================== *)
(** * Python runtime: exceptions and mutable state *)
(* ===================================================================== *)

Module Py.

(** The exception classes the modelled code can raise. *)
Inductive exn : Type :=
| KeyError
| IndexError
| ValueError
| FileNotFoundError
| FileExistsError
| IsADirectoryError
| AssertionError
| RuntimeError.

Global Instance exn_eq_dec : EqDecision exn.
Proof. solve_decision. Defined.

(** Outcome of a call: a returned value or a raised exception. *)
Inductive res (A : Type) : Type :=
| Ok (a : A)
| Raise (e : exn).
Global Arguments Ok {A} a.
Global Arguments Raise {A} e.

Definition is_ok {A} (r : res A) : bool :=
  match r with Ok _ => true | Raise _ => false end.

Definition map_res {A B} (f : A -> B) (r : res A) : res B :=
  match r with Ok a => Ok (f a) | Raise e => Raise e end.


(** A computation over a mutable state [S].  The state that comes back
    with [Raise] is the state at the point of the raise: what was mutated
    before an exception stays mutated. *)
Definition M (S A : Type) : Type := S -> res A * S.

Definition ret {S A} (a : A) : M S A := fun s => (Ok a, s).
Definition raise {S A} (e : exn) : M S A := fun s => (Raise e, s).
Definition bind {S A B} (m : M S A) (f : A -> M S B) : M S B :=
  fun s => match m s with
           | (Ok a, s') => f a s'
           | (Raise e, s') => (Raise e, s')
           end.
Definition get {S} : M S S := fun s => (Ok s, s).
Definition modify {S} (f : S -> S) : M S unit := fun s => (Ok tt, f s).
Definition lift {S A} (r : res A) : M S A := fun s => (r, s).

(** [for x in xs: body(x)] *)
Fixpoint for_each {S A} (xs : list A) (body : A -> M S unit) : M S unit :=
  match xs with
  | [] => ret tt
  | x :: xs' => bind (body x) (fun _ => for_each xs' body)
  end.

(** Loop control, for bodies that may [break]. *)
Inductive ctl : Type := Continue | Break.

(** [for x in xs: body(x)] where the body says whether it hit [break]. *)
Fixpoint for_each_ctl {S A} (xs : list A) (body : A -> M S ctl) : M S unit :=
  match xs with
  | [] => ret tt
  | x :: xs' =>
      bind (body x) (fun c =>
        match c with
        | Break => ret tt
        | Continue => for_each_ctl xs' body
        end)
  end.

(** Sequence indexing [xs[i]] with an integer index: a negative index
    counts from the end, an index out of range raises [IndexError]. *)
Definition norm_index (n : nat) (i : Z) : option nat :=
  if decide (0 <= i < Z.of_nat n) then Some (Z.to_nat i)
  else if decide (- Z.of_nat n <= i < 0) then Some (Z.to_nat (Z.of_nat n + i))
  else None.

Definition index {A} (xs : list A) (i : Z) : res A :=
  match norm_index (length xs) i with
  | Some k => match xs !! k with Some a => Ok a | None => Raise IndexError end
  | None => Raise IndexError
  end.

(** Fancy indexing [xs[indices]] with a list of integer indices. *)
Fixpoint take_indices {A} (xs : list A) (indices : list Z) : res (list A) :=
  match indices with
  | [] => Ok []
  | i :: rest =>
      match index xs i with
      | Ok a => match take_indices xs rest with
                | Ok l => Ok (a :: l)
                | Raise e => Raise e
                end
      | Raise e => Raise e
      end
  end.

End Py.

Import Py.

Declare Scope py_scope.
Delimit Scope py_scope with py.
Notation "x <- m ;; k" := (Py.bind m (fun x => k))
  (at level 100, m at next level, right associativity) : py_scope.
Notation "m ;;; k" := (Py.bind m (fun _ => k))
  (at level 100, right associativity) : py_scope.

(* ===================================================================== *)
(** * Dense to sparse: [torch.nonzero] and the edge list of a sample *)
(* ===================================================================== *)

Module Sparse.
Section Sparse.
Context {W : Type} `{EqDecision W} (zero : W).

(** Indices of the non-zero entries of one row, left to right. *)
Fixpoint nonzero_row (r c : nat) (row : list W) : list (nat * nat) :=
  match row with
  | [] => []
  | v :: row' =>
      if decide (v = zero) then nonzero_row r (S c) row'
      else (r, c) :: nonzero_row r (S c) row'
  end.

Fixpoint nonzero_from (r : nat) (adj : list (list W)) : list (nat * nat) :=
  match adj with
  | [] => []
  | row :: adj' => nonzero_row r 0 row ++ nonzero_from (S r) adj'
  end.

(** [torch.nonzero(adj)]: an [m x 2] tensor, one row [(r, c)] per
    non-zero entry, in row-major order. *)
Definition nonzero (adj : list (list W)) : list (nat * nat) :=
  nonzero_from 0 adj.

(** [adj[r, c]] *)
Definition get2 (adj : list (list W)) (r c : nat) : option W :=
  adj !! r ≫= (fun row => row !! c).

(** [w[a[:,0], a[:,1]]]: the entries of [w] at the index pairs of [a].
    The pairs come from [nonzero w] and are in range. *)
Definition gather (w : list (list W)) (a : list (nat * nat)) : list W :=
  map (fun p => default zero (get2 w p.1 p.2)) a.

(** [a.T]: the [2 x m] transpose of an [m x 2] index tensor, as its two
    rows. *)
Definition transpose (a : list (nat * nat)) : list nat * list nat :=
  (map fst a, map snd a).







End Sparse.
End Sparse.

(* ===================================================================== *)
(** * The slice of torch and torch_geometric the explainer relies on *)
(* ===================================================================== *)

(** Float tensors, as far as their rank matters to the code: a rank-1
    tensor is a list of numbers, a rank-2 tensor a list of rows. *)
Inductive Tensor : Type :=
| T1 (v : list R)
| T2 (rows : list (list R)).

(** [torch.FloatTensor([])]: the rank-1 tensor with no element. *)
Definition FloatTensor_empty : Tensor := T1 [].

(** [t] is an [n x c] tensor. *)
Definition has_shape (t : Tensor) (n c : nat) : Prop :=
  match t with
  | T1 _ => False
  | T2 rows => length rows = n ∧ Forall (fun row => length row = c) rows
  end.

(** Every entry of [t] satisfies [P]. *)
Definition all_entries (P : R -> Prop) (t : Tensor) : Prop :=
  match t with
  | T1 v => Forall P v
  | T2 rows => Forall (Forall P) rows
  end.

(** Entry-wise application of a scalar function. *)
Definition tensor_map (f : R -> R) (t : Tensor) : Tensor :=
  match t with
  | T1 v => T1 (map f v)
  | T2 rows => T2 (map (map f) rows)
  end.

(** Entry-wise application of a function that also sees the position. *)
Definition tensor_imap (f : nat -> nat -> R -> R) (t : Tensor) : Tensor :=
  match t with
  | T1 v => T1 (imap (f 0%nat) v)
  | T2 rows => T2 (imap (fun i row => imap (f i) row) rows)
  end.

(** [F.leaky_relu(x, negative_slope)]: [max(0, x) + negative_slope * min(0, x)]. *)
Definition leaky_relu (negative_slope : R) (t : Tensor) : Tensor :=
  tensor_map (fun v => Rmax 0 v + negative_slope * Rmin 0 v)%R t.

(** [torch.tanh(x)] *)
Definition torch_tanh (t : Tensor) : Tensor := tensor_map tanh t.

(** [F.dropout(x, p, training)]: the identity unless [training]; otherwise
    each entry is zeroed where the random mask says so and the others are
    scaled by [1 / (1 - p)].  [drop i j] is the mask drawn for entry
    [(i, j)]. *)
Definition dropout (drop : nat -> nat -> bool) (p : R) (training : bool)
    (t : Tensor) : Tensor :=
  if training
  then tensor_imap (fun i j v => if drop i j then 0 else v / (1 - p))%R t
  else t.

(** An edge-attribute tensor after [squeeze(dim=0)]: a rank-1 tensor of
    size 1 becomes a scalar, any other rank-1 tensor is left as it is. *)
Inductive Squeezed (W : Type) : Type :=
| Vec (ws : list W)
| Scalar (w : W).
Arguments Vec {W} ws.
Arguments Scalar {W} w.

Definition squeeze0 {W} (ws : list W) : Squeezed W :=
  match ws with
  | [w] => Scalar w
  | _ => Vec ws
  end.

(** [edge_index.squeeze(dim=0)] on a [2 x m] tensor: dimension 0 has size
    2, so nothing is squeezed. *)
Definition squeeze0_index (ei : list nat * list nat) : list nat * list nat := ei.

Module GCNConv.
Section GCNConv.
Context {Params : Type}.

(** [GCNConv(in_channels, out_channels)]: its learnable parameters and
    the [training] attribute every [nn.Module] has. *)
Record t : Type := mk {
  in_channels : nat;
  out_channels : nat;
  params : Params;
  training : bool
}.

(** [nn.Module.train(mode)] on a layer. *)
Definition train (mode : bool) (c : t) : t :=
  {| in_channels := in_channels c; out_channels := out_channels c;
     params := params c; training := mode |}.

Definition load (p : Params) (c : t) : t :=
  {| in_channels := in_channels c; out_channels := out_channels c;
     params := p; training := training c |}.
End GCNConv.
Arguments t : clear implicits.
End GCNConv.

(** The numeric kernels, the optimiser and the random draws: operations of
    torch and torch_geometric whose results the explainer only passes on. *)
Class TorchOps (W Params OptState Loss : Type) : Type := {
  (** fresh parameters of a [GCNConv(in, out)] *)
  init_params : nat -> nat -> Params;
  (** [GCNConv.forward(x, edge_index, edge_weight)]; raises on operands it
      cannot combine *)
  conv : GCNConv.t Params -> Tensor -> list nat * list nat -> Squeezed W ->
         res Tensor;
  (** the mask [F.dropout] draws at a given state of the generator *)
  dropout_mask : nat -> nat -> nat -> bool;
  (** [GAE.recon_loss(z, pos_edge_index)] with its negative sampling *)
  recon_loss : nat -> Tensor -> list nat * list nat -> res Loss;
  (** [optimiser.zero_grad()], on the parameters the optimiser holds *)
  zero_grad : Params * Params * Params -> Params * Params * Params;
  (** [loss.backward()]: accumulates the gradient into the parameters *)
  backward : Loss -> Params * Params * Params -> res (Params * Params * Params);
  (** [torch.optim.Adam(params, lr)] and [optimiser.step()] *)
  adam : R -> OptState;
  step : OptState -> Params * Params * Params ->
         OptState * (Params * Params * Params);
  (** [loss.item()] *)
  loss_item : Loss -> R;
  (** the order a shuffling loader draws for a collection of [n] samples *)
  randperm : nat -> nat -> list nat;
  randperm_perm : forall seed n, randperm seed n ≡ₚ seq 0 n
}.

Module GCNEncoder.
Section GCNEncoder.
Context {W Params OptState Loss : Type} `{!TorchOps W Params OptState Loss}.

(** An encoder object: three convolutions and the attribute [training].
    [nn.Module.__init__] creates the attribute [training] on every
    module; the assignments [self.training = ...] of [__init__] and
    [set_training] write that same attribute, and [forward] reads it. *)
Record t : Type := mk {
  conv1 : GCNConv.t Params;
  conv2 : GCNConv.t Params;
  conv3 : GCNConv.t Params;
  training : bool
}.

(** [nn.Module.__init__] leaves a module in training mode. *)
Definition new_conv (i o : nat) : GCNConv.t Params :=
  GCNConv.mk i o (init_params i o) true.

(** [GCNEncoder.__init__] *)
Definition init (in_channels out_channels : nat) : t :=
  {| conv1 := new_conv in_channels out_channels;
     conv2 := new_conv out_channels out_channels;
     conv3 := new_conv out_channels in_channels;
     training := false |}.

(** [GCNEncoder.set_training] *)
Definition set_training (training' : bool) (self : t) : t :=
  {| conv1 := conv1 self; conv2 := conv2 self; conv3 := conv3 self;
     training := training' |}.

(** [nn.Module.train(mode)]: sets [training] on the module and on each
    of its children. *)
Definition train (mode : bool) (self : t) : t :=
  {| conv1 := GCNConv.train mode (conv1 self);
     conv2 := GCNConv.train mode (conv2 self);
     conv3 := GCNConv.train mode (conv3 self);
     training := mode |}.

(** The stages of [forward], each up to and including its dropout (or,
    for the last one, its tanh). *)
Definition stage1 (self : t) (seed : nat) (x : Tensor)
    (edge_index : list nat * list nat) (edge_weight : Squeezed W) : res Tensor :=
  match conv (conv1 self) x edge_index edge_weight with
  | Ok x1 =>
      Ok (dropout (dropout_mask seed) (2 / 10) (training self)
            (leaky_relu (2 / 10) x1))
  | Raise e => Raise e
  end.

Definition stage2 (self : t) (seed : nat) (x : Tensor)
    (edge_index : list nat * list nat) (edge_weight : Squeezed W) : res Tensor :=
  match conv (conv2 self) x edge_index edge_weight with
  | Ok x2 =>
      Ok (dropout (dropout_mask (S seed)) (2 / 10) (training self)
            (leaky_relu (2 / 10) x2))
  | Raise e => Raise e
  end.

Definition stage3 (self : t) (x : Tensor)
    (edge_index : list nat * list nat) (edge_weight : Squeezed W) : res Tensor :=
  match conv (conv3 self) x edge_index edge_weight with
  | Ok x3 => Ok (torch_tanh x3)
  | Raise e => Raise e
  end.

(** [GCNEncoder.forward] *)
Definition forward (self : t) (seed : nat) (x : Tensor)
    (edge_index : list nat * list nat) (edge_weight : Squeezed W) : res Tensor :=
  match stage1 self seed x edge_index edge_weight with
  | Ok x1 =>
      match stage2 self seed x1 edge_index edge_weight with
      | Ok x2 => stage3 self x2 edge_index edge_weight
      | Raise e => Raise e
      end
  | Raise e => Raise e
  end.

(** Whether [forward] applies a dropout mask after the first two
    convolutions. *)
Definition dropout_active (self : t) : bool := training self.

(** The encoder is configured with [i] input and [o] output channels. *)
Definition configured (self : t) (i o : nat) : Prop :=
  GCNConv.in_channels (conv1 self) = i ∧ GCNConv.out_channels (conv1 self) = o ∧
  GCNConv.in_channels (conv2 self) = o ∧ GCNConv.out_channels (conv2 self) = o ∧
  GCNConv.in_channels (conv3 self) = o ∧ GCNConv.out_channels (conv3 self) = i.

(** The shape contract of a graph convolution: when a layer from [in] to
    [out] channels accepts an [n x in] tensor, it returns an [n x out]
    tensor. *)
Definition conv_keeps_nodes : Prop :=
  ∀ (c : GCNConv.t Params) x ei ew x' n,
    has_shape x n (GCNConv.in_channels c) →
    conv c x ei ew = Ok x' →
    has_shape x' n (GCNConv.out_channels c).

End GCNEncoder.
Arguments t : clear implicits.
End GCNEncoder.

Module GAE.
Section GAE.
Context {W Params OptState Loss : Type} `{!TorchOps W Params OptState Loss}.

(** [GAE(encoder)]: the encoder, the default inner-product decoder (which
    has no parameter, only its [training] attribute) and the module's own
    [training] attribute. *)
Record t : Type := mk {
  encoder : GCNEncoder.t Params;
  decoder_training : bool;
  training : bool
}.

(** [GAE(encoder=GCNEncoder(in_channels, out_channels))] *)
Definition init (in_channels out_channels : nat) : t :=
  {| encoder := GCNEncoder.init in_channels out_channels;
     decoder_training := true;
     training := true |}.

(** [nn.Module.train(mode)] on the autoencoder: itself, then its
    children, recursively. *)
Definition train (mode : bool) (self : t) : t :=
  {| encoder := GCNEncoder.train mode (encoder self);
     decoder_training := mode;
     training := mode |}.

(** [GAE.encode]: passes its arguments on to the encoder. *)
Definition encode (self : t) (seed : nat) (x : Tensor)
    (edge_index : list nat * list nat) (edge_weight : Squeezed W) : res Tensor :=
  GCNEncoder.forward (encoder self) seed x edge_index edge_weight.

(** [model.parameters()] / [model.state_dict()]: the parameters of the
    three convolutions. *)
Definition state_dict (self : t) : Params * Params * Params :=
  (GCNConv.params (GCNEncoder.conv1 (encoder self)),
   GCNConv.params (GCNEncoder.conv2 (encoder self)),
   GCNConv.params (GCNEncoder.conv3 (encoder self))).

(** In-place replacement of the parameters. *)
Definition set_parameters (sd : Params * Params * Params) (self : t) : t :=
  let e := encoder self in
  {| encoder :=
       {| GCNEncoder.conv1 := GCNConv.load sd.1.1 (GCNEncoder.conv1 e);
          GCNEncoder.conv2 := GCNConv.load sd.1.2 (GCNEncoder.conv2 e);
          GCNEncoder.conv3 := GCNConv.load sd.2 (GCNEncoder.conv3 e);
          GCNEncoder.training := GCNEncoder.training e |};
     decoder_training := decoder_training self;
     training := training self |}.

End GAE.
Arguments t : clear implicits.
End GAE.

(* ===================================================================== *)
(** * The slice of [os] and [os.path] the explainer relies on *)
(* ===================================================================== *)

Module Os.

(** A file system: the paths that exist, each a directory or a file with
    its content.  Paths are compared as they are written. *)
Inductive node (C : Type) : Type :=
| Dir
| File (content : C).
Arguments Dir {C}.
Arguments File {C} content.

Definition sep : ascii := "/"%char.

Definition startswith_sep (s : string) : bool :=
  match s with
  | String c _ => bool_decide (c = sep)
  | EmptyString => false
  end.

Fixpoint endswith_sep (s : string) : bool :=
  match s with
  | EmptyString => false
  | String c EmptyString => bool_decide (c = sep)
  | String _ s' => endswith_sep s'
  end.

Fixpoint contains_sep (s : string) : bool :=
  match s with
  | EmptyString => false
  | String c s' => bool_decide (c = sep) || contains_sep s'
  end.

Fixpoint all_sep (s : string) : bool :=
  match s with
  | EmptyString => true
  | String c s' => bool_decide (c = sep) && all_sep s'
  end.

(** One step of [posixpath.join]: an absolute component replaces what
    came before, otherwise it is appended after a separator. *)
Definition join2 (path b : string) : string :=
  if startswith_sep b then b
  else if bool_decide (path = "") || endswith_sep path then path +:+ b
  else path +:+ "/" +:+ b.

(** [os.path.join(a, *p)] *)
Definition join (a : string) (p : list string) : string :=
  fold_left join2 p a.

(** [p[:p.rfind('/') + 1]] *)
Fixpoint head_upto_last_sep (p : string) : string :=
  match p with
  | EmptyString => EmptyString
  | String c p' =>
      if bool_decide (c = sep) || contains_sep p'
      then String c (head_upto_last_sep p')
      else EmptyString
  end.

(** [s.rstrip('/')] *)
Fixpoint rstrip_sep (s : string) : string :=
  match s with
  | EmptyString => EmptyString
  | String c s' =>
      if all_sep (String c s') then EmptyString else String c (rstrip_sep s')
  end.

(** The separator [join2] puts between [p] and a relative component. *)
Definition sep_after (p : string) : string :=
  if bool_decide (p = "") || endswith_sep p then "" else "/".

(** [posixpath.dirname] *)
Definition dirname (p : string) : string :=
  let head := head_upto_last_sep p in
  if negb (bool_decide (head = "")) && negb (all_sep head)
  then rstrip_sep head
  else head.

Section Fs.
Context {C : Type}.

(** [os.path.exists(path)] *)
Definition path_exists (fs : gmap string (node C)) (path : string) : bool :=
  bool_decide (is_Some (fs !! path)).

(** The directory an entry at [path] is created in must exist; the
    empty parent is the working directory. *)
Definition parent_ok (fs : gmap string (node C)) (path : string) : res unit :=
  let parent := dirname path in
  if bool_decide (parent = "") then Ok tt
  else match fs !! parent with
       | Some Dir => Ok tt
       | Some (File _) => Raise FileNotFoundError
       | None => Raise FileNotFoundError
       end.

(** [os.mkdir(path)] *)
Definition mkdir (fs : gmap string (node C)) (path : string)
    : res (gmap string (node C)) :=
  if path_exists fs path then Raise FileExistsError
  else match parent_ok fs path with
       | Ok _ => Ok (<[path := Dir]> fs)
       | Raise e => Raise e
       end.

(** Writing a file at [path], as [torch.save(obj, path)] does:
    creates the file or replaces its content. *)
Definition write_file (fs : gmap string (node C)) (path : string) (c : C)
    : res (gmap string (node C)) :=
  match fs !! path with
  | Some Dir => Raise IsADirectoryError
  | _ => match parent_ok fs path with
         | Ok _ => Ok (<[path := File c]> fs)
         | Raise e => Raise e
         end
  end.

(** Reading the file at [path], as [torch.load(path)] does. *)
Definition read_file (fs : gmap string (node C)) (path : string) : res C :=
  match fs !! path with
  | Some (File c) => Ok c
  | Some Dir => Raise IsADirectoryError
  | None => Raise FileNotFoundError
  end.
End Fs.

End Os.

(* ===================================================================== *)
(** * Datasets *)
(* ===================================================================== *)

Module Dataset.
Section Dataset.
Context {W : Type}.

(** Modelled from the spec: the class of graph instances is not among
    the sources.  The explainer reads of an instance its node features,
    its dense weighted adjacency ([to_numpy_array()]) and its graph
    label. *)
Record DataInstance : Type := mkInstance {
  features : list (list W);
  to_numpy_array : list (list W);
  graph_label : Z
}.

(** Modelled from the spec: the index sets of one fold, [train] and
    [test]. *)
Record Split : Type := mkSplit {
  train : list Z;
  test : list Z
}.

(** Modelled from the spec: the class [Dataset] is not among the
    sources.  The specification has it expose its name, its instances (an
    ordered sequence), [get_classes()] (the class labels) and
    [get_split_indices()] (a mapping from fold id to the fold's index
    sets). *)
Record t : Type := mk {
  name : string;
  instances : list DataInstance;
  get_classes : list Z;
  get_split_indices : gmap Z Split
}.
End Dataset.
Arguments DataInstance : clear implicits.
Arguments t : clear implicits.
End Dataset.

(** A Python [dict] in insertion order: one entry per key, a new key goes
    to the end, assigning to a present key keeps its place. *)
Module Dict.
Section Dict.
Context {K V : Type} `{EqDecision K}.

Fixpoint get (d : list (K * V)) (k : K) : res V :=
  match d with
  | [] => Raise KeyError
  | (k', v) :: d' => if decide (k' = k) then Ok v else get d' k
  end.

Fixpoint set (d : list (K * V)) (k : K) (v : V) : list (K * V) :=
  match d with
  | [] => [(k, v)]
  | (k', v') :: d' =>
      if decide (k' = k) then (k', v) :: d' else (k', v') :: set d' k v
  end.

Definition keys (d : list (K * V)) : list K := map fst d.
Definition values (d : list (K * V)) : list V := map snd d.

(** [{k: v for k in ks}] *)
Definition from_keys (ks : list K) (v : V) : list (K * V) :=
  fold_left (fun d k => set d k v) ks [].
End Dict.
End Dict.

(* ===================================================================== *)
(** * [AdaptiveGCE]: the per-class autoencoder ensemble *)
(* ===================================================================== *)

Module AdaptiveGCE.
Section AdaptiveGCE.
Context {W Params OptState Loss : Type} `{EqDecision W}
        `{!TorchOps W Params OptState Loss}.
Context (zero : W).

(** A [torch_geometric.data.Data] sample. *)
Record Data : Type := mkData {
  x : list (list W);
  y : Z;
  edge_index : list nat * list nat;
  edge_attr : list W
}.

(** A [DataLoader] over a list of samples. *)
Record DataLoader : Type := mkLoader {
  dataset : list Data;
  loader_batch_size : nat;
  shuffle : bool;
  num_workers : nat
}.

(** The explainer object.  The base class [Explainer] is not among the
    sources: [class_name] is the text that [self.__class__.name] formats
    to, and [name] is the attribute [name] that [fit] assigns. *)
Record t : Type := mk {
  class_name : string;
  time : Z;
  num_classes : nat;
  fold_id : Z;
  batch_size : nat;
  epochs_ae : nat;
  epochs_siamese : nat;
  device : string;
  autoencoders : list (GAE.t Params);
  optimisers : list OptState;
  _fitted : bool;
  explainer_store_path : string;
  name : string
}.

(** [AdaptiveGCE.__init__] *)
Definition init (class_name base_name explainer_store_path : string)
    (time : Z) (num_classes in_channels out_channels : nat) (fold_id : Z)
    (batch_size : nat) (lr : R) (epochs_ae epochs_siamese : nat)
    (device : string) : t :=
  {| class_name := class_name;
     time := time;
     num_classes := num_classes;
     fold_id := fold_id;
     batch_size := batch_size;
     epochs_ae := epochs_ae;
     epochs_siamese := epochs_siamese;
     device := device;
     autoencoders :=
       map (fun _ => GAE.init in_channels out_channels) (seq 0 num_classes);
     optimisers := map (fun _ => adam lr) (seq 0 num_classes);
     _fitted := false;
     explainer_store_path := explainer_store_path;
     name := base_name |}.

(** What a run leaves behind to be observed: calls made and lines
    printed, in order. *)
Inductive Event : Type :=
| EvFit (fold : Z)                    (* [fit] was entered *)
| EvLoad                              (* [load_explainers] was entered *)
| EvTrain                             (* [__fit] was entered *)
| EvEncode (cls : nat) (x : Tensor) (edge_index : list nat * list nat)
           (edge_attr : Squeezed W)   (* [autoencoder.encode] was called;
                                         [forward] prints [x] and
                                         [edge_index] *)
| EvEpoch (cls epoch : nat) (losses : list R)   (* the line printed per epoch *)
| EvSave (cls : nat) (path : string). (* a checkpoint file was written *)

(** The explainer together with the world it acts on: the file system,
    the trace of events and the state of the random generator. *)
Record State : Type := mkState {
  self : t;
  fs : gmap string (Os.node (Params * Params * Params));
  trace : list Event;
  rng : nat
}.

Definition set_self (f : t -> t) (s : State) : State :=
  {| self := f (self s); fs := fs s; trace := trace s; rng := rng s |}.
Definition set_fs (fs' : gmap string (Os.node (Params * Params * Params)))
    (s : State) : State :=
  {| self := self s; fs := fs'; trace := trace s; rng := rng s |}.

Definition with_autoencoders (l : list (GAE.t Params)) (e : t) : t :=
  {| class_name := class_name e; time := time e;
     num_classes := num_classes e; fold_id := fold_id e;
     batch_size := batch_size e; epochs_ae := epochs_ae e;
     epochs_siamese := epochs_siamese e; device := device e;
     autoencoders := l; optimisers := optimisers e;
     _fitted := _fitted e;
     explainer_store_path := explainer_store_path e; name := name e |}.
Definition with_optimisers (l : list OptState) (e : t) : t :=
  {| class_name := class_name e; time := time e;
     num_classes := num_classes e; fold_id := fold_id e;
     batch_size := batch_size e; epochs_ae := epochs_ae e;
     epochs_siamese := epochs_siamese e; device := device e;
     autoencoders := autoencoders e; optimisers := l;
     _fitted := _fitted e;
     explainer_store_path := explainer_store_path e; name := name e |}.
Definition with_fitted (b : bool) (e : t) : t :=
  {| class_name := class_name e; time := time e;
     num_classes := num_classes e; fold_id := fold_id e;
     batch_size := batch_size e; epochs_ae := epochs_ae e;
     epochs_siamese := epochs_siamese e; device := device e;
     autoencoders := autoencoders e; optimisers := optimisers e;
     _fitted := b;
     explainer_store_path := explainer_store_path e; name := name e |}.
Definition with_name (n : string) (e : t) : t :=
  {| class_name := class_name e; time := time e;
     num_classes := num_classes e; fold_id := fold_id e;
     batch_size := batch_size e; epochs_ae := epochs_ae e;
     epochs_siamese := epochs_siamese e; device := device e;
     autoencoders := autoencoders e; optimisers := optimisers e;
     _fitted := _fitted e;
     explainer_store_path := explainer_store_path e; name := n |}.

Definition emit (e : Event) : M State unit :=
  modify (fun s =>
    {| self := self s; fs := fs s; trace := trace s ++ [e]; rng := rng s |}).

(** A draw from the random generator. *)
Definition fresh_seed : M State nat :=
  fun s => (Ok (rng s),
            {| self := self s; fs := fs s; trace := trace s; rng := S (rng s) |}).

(** [self.autoencoders[cls]] and [self.optimisers[cls]] *)
Definition get_autoencoder (cls : nat) : M State (GAE.t Params) :=
  fun s => (index (autoencoders (self s)) (Z.of_nat cls), s).
Definition get_optimiser (cls : nat) : M State OptState :=
  fun s => (index (optimisers (self s)) (Z.of_nat cls), s).

(** In-place mutation of the object [self.autoencoders[cls]] (resp.
    [self.optimisers[cls]]) refers to. *)
Definition update_autoencoder (cls : nat) (f : GAE.t Params -> GAE.t Params)
    : M State unit :=
  modify (set_self (fun e => with_autoencoders (alter f cls (autoencoders e)) e)).
Definition put_optimiser (cls : nat) (o : OptState) : M State unit :=
  modify (set_self (fun e => with_optimisers (<[cls := o]> (optimisers e)) e)).

(** ** [transform_data] *)

(** The body of the loop of [transform_data]: the sample built from
    [x[i]], [adj[i]] and [y[i]]. *)
Definition make_sample (xi : list (list W)) (adji : list (list W)) (yi : Z)
    : Data :=
  let w := adji in
  let a := Sparse.nonzero zero adji in
  let w := Sparse.gather zero w a in
  mkData xi yi (Sparse.transpose a) w.

(** [for i in range(len(y)): ... data_dict_cls[y[i].item()].append(...)] *)
Fixpoint fill_classes (data_dict_cls : list (Z * list Data))
    (rows : list (list (list W) * list (list W) * Z))
    : res (list (Z * list Data)) :=
  match rows with
  | [] => Ok data_dict_cls
  | (xi, adji, yi) :: rest =>
      match Dict.get data_dict_cls yi with
      | Ok l =>
          fill_classes
            (Dict.set data_dict_cls yi (l ++ [make_sample xi adji yi])) rest
      | Raise e => Raise e
      end
  end.

(** [transform_data] up to the point where [data_dict_cls] is complete. *)
Definition class_partitions (self : t) (dataset : Dataset.t W)
    : res (list (Z * list Data)) :=
  let adj := map Dataset.to_numpy_array (Dataset.instances dataset) in
  let x := map Dataset.features (Dataset.instances dataset) in
  let y := map Dataset.graph_label (Dataset.instances dataset) in
  match Dataset.get_split_indices dataset !! fold_id self with
  | None => Raise KeyError
  | Some split =>
      let indices := Dataset.train split in
      match take_indices x indices, take_indices adj indices,
            take_indices y indices with
      | Ok x, Ok adj, Ok y =>
          let classes := Dataset.get_classes dataset in
          let data_dict_cls := Dict.from_keys classes [] in
          fill_classes data_dict_cls (zip (zip x adj) y)
      | Raise e, _, _ => Raise e
      | _, Raise e, _ => Raise e
      | _, _, Raise e => Raise e
      end
  end.

(** [AdaptiveGCE.transform_data].  [TorchGeometricDataset] is not among
    the sources; a loader over it yields the samples of the list it was
    built from. *)
Definition transform_data (self : t) (dataset : Dataset.t W)
    : res (list DataLoader) :=
  match class_partitions self dataset with
  | Ok data_dict_cls =>
      Ok (map (fun cls_data => mkLoader cls_data.2 1 true 2) data_dict_cls)
  | Raise e => Raise e
  end.

(** One pass over a loader with batch size 1: each item is the batch of
    a single sample, which has the sample's own [edge_index] and
    [edge_attr]; a shuffling loader draws a new order for each pass. *)
Definition loader_items (dl : DataLoader) (seed : nat) : list Data :=
  let n := length (dataset dl) in
  let order := if shuffle dl then randperm seed n else seq 0 n in
  omap (fun i => dataset dl !! i) order.

(** ** [__fit] *)

(** The body of [for item in data_loader]; returns [loss.item()]. *)
Definition train_item (cls : nat) (item : Data) : M State R :=
  (let edge_index := squeeze0_index (edge_index item) in
   let edge_attr := squeeze0 (edge_attr item) in
   update_autoencoder cls
     (fun ae => GAE.set_parameters (zero_grad (GAE.state_dict ae)) ae) ;;;
   autoencoder <- get_autoencoder cls ;;
   emit (EvEncode cls FloatTensor_empty edge_index edge_attr) ;;;
   seed <- fresh_seed ;;
   z <- lift (GAE.encode autoencoder seed FloatTensor_empty edge_index edge_attr) ;;
   seed' <- fresh_seed ;;
   loss <- lift (recon_loss seed' z edge_index) ;;
   parameters <- lift (backward loss (GAE.state_dict autoencoder)) ;;
   update_autoencoder cls (GAE.set_parameters parameters) ;;;
   optimiser <- get_optimiser cls ;;
   put_optimiser cls (step optimiser parameters).1 ;;;
   update_autoencoder cls (GAE.set_parameters (step optimiser parameters).2) ;;;
   ret (loss_item loss))%py.

(** [losses = []; for item in data_loader: ...; losses.append(...)] *)
Fixpoint train_items (cls : nat) (items : list Data) : M State (list R) :=
  match items with
  | [] => ret []
  | item :: rest =>
      (l <- train_item cls item ;;
       ls <- train_items cls rest ;;
       ret (l :: ls))%py
  end.

(** The body of [for epoch in range(self.epochs_ae)]. *)
Definition train_epoch (cls : nat) (data_loader : DataLoader) (epoch : nat)
    : M State unit :=
  (seed <- fresh_seed ;;
   losses <- train_items cls (loader_items data_loader seed) ;;
   emit (EvEpoch cls epoch losses))%py.

(** The body of [for cls, data_loader in enumerate(data_loaders)] up to
    the end of the epoch loop. *)
Definition train_class (cls : nat) (data_loader : DataLoader) : M State unit :=
  (optimiser <- get_optimiser cls ;;
   autoencoder <- get_autoencoder cls ;;
   update_autoencoder cls (GAE.train true) ;;;
   s <- get ;;
   for_each (seq 0 (epochs_ae (self s))) (train_epoch cls data_loader))%py.

(** [AdaptiveGCE.save_autoencoder] *)
Definition save_autoencoder (model : GAE.t Params) (cls : nat) : M State unit :=
  (s <- get ;;
   let path := Os.join (explainer_store_path (self s))
                 [name (self s); "autoencoder_" +:+ pretty cls] in
   fs' <- lift (Os.write_file (fs s) path (GAE.state_dict model)) ;;
   modify (set_fs fs') ;;;
   emit (EvSave cls path))%py.

(** One round of the loop of [__fit]. *)
Definition fit_class (cls_loader : nat * DataLoader) : M State unit :=
  (train_class cls_loader.1 cls_loader.2 ;;;
   autoencoder <- get_autoencoder cls_loader.1 ;;
   save_autoencoder autoencoder cls_loader.1)%py.

(** [enumerate(xs)] *)
Definition enumerate {A} (xs : list A) : list (nat * A) :=
  imap (fun i a => (i, a)) xs.

(** [AdaptiveGCE.__fit] *)
Definition __fit {Oracle : Type} (oracle : Oracle) (dataset : Dataset.t W)
    : M State unit :=
  (emit EvTrain ;;;
   s <- get ;;
   data_loaders <- lift (transform_data (self s) dataset) ;;
   for_each (enumerate data_loaders) fit_class)%py.

(** ** [load_explainers], [fit], [explain] *)

(** Modelled from the spec: [load_explainers] is not defined in
    [ada_gce.py].  The specification has it load the ensemble weights
    from the checkpoint directory, one file per class index, and fail
    when an expected per-class weight file is missing. *)
Definition load_autoencoder (cls : nat) : M State unit :=
  (s <- get ;;
   let path := Os.join (explainer_store_path (self s))
                 [name (self s); "autoencoder_" +:+ pretty cls] in
   weights <- lift (Os.read_file (fs s) path) ;;
   update_autoencoder cls (GAE.set_parameters weights))%py.

(** Modelled from the spec: see [load_autoencoder]. *)
Definition load_explainers : M State unit :=
  (emit EvLoad ;;;
   s <- get ;;
   for_each (seq 0 (num_classes (self s))) load_autoencoder)%py.

(** [AdaptiveGCE.fit] *)
Definition fit {Oracle : Type} (oracle : Oracle) (dataset : Dataset.t W)
    (fold_id : Z) : M State unit :=
  (emit (EvFit fold_id) ;;;
   s <- get ;;
   let explainer_name :=
     class_name (self s) +:+ "_fit_on_" +:+ Dataset.name dataset
       +:+ "_fold_id_" +:+ pretty fold_id in
   let explainer_uri :=
     Os.join (explainer_store_path (self s)) [explainer_name] in
   modify (set_self (with_name explainer_name)) ;;;
   s <- get ;;
   (if Os.path_exists (fs s) explainer_uri
    then load_explainers
    else (fs' <- lift (Os.mkdir (fs s) explainer_uri) ;;
          modify (set_fs fs') ;;;
          __fit oracle dataset)) ;;;
   modify (set_self (with_fitted true)))%py.

(** [AdaptiveGCE.explain] *)
Definition explain {Instance Oracle : Type} (instance : Instance)
    (oracle : Oracle) (dataset : Dataset.t W) : M State Instance :=
  (s <- get ;;
   (if negb (_fitted (self s))
    then fit oracle dataset (fold_id (self s))
    else ret tt) ;;;
   ret instance)%py.

(** ** Vocabulary of the properties *)

(** How often [fit] was entered. *)
Definition fit_calls (tr : list Event) : nat :=
  length (List.filter (fun e => match e with EvFit _ => true | _ => false end) tr).

(** The identity string of [fit] and the checkpoint paths under it. *)
Definition explainer_name (self : t) (dataset : Dataset.t W) (fold_id : Z)
    : string :=
  class_name self +:+ "_fit_on_" +:+ Dataset.name dataset
    +:+ "_fold_id_" +:+ pretty fold_id.

Definition explainer_uri (self : t) (dataset : Dataset.t W) (fold_id : Z)
    : string :=
  Os.join (explainer_store_path self) [explainer_name self dataset fold_id].

Definition checkpoint_path (self : t) (dataset : Dataset.t W) (fold_id : Z)
    (cls : nat) : string :=
  Os.join (explainer_store_path self)
    [explainer_name self dataset fold_id; "autoencoder_" +:+ pretty cls].

(** The state in which [fit] tests for the checkpoint directory: the
    entry event is in the trace and [name] is assigned. *)
Definition fit_entered (s : State) (dataset : Dataset.t W) (fold_id : Z)
    : State :=
  {| self := with_name (explainer_name (self s) dataset fold_id) (self s);
     fs := fs s;
     trace := trace s ++ [EvFit fold_id];
     rng := rng s |}.

(** The state in which the loop of [__fit] starts when [fit] has created
    the checkpoint directory. *)
Definition training_start (s : State) (dataset : Dataset.t W) (fold_id : Z)
    : State :=
  {| self := with_name (explainer_name (self s) dataset fold_id) (self s);
     fs := <[explainer_uri (self s) dataset fold_id := Os.Dir]> (fs s);
     trace := trace s ++ [EvFit fold_id; EvTrain];
     rng := rng s |}.

(** A caller that asks for the explanation of each instance in turn. *)
Fixpoint explain_all {Instance Oracle : Type} (instances : list Instance)
    (oracle : Oracle) (dataset : Dataset.t W) : M State (list Instance) :=
  match instances with
  | [] => ret []
  | instance :: rest =>
      (e <- explain instance oracle dataset ;;
       es <- explain_all rest oracle dataset ;;
       ret (e :: es))%py
  end.

(** What a computation is allowed to touch: the events it may emit, the
    paths it may create or write, and whether it may assign the
    attributes [name] and [_fitted]. *)
Record Footprint : Type := mkFootprint {
  may_emit : Event -> Prop;
  may_write : string -> Prop;
  may_assign : bool
}.

(** [s'] is reachable from [s] within the footprint [F]: the attributes
    set by the constructor only are the same, the file system has lost
    nothing and differs at most on the allowed paths, and the trace has
    grown by allowed events. *)
Definition within (F : Footprint) (s s' : State) : Prop :=
  class_name (self s') = class_name (self s) ∧
  explainer_store_path (self s') = explainer_store_path (self s) ∧
  num_classes (self s') = num_classes (self s) ∧
  epochs_ae (self s') = epochs_ae (self s) ∧
  fold_id (self s') = fold_id (self s) ∧
  (may_assign F = false →
     name (self s') = name (self s) ∧ _fitted (self s') = _fitted (self s)) ∧
  (∀ p, ¬ may_write F p → fs s' !! p = fs s !! p) ∧
  (∀ p, is_Some (fs s !! p) → is_Some (fs s' !! p)) ∧
  ∃ evs, trace s' = trace s ++ evs ∧ Forall (may_emit F) evs.

(** Every run of [m] stays within [F], however it ends. *)
Definition stays_within {A} (F : Footprint) (m : M State A) : Prop :=
  ∀ s r s', m s = (r, s') → within F s s'.

(** [F] allows no more than [G]. *)
Definition below (F G : Footprint) : Prop :=
  (∀ e, may_emit F e → may_emit G e) ∧
  (∀ p, may_write F p → may_write G p) ∧
  (may_assign F = true → may_assign G = true).

(** The checkpoint path [save_autoencoder] computes in state [s]. *)
Definition ckpt_of (s : State) (cls : nat) : string :=
  Os.join (explainer_store_path (self s))
    [name (self s); "autoencoder_" +:+ pretty cls].

(** The events of training the classes in [P], with checkpoints at
    [ckpt]: every call of [encode] is on the empty feature tensor. *)
Definition training_event_of (P : nat -> Prop) (ckpt : nat -> string)
    (e : Event) : Prop :=
  match e with
  | EvTrain => True
  | EvEncode c x _ _ => P c ∧ x = FloatTensor_empty
  | EvEpoch c _ _ => P c
  | EvSave c p => P c ∧ p = ckpt c
  | EvFit _ | EvLoad => False
  end.

(** Footprint of the epoch loop of class [cls]: it calls [encode] on
    the empty feature tensor, prints, and writes no file. *)
Definition fp_train_class (cls : nat) : Footprint :=
  {| may_emit := fun e =>
       match e with
       | EvEncode c x _ _ => c = cls ∧ x = FloatTensor_empty
       | EvEpoch c _ _ => c = cls
       | _ => False
       end;
     may_write := fun _ => False;
     may_assign := false |}.

(** Footprint of training the classes in [P]. *)
Definition fp_training (P : nat -> Prop) (ckpt : nat -> string) : Footprint :=
  {| may_emit := training_event_of P ckpt;
     may_write := fun p => ∃ c, P c ∧ p = ckpt c;
     may_assign := false |}.

(** Footprint of an operation that emits and writes nothing. *)
Definition fp_silent : Footprint :=
  {| may_emit := fun _ => False;
     may_write := fun _ => False;
     may_assign := false |}.

(** Footprint of [load_explainers]. *)
Definition fp_load : Footprint :=
  {| may_emit := fun e => e = EvLoad;
     may_write := fun _ => False;
     may_assign := false |}.

(** Footprint of [fit] after its entry event. *)
Definition fp_fit (uri : string) (ckpt : nat -> string) : Footprint :=
  {| may_emit := fun e => e = EvLoad ∨ training_event_of (fun _ => True) ckpt e;
     may_write := fun p => p = uri ∨ ∃ c, p = ckpt c;
     may_assign := true |}.

(** The sample [transform_data] builds from an instance. *)
Definition sample_of (i : Dataset.DataInstance W) : Data :=
  make_sample (Dataset.features i) (Dataset.to_numpy_array i)
    (Dataset.graph_label i).





(** The events a run of [fit] that aborts in class [c] may have emitted:
    nothing of a class after [c], no checkpoint of [c] or later, no
    load. *)
Definition aborted_at (c : nat) (e : Event) : Prop :=
  match e with
  | EvFit _ | EvTrain => True
  | EvLoad => False
  | EvEncode k _ _ _ | EvEpoch k _ _ => (k <= c)%nat
  | EvSave k _ => (k < c)%nat
  end.



End AdaptiveGCE.
Arguments Data : clear implicits.
Arguments DataLoader : clear implicits.
Arguments t : clear implicits.
Arguments Event : clear implicits.
Arguments State : clear implicits.
End AdaptiveGCE.

(* ===================================================================== *)
(** * [DynamicEvaluator] *)
(* ===================================================================== *)

Module DynamicEvaluator.
Section DynamicEvaluator.
Context {Dataset Oracle Explainer Metrics : Type}.

(** Modelled from the spec: the class [DynamicDataset] is not among the
    sources.  The specification has it expose [dynamic_graph], an ordered
    mapping from time key to snapshot; the evaluator takes [keys()] of it
    and indexes it, as of a [dict], whose order is the order in which the
    keys were inserted.  The constructor may be handed a plain dataset
    or a dynamic one. *)
Inductive AnyDataset : Type :=
| PlainDataset (d : Dataset)
| DynamicDataset (d : Dataset) (dynamic_graph : list (Z * Dataset)).

(** The explainer object as the evaluator uses it: the attribute
    [iteration] the evaluator assigns (absent until then) and the rest. *)
Record ExplainerObj : Type := mkExplainer {
  iteration : option Z;
  explainer : Explainer
}.

(** The evaluator object. *)
Record t : Type := mk {
  _data : AnyDataset;
  _oracle : Oracle;
  _explainer : ExplainerObj;
  _evaluation_metrics : Metrics;
  _results_store_path : string;
  _run_number : Z;
  dyn_graph : list (Z * Dataset)
}.

(** [DynamicEvaluator.__init__] *)
Definition init (data : AnyDataset) (oracle : Oracle) (explainer : ExplainerObj)
    (evaluation_metrics : Metrics) (results_store_path : string)
    (run_number : Z) : res t :=
  match data with
  | PlainDataset _ => Raise AssertionError
  | DynamicDataset _ dynamic_graph =>
      Ok {| _data := data; _oracle := oracle; _explainer := explainer;
            _evaluation_metrics := evaluation_metrics;
            _results_store_path := results_store_path;
            _run_number := run_number;
            dyn_graph := dynamic_graph |}
  end.

Inductive Event : Type :=
| EvPrint (offset : Z)        (* the line [Evaluating for iteration ...] *)
| EvEvaluate (iteration : option Z) (data : AnyDataset).
                              (* [super().evaluate()] was entered, on an
                                 evaluator with this iteration counter on
                                 its explainer and this active dataset *)

Record State : Type := mkState {
  self : t;
  trace : list Event
}.

(** The inherited single-snapshot [Evaluator.evaluate]: it may raise and
    may mutate the evaluator. *)
Context (super_evaluate : t -> res unit * t).

Definition emit (e : Event) : M State unit :=
  modify (fun s => {| self := self s; trace := trace s ++ [e] |}).

Definition set_iteration (i : Z) (e : t) : t :=
  {| _data := _data e; _oracle := _oracle e;
     _explainer := {| iteration := Some i;
                      explainer := explainer (_explainer e) |};
     _evaluation_metrics := _evaluation_metrics e;
     _results_store_path := _results_store_path e;
     _run_number := _run_number e;
     dyn_graph := dyn_graph e |}.

Definition set_data (d : AnyDataset) (e : t) : t :=
  {| _data := d; _oracle := _oracle e; _explainer := _explainer e;
     _evaluation_metrics := _evaluation_metrics e;
     _results_store_path := _results_store_path e;
     _run_number := _run_number e;
     dyn_graph := dyn_graph e |}.

(** [super().evaluate()] *)
Definition call_super : M State unit :=
  fun s =>
    let entered := trace s ++
      [EvEvaluate (iteration (_explainer (self s))) (_data (self s))] in
    ((super_evaluate (self s)).1,
     {| self := (super_evaluate (self s)).2; trace := entered |}).

(** [min(keys)] *)
Definition py_min (keys : list Z) : res Z :=
  match keys with
  | [] => Raise ValueError
  | k :: keys' => Ok (fold_left Z.min keys' k)
  end.

(** The body of the loop of [evaluate]; it ends in [break]. *)
Definition evaluate_body (begin_time time : Z) : M State ctl :=
  (emit (EvPrint (time - begin_time)) ;;;
   modify (fun s => {| self := set_iteration (time - begin_time) (self s);
                       trace := trace s |}) ;;;
   s <- get ;;
   snapshot <- lift (Dict.get (dyn_graph (self s)) time) ;;
   modify (fun s => {| self := set_data (PlainDataset snapshot) (self s);
                       trace := trace s |}) ;;;
   call_super ;;;
   ret Break)%py.

(** [DynamicEvaluator.evaluate] *)
Definition evaluate : M State unit :=
  (s <- get ;;
   begin_time <- lift (py_min (Dict.keys (dyn_graph (self s)))) ;;
   for_each_ctl (Dict.keys (dyn_graph (self s))) (evaluate_body begin_time))%py.

(** How often [super().evaluate()] was entered. *)
Definition evaluations (tr : list Event) : nat :=
  length (List.filter
            (fun e => match e with EvEvaluate _ _ => true | _ => false end) tr).

(** What [super().evaluate()] saw each time it was entered. *)
Definition evaluated (tr : list Event) : list (option Z * AnyDataset) :=
  omap (fun e => match e with
                 | EvEvaluate i d => Some (i, d)
                 | EvPrint _ => None
                 end) tr.

(** What a run of [evaluate] from [s] added to the trace. *)
Definition run_events (s : State) : list Event :=
  drop (length (trace s)) (trace (evaluate s).2).

(** The run of [evaluate] from [s] begins at the minimum key: the first
    inherited evaluation sees the iteration counter 0 and the snapshot
    stored at the minimum key. *)
Definition starts_at_minimum (s : State) : Prop :=
  ∃ begin_time snapshot,
    py_min (Dict.keys (dyn_graph (self s))) = Ok begin_time ∧
    Dict.get (dyn_graph (self s)) begin_time = Ok snapshot ∧
    head (evaluated (run_events s)) = Some (Some 0, PlainDataset snapshot).

End DynamicEvaluator.
Arguments AnyDataset : clear implicits.
Arguments ExplainerObj : clear implicits.
Arguments t : clear implicits.
Arguments Event : clear implicits.
Arguments State : clear implicits.
End DynamicEvaluator.

(* ===================================================================== *)
(** * Concrete objects for the examples *)
(* ===================================================================== *)

Module Example.

(** Stand-ins for the numeric kernels.  The convolution keeps the number
    of nodes of a rank-2 input and returns [out_channels] columns; on a
    rank-1 input it fails when the graph has no edge.  Parameters and
    optimiser states are step counters. *)
Definition toy_conv (c : GCNConv.t nat) (x : Tensor)
    (edge_index : list nat * list nat) (edge_weight : Squeezed Z) : res Tensor :=
  match x with
  | T2 rows => Ok (T2 (map (fun _ => repeat 0%R (GCNConv.out_channels c)) rows))
  | T1 v => match edge_index.1 with
            | [] => Raise RuntimeError
            | _ :: _ => Ok (T1 v)
            end
  end.

Global Instance toy_ops : TorchOps Z nat nat unit := {|
  init_params := fun _ _ => 0%nat;
  conv := toy_conv;
  dropout_mask := fun _ _ _ => false;
  recon_loss := fun _ _ _ => Ok tt;
  zero_grad := fun sd => sd;
  backward := fun _ sd => Ok sd;
  adam := fun _ => 0%nat;
  step := fun o sd => (S o, (S sd.1.1, S sd.1.2, S sd.2));
  loss_item := fun _ => 0%R;
  randperm := fun _ n => seq 0 n;
  randperm_perm := fun _ n => reflexivity (seq 0 n)
|}.

(** A graph with two nodes and an edge in both directions, of class 0. *)
Definition graph_a : Dataset.DataInstance Z :=
  Dataset.mkInstance [[1]; [1]] [[0; 2]; [2; 0]] 0.


(** A graph with two nodes and one edge, of class 1. *)
Definition graph_b : Dataset.DataInstance Z :=
  Dataset.mkInstance [[1]; [1]] [[0; 3]; [0; 0]] 1.

(** A graph with two nodes and no edge, of class 1. *)
Definition graph_c : Dataset.DataInstance Z :=
  Dataset.mkInstance [[1]; [1]] [[0; 0]; [0; 0]] 1.

Definition fold0 : Dataset.Split := Dataset.mkSplit [0; 1] [2].

Definition toy : Dataset.t Z :=
  Dataset.mk "toy" [graph_a; graph_b; graph_a] [0; 1] {[ 0 := fold0 ]}.


(** A dataset whose class 1 cannot be trained on. *)
Definition broken : Dataset.t Z :=
  Dataset.mk "broken" [graph_a; graph_c; graph_a] [0; 1] {[ 0 := fold0 ]}.

(** An explainer for two classes, one epoch, storing under [store]. *)
Definition explainer : AdaptiveGCE.t nat nat :=
  AdaptiveGCE.init "AdaptiveGCE" "explainer" "store" 0 2 1 4 0 24 0%R 1 1 "cpu".

(** The world before anything ran: the store directory exists. *)
Definition start : AdaptiveGCE.State Z nat nat :=
  AdaptiveGCE.mkState explainer {[ "store" := Os.Dir ]} [] 0.

(** The loaders of [broken], the state in which its class 0 is trained
    and saved, and the state in which training class 1 has failed. *)
Definition broken_loaders : list (AdaptiveGCE.DataLoader Z) :=
  match AdaptiveGCE.transform_data 0 explainer broken with
  | Ok loaders => loaders
  | Raise _ => []
  end.

Definition broken_class1 : AdaptiveGCE.DataLoader Z :=
  AdaptiveGCE.mkLoader
    [AdaptiveGCE.mkData [[1]; [1]] 1 ([], []) []] 1 true 2.

Definition class0_done : AdaptiveGCE.State Z nat nat :=
  (for_each (AdaptiveGCE.enumerate (take 1 broken_loaders))
     AdaptiveGCE.fit_class (AdaptiveGCE.training_start start broken 0)).2.

Definition class1_failed : AdaptiveGCE.State Z nat nat :=
  (AdaptiveGCE.train_class 1 broken_class1 class0_done).2.

(** An encoder and an input with three nodes and one channel. *)
Definition encoder : GCNEncoder.t nat := GCNEncoder.init 1 4.
Definition three_nodes : Tensor := T2 [[0%R]; [0%R]; [0%R]].

(** A dynamic graph with its keys in ascending order, and one with the
    same snapshots inserted in another order. *)
Definition ascending : list (Z * string) :=
  [(5, "at 5"); (8, "at 8"); (13, "at 13")].
Definition shuffled : list (Z * string) :=
  [(8, "at 8"); (5, "at 5"); (13, "at 13")].

Definition evaluator (dynamic_graph : list (Z * string))
    : DynamicEvaluator.State string unit unit unit :=
  DynamicEvaluator.mkState
    (DynamicEvaluator.mk
       (DynamicEvaluator.DynamicDataset "all" dynamic_graph) tt
       (DynamicEvaluator.mkExplainer None tt) tt "results" 0 dynamic_graph)
    [].

(** An inherited evaluation that returns and changes nothing. *)
Definition super_evaluate
    (e : DynamicEvaluator.t string unit unit unit)
    : res unit * DynamicEvaluator.t string unit unit unit :=
  (Ok tt, e).

End Example.

(* ===================================================================== *)
(** * [autoencoders.py]: the losses of the autoencoder variants *)
(* ===================================================================== *)

Module Autoencoders.

(** What the losses take from elsewhere: [nn.MSELoss] on operands that
    are not two matrices of one shape with at least one entry (where torch
    broadcasts, fails or returns nan), the inner-product decoder on a
    latent that is not a matrix, and
    [SupervisedContrastiveLoss], whose module [losses.py] is not among the
    sources. *)
Class LossOps (Label : Type) : Type := {
  mse_other : Tensor -> Tensor -> res R;
  forward_all_other : list R -> res Tensor;
  contrastive_loss : R -> Tensor -> Tensor -> Label -> res R
}.

Section Autoencoders.
Context {Label : Type} `{!LossOps Label}.

(** The inner product of two rows. *)
Definition dot (u v : list R) : R :=
  fold_right Rplus 0%R (zip_with Rmult u v).

(** [torch.matmul(a, b.t())] on matrices. *)
Definition matmul_t (a b : list (list R)) : list (list R) :=
  map (fun row => map (dot row) b) a.

(** [self.decoder.forward_all(z, sigmoid=False)] for the decoder a [GAE]
    has by default, [InnerProductDecoder]: [torch.matmul(z, z.t())],
    without the sigmoid. *)
Definition forward_all (z : Tensor) : res Tensor :=
  match z with
  | T2 rows => Ok (T2 (matmul_t rows rows))
  | T1 v => forward_all_other v
  end.

(** The sum of the squared differences of two matrices of one shape. *)
Definition squared_error (a b : list (list R)) : R :=
  fold_right Rplus 0%R
    (zip_with (fun ra rb =>
                 fold_right Rplus 0%R
                   (zip_with (fun x y => (x - y) * (x - y))%R ra rb)) a b).

(** The number of entries of a matrix. *)
Definition numel (a : list (list R)) : nat := sum_list (map length a).

(** [nn.MSELoss()(input, target)], with the default mean reduction. *)
Definition mse (input target : Tensor) : res R :=
  match input, target with
  | T2 a, T2 b =>
      if decide (map length a = map length b ∧ numel a ≠ 0%nat)
      then Ok (squared_error a b / INR (numel a))%R
      else mse_other input target
  | _, _ => mse_other input target
  end.

(** [CustomGAE.loss] *)
Definition CustomGAE_loss (z truth : Tensor) : res R :=
  match forward_all z with
  | Ok rec_adj_matrix => mse rec_adj_matrix truth
  | Raise e => Raise e
  end.

(** [ContrastiveGAE.loss], for an autoencoder built with [margin]: [z] is
    a sequence of latents, [truth] a pair of the anchor's adjacency and the
    grouping signal. *)
Definition ContrastiveGAE_loss (margin : R) (z : list Tensor)
    (truth : Tensor * Label) : res (R * R) :=
  match index z 0 with
  | Raise e => Raise e
  | Ok z0 =>
      match forward_all z0 with
      | Raise e => Raise e
      | Ok rec_x1 =>
          match index z 1 with
          | Raise e => Raise e
          | Ok z1 =>
              match forward_all z1 with
              | Raise e => Raise e
              | Ok rec_x2 =>
                  match mse rec_x1 truth.1 with
                  | Raise e => Raise e
                  | Ok reconstruction =>
                      match contrastive_loss margin rec_x1 rec_x2 truth.2 with
                      | Raise e => Raise e
                      | Ok contrast => Ok (reconstruction, contrast)
                      end
                  end
              end
          end
      end
  end.

End Autoencoders.
End Autoencoders.

(* ===================================================================== *)
(** * Vocabulary for the units of the ensemble *)
(* ===================================================================== *)

Module Ensemble.

(** The distinct elements of a list, each at the place of its first
    occurrence. *)
Definition first_occurrences (ks : list Z) : list Z :=
  fold_left (fun seen k => if decide (k ∈ seen) then seen else seen ++ [k]) ks [].

Section Ensemble.
Context {W Params OptState : Type}.

(** The autoencoder and the optimiser of class [j] are the same in [s]
    and in [s']. *)
Definition same_unit (j : nat)
    (s s' : AdaptiveGCE.State W Params OptState) : Prop :=
  AdaptiveGCE.autoencoders (AdaptiveGCE.self s') !! j =
    AdaptiveGCE.autoencoders (AdaptiveGCE.self s) !! j ∧
  AdaptiveGCE.optimisers (AdaptiveGCE.self s') !! j =
    AdaptiveGCE.optimisers (AdaptiveGCE.self s) !! j.

(** The ensemble has as many autoencoders and optimisers in [s'] as in
    [s]. *)
Definition same_sizes (s s' : AdaptiveGCE.State W Params OptState) : Prop :=
  length (AdaptiveGCE.autoencoders (AdaptiveGCE.self s')) =
    length (AdaptiveGCE.autoencoders (AdaptiveGCE.self s)) ∧
  length (AdaptiveGCE.optimisers (AdaptiveGCE.self s')) =
    length (AdaptiveGCE.optimisers (AdaptiveGCE.self s)).

(** Every run of [m] relates the state it starts in to the state it ends
    in by [R], however it ends. *)
Definition keeps {A} (R : AdaptiveGCE.State W Params OptState ->
                         AdaptiveGCE.State W Params OptState -> Prop)
    (m : M (AdaptiveGCE.State W Params OptState) A) : Prop :=
  ∀ s r s', m s = (r, s') → R s s'.

(** From [s] to [s'] the ensemble has kept its size, and the units of the
    classes other than [cls] are the same. *)
Definition only_unit (cls : nat)
    (s s' : AdaptiveGCE.State W Params OptState) : Prop :=
  same_sizes s s' ∧ ∀ j, j ≠ cls → same_unit j s s'.

(** Two states hold the same ensemble: the autoencoders, the optimisers,
    the number of epochs and the state of the random generator are the
    same; the name, the file system and the trace may differ. *)
Definition same_ensemble (s1 s2 : AdaptiveGCE.State W Params OptState) : Prop :=
  AdaptiveGCE.autoencoders (AdaptiveGCE.self s1) =
    AdaptiveGCE.autoencoders (AdaptiveGCE.self s2) ∧
  AdaptiveGCE.optimisers (AdaptiveGCE.self s1) =
    AdaptiveGCE.optimisers (AdaptiveGCE.self s2) ∧
  AdaptiveGCE.epochs_ae (AdaptiveGCE.self s1) =
    AdaptiveGCE.epochs_ae (AdaptiveGCE.self s2) ∧
  AdaptiveGCE.rng s1 = AdaptiveGCE.rng s2.

(** [m] reads and writes of the state only the ensemble: run from two
    states that hold the same ensemble, it ends the same way, in states
    that hold the same ensemble. *)
Definition on_ensemble {A} (m : M (AdaptiveGCE.State W Params OptState) A)
    : Prop :=
  ∀ s1 s2, same_ensemble s1 s2 →
    (m s1).1 = (m s2).1 ∧ same_ensemble (m s1).2 (m s2).2.

(** The event [train_item] emits for a sample: the call of [encode] on
    the empty feature tensor and the edges of the sample. *)
Definition encode_event (cls : nat) (item : AdaptiveGCE.Data W)
    : AdaptiveGCE.Event W :=
  AdaptiveGCE.EvEncode cls FloatTensor_empty
    (squeeze0_index (AdaptiveGCE.edge_index item))
    (squeeze0 (AdaptiveGCE.edge_attr item)).

(** Footprint of a computation of which only the events are constrained. *)
Definition fp_events (good : AdaptiveGCE.Event W -> Prop)
    : @AdaptiveGCE.Footprint W :=
  {| AdaptiveGCE.may_emit := good;
     AdaptiveGCE.may_write := fun _ => True;
     AdaptiveGCE.may_assign := true |}.

(** [e] is no call of [encode], or it is the call [train_item] makes for
    the class index [k] on one of the samples [items k]. *)
Definition encodes_from (items : nat -> list (AdaptiveGCE.Data W))
    (e : AdaptiveGCE.Event W) : Prop :=
  match e with
  | AdaptiveGCE.EvEncode k _ _ _ =>
      ∃ item, item ∈ items k ∧ e = encode_event k item
  | _ => True
  end.

(** The samples of the loader at position [k], if there is one. *)
Definition samples_at (loaders : list (AdaptiveGCE.DataLoader W)) (k : nat)
    : list (AdaptiveGCE.Data W) :=
  match loaders !! k with
  | Some dl => AdaptiveGCE.dataset dl
  | None => []
  end.

End Ensemble.
End Ensemble.

(* ===================================================================== *)
(** * Callers of [explain] *)
(* ===================================================================== *)

Module Caller.
Section Caller.
Context {W Params OptState Loss : Type} `{EqDecision W}
        `{!TorchOps W Params OptState Loss}.
Context (zero : W).
Context {Instance Oracle : Type}.

(** A caller that asks for the explanation of each instance in turn and
    goes on to the next one when a call raises, as in
    [for instance in instances: try: explain(instance, ...) except: ...];
    it gives the outcome of every call. *)
Fixpoint explain_each (instances : list Instance) (oracle : Oracle)
    (dataset : Dataset.t W) (s : AdaptiveGCE.State W Params OptState)
    : list (res Instance) * AdaptiveGCE.State W Params OptState :=
  match instances with
  | [] => ([], s)
  | instance :: rest =>
      let attempt := AdaptiveGCE.explain zero instance oracle dataset s in
      let later := explain_each rest oracle dataset attempt.2 in
      (attempt.1 :: later.1, later.2)
  end.

(** Among calls with the outcomes [rs], the calls up to and including
    the first one that returns: all of them when none returns. *)
Fixpoint calls_until_return {A} (rs : list (res A)) : nat :=
  match rs with
  | [] => 0
  | Ok _ :: _ => 1
  | Raise _ :: rs' => S (calls_until_return rs')
  end.

End Caller.
End Caller.

(* ===================================================================== *)
(** * Further concrete objects for the examples *)
(* ===================================================================== *)

Module Scenario.

(** Losses on operands outside the modelled cases fail; the contrastive
    loss is constant. *)
Global Instance toy_loss : Autoencoders.LossOps bool := {|
  Autoencoders.mse_other := fun _ _ => Raise RuntimeError;
  Autoencoders.forward_all_other := fun _ => Raise RuntimeError;
  Autoencoders.contrastive_loss := fun _ _ _ _ => Ok 0%R
|}.


(** A graph of class 2. *)
Definition graph_d : Dataset.DataInstance Z :=
  Dataset.mkInstance [[1]; [1]] [[0; 5]; [0; 0]] 2.

(** A dataset that lists class 1 twice, before and after class 0. *)
Definition repeated : Dataset.t Z :=
  Dataset.mk "repeated" [Example.graph_b; Example.graph_a] [1; 0; 1]
    {[ 0 := Example.fold0 ]}.

(** A dataset with three classes, for an explainer built for two. *)
Definition three_classes : Dataset.t Z :=
  Dataset.mk "three" [Example.graph_a; Example.graph_b; graph_d] [0; 1; 2]
    {[ 0 := Dataset.mkSplit [0; 1; 2] [] ]}.

(** A dataset with one class, for an explainer built for two. *)
Definition single_class : Dataset.t Z :=
  Dataset.mk "single" [Example.graph_a] [0]
    {[ 0 := Dataset.mkSplit [0] [] ]}.

(** Three calls of [explain] in a row on the dataset whose class 1
    cannot be trained on, each from the state the call before left. *)
Definition first_attempt
    : res (Dataset.DataInstance Z) * AdaptiveGCE.State Z nat nat :=
  AdaptiveGCE.explain 0 Example.graph_a tt Example.broken Example.start.
Definition second_attempt
    : res (Dataset.DataInstance Z) * AdaptiveGCE.State Z nat nat :=
  AdaptiveGCE.explain 0 Example.graph_a tt Example.broken first_attempt.2.
Definition third_attempt
    : res (Dataset.DataInstance Z) * AdaptiveGCE.State Z nat nat :=
  AdaptiveGCE.explain 0 Example.graph_a tt Example.broken second_attempt.2.

(** The toy dataset has a split for fold 0 only; [fit] may be called
    for another fold. *)
Definition unknown_fold : Z := 7.

(** A dataset whose only split is for fold 1; the explainer is built for
    fold 0. *)
Definition other_fold : Dataset.t Z :=
  Dataset.mk "other" [Example.graph_a] [0; 1] {[ 1 := Example.fold0 ]}.

(** A loader over two samples. *)
Definition two_samples : AdaptiveGCE.DataLoader Z :=
  AdaptiveGCE.mkLoader
    [AdaptiveGCE.sample_of 0 Example.graph_a;
     AdaptiveGCE.sample_of 0 Example.graph_b] 1 true 2.

(** The class collections and the loaders [transform_data] builds. *)
Definition partitions_of (ds : Dataset.t Z)
    : list (Z * list (AdaptiveGCE.Data Z)) :=
  match AdaptiveGCE.class_partitions 0 Example.explainer ds with
  | Ok data_dict_cls => data_dict_cls
  | Raise _ => []
  end.
Definition loaders_of (ds : Dataset.t Z) : list (AdaptiveGCE.DataLoader Z) :=
  match AdaptiveGCE.transform_data 0 Example.explainer ds with
  | Ok loaders => loaders
  | Raise _ => []
  end.

(** An evaluator over a dynamic graph without snapshot. *)
Definition no_snapshots : DynamicEvaluator.State string unit unit unit :=
  Example.evaluator [].

End Scenario.

(* ===================================================================== *)
(** * Properties *)
(* ===================================================================== *)

(** ** Sparse conversion *)

Section SparseFacts.
Context {W : Type} `{EqDecision W} (zero : W).
Import Sparse.



Lemma elem_of_nonzero_row r c (row : list W) i j :
  (i, j) ∈ nonzero_row zero r c row ↔
  i = r ∧ ∃ k v, j = (c + k)%nat ∧ row !! k = Some v ∧ v ≠ zero.
Proof.
  revert c; induction row as [|v row IH]; intros c; simpl.
  - split; [by intros ?%elem_of_nil|]. intros (_ & k & v & _ & Hk & _).
    by rewrite lookup_nil in Hk.
  - assert (Htail : (i, j) ∈ nonzero_row zero r (S c) row ↔
              i = r ∧ ∃ k v, j = (c + S k)%nat ∧ row !! k = Some v ∧ v ≠ zero).
    { rewrite IH. split; intros (-> & k & v' & -> & ? & ?);
        (split; [done|]); exists k, v'; split_and!; auto; lia. }
    destruct (decide (v = zero)) as [->|Hv].
    + rewrite Htail. split.
      * intros (-> & k & v' & -> & ? & ?). split; [done|].
        exists (S k), v'. done.
      * intros (-> & [|k] & v' & -> & Hk & ?); simpl in Hk.
        { congruence. }
        split; [done|]. by exists k, v'.
    + rewrite elem_of_cons, Htail. split.
      * intros [[= -> ->]|(-> & k & v' & -> & ? & ?)].
        { split; [done|]. exists 0%nat, v. split_and!; auto; lia. }
        split; [done|]. by exists (S k), v'.
      * intros (-> & [|k] & v' & -> & Hk & ?); simpl in Hk.
        { left. f_equal. lia. }
        right. split; [done|]. by exists k, v'.
Qed.

Lemma elem_of_nonzero_from r (adj : list (list W)) i j :
  (i, j) ∈ nonzero_from zero r adj ↔
  ∃ k v, i = (r + k)%nat ∧ get2 adj k j = Some v ∧ v ≠ zero.
Proof.
  revert r; induction adj as [|row adj IH]; intros r; simpl.
  - split; [by intros ?%elem_of_nil|]. by intros (k & v & _ & Hk & _).
  - rewrite elem_of_app, elem_of_nonzero_row, IH. split.
    + intros [(-> & k & v & -> & Hk & Hv)|(k & v & -> & Hk & Hv)].
      * exists 0%nat, v. rewrite Nat.add_0_l. split_and!; [lia|done|done].
      * exists (S k), v. split_and!; [lia|done|done].
    + intros ([|k] & v & -> & Hk & Hv).
      * left. split; [lia|]. exists j, v. by rewrite Nat.add_0_l.
      * right. exists k, v. split_and!; [lia|done|done].
Qed.

Lemma elem_of_nonzero (adj : list (list W)) i j :
  (i, j) ∈ nonzero zero adj ↔ ∃ v, get2 adj i j = Some v ∧ v ≠ zero.
Proof.
  unfold nonzero. rewrite elem_of_nonzero_from. split.
  - intros (k & v & -> & ? & ?). by exists v.
  - intros (v & ? & ?). by exists i, v.
Qed.








End SparseFacts.

(** ** The encoder: shapes and bounds *)

Section TensorFacts.

Lemma tanh_bounds (v : R) : (-1 <= tanh v <= 1)%R.
Proof.
  unfold tanh, sinh, cosh.
  pose proof (exp_pos v) as Hp. pose proof (exp_pos (- v)) as Hn.
  set (a := exp v) in *. set (b := exp (- v)) in *.
  assert (Hc : (0 < (a + b) / 2)%R) by lra.
  assert (Heq : ((a - b) / 2 / ((a + b) / 2) * ((a + b) / 2) = (a - b) / 2)%R)
    by (field; lra).
  split; apply Rmult_le_reg_r with (r := ((a + b) / 2)%R); try done;
    rewrite Heq; lra.
Qed.

Lemma has_shape_tensor_map f t n c :
  has_shape t n c → has_shape (tensor_map f t) n c.
Proof.
  destruct t as [v|rows]; simpl; [done|]. intros [Hn Hc]. split.
  - by rewrite length_map.
  - apply Forall_map. eapply Forall_impl; [exact Hc|].
    intros row Hrow; simpl. by rewrite length_map.
Qed.

Lemma has_shape_tensor_imap f t n c :
  has_shape t n c → has_shape (tensor_imap f t) n c.
Proof.
  destruct t as [v|rows]; simpl; [done|]. intros [Hn Hc]. split.
  - by rewrite length_imap.
  - apply Forall_lookup. intros i row'. rewrite list_lookup_imap.
    destruct (rows !! i) as [row|] eqn:Hrow; simpl; [|done].
    intros [= <-]. rewrite length_imap.
    by eapply (Forall_lookup_1 _ _ _ _ Hc).
Qed.

Lemma has_shape_leaky_relu s t n c :
  has_shape t n c → has_shape (leaky_relu s t) n c.
Proof. apply has_shape_tensor_map. Qed.

Lemma has_shape_dropout drop p training t n c :
  has_shape t n c → has_shape (dropout drop p training t) n c.
Proof.
  unfold dropout. destruct training; [|done]. apply has_shape_tensor_imap.
Qed.

Lemma has_shape_tanh t n c :
  has_shape t n c → has_shape (torch_tanh t) n c.
Proof. apply has_shape_tensor_map. Qed.

Lemma all_entries_tanh t :
  all_entries (fun v => -1 <= v <= 1)%R (torch_tanh t).
Proof.
  destruct t as [v|rows]; simpl.
  - apply Forall_map, Forall_true. intros; apply tanh_bounds.
  - apply Forall_map, Forall_true. intros row.
    apply Forall_map, Forall_true. intros; apply tanh_bounds.
Qed.
End TensorFacts.

Section EncoderFacts.
Context {W Params OptState Loss : Type} `{!TorchOps W Params OptState Loss}.
Import GCNEncoder.

Lemma configured_init i o : configured (init i o) i o.
Proof. by repeat split. Qed.

(** C9: for an input of [n] nodes with the configured input channel
    count [i], an encoder with [o] output channels produces [n x o]
    tensors in its first two stages and an [n x i] tensor in the third,
    whose entries lie in [-1, 1] because of the final tanh; [forward] is
    the composition of the three stages. *)
Theorem encoder_output_shape (self : GCNEncoder.t Params) (i o n seed : nat)
    (x x1 x2 x3 : Tensor) ei ew :
  conv_keeps_nodes →
  configured self i o →
  has_shape x n i →
  stage1 self seed x ei ew = Ok x1 →
  stage2 self seed x1 ei ew = Ok x2 →
  stage3 self x2 ei ew = Ok x3 →
  has_shape x1 n o ∧ has_shape x2 n o ∧ has_shape x3 n i ∧
  all_entries (fun v => -1 <= v <= 1)%R x3 ∧
  forward self seed x ei ew = Ok x3.
Proof.
  intros Hconv (Hi1 & Ho1 & Hi2 & Ho2 & Hi3 & Ho3) Hx H1 H2 H3.
  assert (Hx1 : has_shape x1 n o).
  { unfold stage1 in H1.
    destruct (conv (conv1 self) x ei ew) as [y|] eqn:Hy; [|done].
    injection H1 as <-. apply has_shape_dropout, has_shape_leaky_relu.
    rewrite <- Ho1. eapply Hconv; [|exact Hy]. by rewrite Hi1. }
  assert (Hx2 : has_shape x2 n o).
  { unfold stage2 in H2.
    destruct (conv (conv2 self) x1 ei ew) as [y|] eqn:Hy; [|done].
    injection H2 as <-. apply has_shape_dropout, has_shape_leaky_relu.
    rewrite <- Ho2. eapply Hconv; [|exact Hy]. by rewrite Hi2. }
  split_and!; try done.
  - unfold stage3 in H3.
    destruct (conv (conv3 self) x2 ei ew) as [y|] eqn:Hy; [|done].
    injection H3 as <-. apply has_shape_tanh.
    rewrite <- Ho3. eapply Hconv; [|exact Hy]. by rewrite Hi3.
  - unfold stage3 in H3.
    destruct (conv (conv3 self) x2 ei ew) as [y|]; [|done].
    injection H3 as <-. apply all_entries_tanh.
  - unfold forward. by rewrite H1, H2.
Qed.
End EncoderFacts.

(** ** The encoder: dropout *)

Section DropoutFacts.
Context {W Params OptState Loss : Type} `{EqDecision W}
        `{!TorchOps W Params OptState Loss}.
Import AdaptiveGCE.

Local Abbreviation State := (AdaptiveGCE.State W Params OptState).

Lemma index_alter {A} (f : A -> A) (xs : list A) (cls : nat) :
  index (alter f cls xs) (Z.of_nat cls) = map_res f (index xs (Z.of_nat cls)).
Proof.
  unfold index. rewrite length_alter.
  destruct (norm_index (length xs) (Z.of_nat cls)) as [k|] eqn:Hk; [|done].
  assert (k = cls) as ->.
  { unfold norm_index in Hk. repeat case_decide; simplify_eq; lia. }
  rewrite list_lookup_alter_eq. by destruct (xs !! cls).
Qed.

(** After [autoencoder.train()], the autoencoder the loop goes on with
    has dropout switched on. *)
Lemma train_mode_in_fit (cls : nat) (s : State) :
  match bind (update_autoencoder cls (GAE.train true))
             (fun _ => get_autoencoder cls) s with
  | (Ok autoencoder, _) =>
      GCNEncoder.dropout_active (GAE.encoder autoencoder) = true
  | (Raise _, _) => True
  end.
Proof.
  unfold bind, update_autoencoder, modify, get_autoencoder. simpl.
  rewrite index_alter. by destruct (index _ _).
Qed.

(** C8, amended: in [forward], dropout after the first two convolutions
    is applied exactly when the attribute [training] of the encoder is
    true.  That attribute is the training flag of the module itself: the
    constructor sets it to false, [set_training] assigns it, and
    [train(mode)] on the enclosing autoencoder sets it to [mode]; after
    the [autoencoder.train()] of the training loop dropout is on. *)
Theorem dropout_follows_module_training (self : GCNEncoder.t Params)
    (autoencoder : GAE.t Params) (seed i o cls : nat) (mode b : bool)
    (x : Tensor) ei (ew : Squeezed W) (s : State) :
  GCNEncoder.stage1 self seed x ei ew =
    map_res (fun x1 =>
               if GCNEncoder.training self
               then tensor_imap
                      (fun i j v => if dropout_mask seed i j then 0
                                    else v / (1 - 2 / 10))%R
                      (leaky_relu (2 / 10) x1)
               else leaky_relu (2 / 10) x1)
      (conv (GCNEncoder.conv1 self) x ei ew) ∧
  GCNEncoder.stage2 self seed x ei ew =
    map_res (fun x2 =>
               if GCNEncoder.training self
               then tensor_imap
                      (fun i j v => if dropout_mask (S seed) i j then 0
                                    else v / (1 - 2 / 10))%R
                      (leaky_relu (2 / 10) x2)
               else leaky_relu (2 / 10) x2)
      (conv (GCNEncoder.conv2 self) x ei ew) ∧
  GCNEncoder.dropout_active self = GCNEncoder.training self ∧
  GCNEncoder.training (GCNEncoder.init i o) = false ∧
  GCNEncoder.training (GCNEncoder.set_training b self) = b ∧
  GCNEncoder.training (GAE.encoder (GAE.train mode autoencoder)) = mode ∧
  match bind (update_autoencoder cls (GAE.train true))
             (fun _ => get_autoencoder cls) s with
  | (Ok autoencoder, _) =>
      GCNEncoder.dropout_active (GAE.encoder autoencoder) = true
  | (Raise _, _) => True
  end.
Proof.
  split_and!; try reflexivity.
  apply train_mode_in_fit.
Qed.
End DropoutFacts.

(** C8 as stated fails: on a freshly built autoencoder dropout is off, and
    putting the autoencoder into training mode, as the training loop does,
    switches it on. *)
Lemma module_train_activates_dropout :
  GCNEncoder.dropout_active
    (GAE.encoder (GAE.init (Params := nat) 1 64)) = false ∧
  GCNEncoder.dropout_active
    (GAE.encoder (GAE.train true (GAE.init (Params := nat) 1 64))) = true ∧
  ¬ (∀ autoencoder : GAE.t nat,
       GCNEncoder.dropout_active (GAE.encoder (GAE.train true autoencoder)) =
       GCNEncoder.dropout_active (GAE.encoder autoencoder)).
Proof.
  split_and!; [reflexivity|reflexivity|].
  intros Hclaim. specialize (Hclaim (GAE.init 1 64)). discriminate Hclaim.
Qed.

(** * Facts about the state-and-exception monad *)

Section MonadFacts.
Context {S : Type}.

Lemma bind_ok {A B} (m : M S A) (f : A -> M S B) s a s' :
  m s = (Ok a, s') → bind m f s = f a s'.
Proof. unfold bind. by intros ->. Qed.

Lemma bind_raise {A B} (m : M S A) (f : A -> M S B) s e s' :
  m s = (Raise e, s') → bind m f s = (Raise e, s').
Proof. unfold bind. by intros ->. Qed.

Lemma bind_inv {A B} (m : M S A) (f : A -> M S B) s r s' :
  bind m f s = (r, s') →
  (∃ a s1, m s = (Ok a, s1) ∧ f a s1 = (r, s')) ∨
  (∃ e, m s = (Raise e, s') ∧ r = Raise e).
Proof.
  unfold bind. destruct (m s) as [[a|e] s1]; intros Heq.
  - left. by exists a, s1.
  - right. exists e. by injection Heq as <- <-.
Qed.

Lemma for_each_app {A} (l1 l2 : list A) (body : A -> M S unit) s :
  for_each (l1 ++ l2) body s =
  match for_each l1 body s with
  | (Ok _, s') => for_each l2 body s'
  | (Raise e, s') => (Raise e, s')
  end.
Proof.
  revert s; induction l1 as [|x l1 IH]; intros s; simpl; [done|].
  unfold bind. destruct (body x s) as [[[]|e] s1]; [|done].
  apply IH.
Qed.

(** A loop whose rounds up to [x] return and whose round [x] raises,
    raises there: the rounds after [x] are not run. *)
Lemma for_each_raise_at {A} (l1 l2 : list A) x (body : A -> M S unit)
    s s1 e s2 :
  for_each l1 body s = (Ok tt, s1) →
  body x s1 = (Raise e, s2) →
  for_each (l1 ++ x :: l2) body s = (Raise e, s2).
Proof.
  intros H1 H2. rewrite for_each_app, H1. simpl.
  by rewrite (bind_raise _ _ _ _ _ H2).
Qed.
End MonadFacts.

(** * Footprints of the operations of the explainer *)

Section Footprints.
Context {W Params OptState Loss : Type} `{EqDecision W}
        `{!TorchOps W Params OptState Loss}.
Context (zero : W).
Import AdaptiveGCE.

Local Abbreviation State := (AdaptiveGCE.State W Params OptState).
Local Abbreviation Event := (AdaptiveGCE.Event W).
Local Abbreviation Footprint := (@AdaptiveGCE.Footprint W).

Implicit Types (F G : Footprint) (s : State).

Lemma within_refl F s : within F s s.
Proof.
  unfold within. split_and!; try done.
  exists []. by rewrite app_nil_r.
Qed.

Lemma within_trans F s1 s2 s3 :
  within F s1 s2 → within F s2 s3 → within F s1 s3.
Proof.
  intros (A1 & A2 & A3 & A4 & A5 & A6 & A7 & A8 & evs1 & A9 & A10)
         (B1 & B2 & B3 & B4 & B5 & B6 & B7 & B8 & evs2 & B9 & B10).
  unfold within. split_and!; try congruence.
  - intros Hf. destruct (A6 Hf) as [? ?], (B6 Hf) as [? ?]. split; congruence.
  - intros p Hp. rewrite B7, A7; done.
  - intros p Hp. auto.
  - exists (evs1 ++ evs2). split.
    + rewrite B9, A9. by rewrite app_assoc.
    + by apply Forall_app.
Qed.

Lemma within_weaken F G s s' : below F G → within F s s' → within G s s'.
Proof.
  intros (He & Hw & Ha) (A1 & A2 & A3 & A4 & A5 & A6 & A7 & A8 & evs & A9 & A10).
  unfold within. split_and!; try done.
  - intros Hg. apply A6. destruct (may_assign F); [|done].
    rewrite Ha in Hg; done.
  - intros p Hp. apply A7. naive_solver.
  - exists evs. split; [done|]. eapply Forall_impl; [exact A10|done].
Qed.

Lemma sw_weaken {A} F G (m : M State A) :
  below F G → stays_within F m → stays_within G m.
Proof. intros HFG Hm s r s' Hrun. eapply within_weaken; eauto. Qed.

Lemma sw_ret {A} F (a : A) : stays_within F (ret a : M State A).
Proof. intros s r s' [= <- <-]. apply within_refl. Qed.

Lemma sw_lift {A} F (r : res A) : stays_within F (lift r : M State A).
Proof. intros s r' s' [= <- <-]. apply within_refl. Qed.

Lemma sw_get F : stays_within F (get : M State State).
Proof. intros s r s' [= <- <-]. apply within_refl. Qed.

Lemma sw_bind {A B} F (m : M State A) (f : A -> M State B) :
  stays_within F m → (∀ a, stays_within F (f a)) → stays_within F (bind m f).
Proof.
  intros Hm Hf s r s' Hrun.
  apply bind_inv in Hrun as [(a & s1 & H1 & H2)|(e & H1 & _)].
  - eapply within_trans; [eapply Hm|eapply Hf]; eauto.
  - eapply Hm; eauto.
Qed.

Lemma sw_for_each {A} F (xs : list A) (body : A -> M State unit) :
  (∀ x, stays_within F (body x)) → stays_within F (for_each xs body).
Proof.
  intros Hb. induction xs as [|x xs IH]; simpl.
  - apply sw_ret.
  - apply sw_bind; [apply Hb|done].
Qed.

Lemma sw_modify F (f : State -> State) :
  (∀ s, within F s (f s)) → stays_within F (modify f).
Proof. intros Hf s r s' [= <- <-]. apply Hf. Qed.

Lemma sw_emit F e : may_emit F e → stays_within F (emit e : M State unit).
Proof.
  intros He. apply sw_modify. intros s. unfold within; simpl.
  split_and!; try done. exists [e]. split; [done|]. by apply Forall_singleton.
Qed.

Lemma sw_fresh_seed F : stays_within F (fresh_seed : M State nat).
Proof.
  intros s r s' [= <- <-]. unfold within; simpl. split_and!; try done.
  exists []. by rewrite app_nil_r.
Qed.

Lemma sw_get_autoencoder F cls : stays_within F (get_autoencoder cls : M State _).
Proof. intros s r s' [= <- <-]. apply within_refl. Qed.

Lemma sw_get_optimiser F cls : stays_within F (get_optimiser cls : M State _).
Proof. intros s r s' [= <- <-]. apply within_refl. Qed.

Lemma sw_update_autoencoder F cls f : stays_within F (update_autoencoder cls f : M State unit).
Proof.
  apply sw_modify. intros s. unfold within; simpl. split_and!; try done.
  exists []. by rewrite app_nil_r.
Qed.

Lemma sw_put_optimiser F cls o : stays_within F (put_optimiser cls o : M State unit).
Proof.
  apply sw_modify. intros s. unfold within; simpl. split_and!; try done.
  exists []. by rewrite app_nil_r.
Qed.

Lemma sw_assign F
    (f : AdaptiveGCE.t Params OptState -> AdaptiveGCE.t Params OptState) :
  may_assign F = true →
  (∀ e, class_name (f e) = class_name e ∧
        explainer_store_path (f e) = explainer_store_path e ∧
        num_classes (f e) = num_classes e ∧
        epochs_ae (f e) = epochs_ae e ∧
        fold_id (f e) = fold_id e) →
  stays_within F (modify (set_self f) : M State unit).
Proof.
  intros Ha Hf. apply sw_modify. intros s.
  destruct (Hf (self s)) as (? & ? & ? & ? & ?).
  unfold within; simpl. split_and!; try done.
  - rewrite Ha. done.
  - exists []. by rewrite app_nil_r.
Qed.

Lemma sw_set_fs_insert F path node (s0 : State) :
  may_write F path →
  within F s0 (set_fs (<[path := node]> (fs s0)) s0).
Proof.
  intros Hw. unfold within; simpl. split_and!; try done.
  - intros p Hp. rewrite lookup_insert_ne; [done|]. by intros ->.
  - intros p Hp. destruct (decide (path = p)) as [->|].
    + rewrite lookup_insert_eq. done.
    + by rewrite lookup_insert_ne.
  - exists []. by rewrite app_nil_r.
Qed.
End Footprints.

Section TrainingFootprints.
Context {W Params OptState Loss : Type} `{EqDecision W}
        `{!TorchOps W Params OptState Loss}.
Context (zero : W).
Import AdaptiveGCE.

Local Abbreviation State := (AdaptiveGCE.State W Params OptState).
Local Abbreviation Data := (AdaptiveGCE.Data W).
Local Abbreviation DataLoader := (AdaptiveGCE.DataLoader W).

Ltac sw :=
  repeat first
    [ apply sw_ret | apply sw_lift | apply sw_get | apply sw_fresh_seed
    | apply sw_get_autoencoder | apply sw_get_optimiser
    | apply sw_update_autoencoder | apply sw_put_optimiser
    | (apply sw_bind; [|intros ?])
    | (apply sw_for_each; intros ?) ].

Lemma sw_train_item cls (item : Data) :
  stays_within (fp_train_class cls) (train_item cls item : M State R).
Proof.
  unfold train_item. cbv zeta. sw.
  apply sw_emit. simpl. done.
Qed.

Lemma sw_train_items cls (items : list Data) :
  stays_within (fp_train_class cls) (train_items cls items : M State _).
Proof.
  induction items as [|item items IH]; cbn [train_items].
  - apply sw_ret.
  - apply sw_bind; [by apply sw_train_item|intros l].
    apply sw_bind; [exact IH|intros ls]. apply sw_ret.
Qed.

Lemma sw_train_class cls (dl : DataLoader) :
  stays_within (fp_train_class cls) (train_class cls dl : M State unit).
Proof.
  unfold train_class.
  apply sw_bind; [apply sw_get_optimiser|intros optimiser].
  apply sw_bind; [apply sw_get_autoencoder|intros autoencoder].
  apply sw_bind; [apply sw_update_autoencoder|intros _].
  apply sw_bind; [apply sw_get|intros s].
  apply sw_for_each. intros epoch. unfold train_epoch.
  apply sw_bind; [apply sw_fresh_seed|intros seed].
  apply sw_bind; [by apply sw_train_items|intros losses].
  apply sw_emit. simpl. done.
Qed.

Lemma below_train_class P ckpt cls :
  P cls → below (W := W) (fp_train_class cls) (fp_training P ckpt).
Proof.
  intros HP. split_and!; simpl; try done.
  intros [| | |c x ei ea|c ep l|c p]; simpl; try done.
  - by intros [-> ->].
  - by intros ->.
Qed.

Lemma sw_train_class_in P ckpt cls (dl : DataLoader) :
  P cls → stays_within (fp_training P ckpt) (train_class cls dl : M State unit).
Proof.
  intros HP. eapply sw_weaken; [by apply below_train_class|].
  apply sw_train_class.
Qed.

Lemma ckpt_of_within F (s s' : State) :
  may_assign F = false → within F s s' → ckpt_of s' = ckpt_of s.
Proof.
  intros Hf (_ & Hst & _ & _ & _ & Hna & _). destruct (Hna Hf) as [Hn _].
  unfold ckpt_of. by rewrite Hst, Hn.
Qed.

Lemma write_file_inv {C} (fs fs' : gmap string (Os.node C)) path c :
  Os.write_file fs path c = Ok fs' → fs' = <[path := Os.File c]> fs.
Proof.
  unfold Os.write_file.
  destruct (fs !! path) as [[|c']|]; destruct (Os.parent_ok fs path); congruence.
Qed.

Lemma within_save_autoencoder P model cls (s : State) r s' :
  P cls →
  save_autoencoder model cls s = (r, s') →
  within (fp_training P (ckpt_of s)) s s'.
Proof.
  intros HP. unfold save_autoencoder.
  intros Hrun. apply bind_inv in Hrun as [(s0 & s1 & [= <- <-] & Hrun)|(e & [=] & _)].
  cbv zeta in Hrun. fold (ckpt_of s cls) in Hrun.
  apply bind_inv in Hrun as [(fs' & s1 & Hw & Hrun)|(e & [= _ <-] & _)];
    [|apply within_refl].
  injection Hw as Hw <-. apply write_file_inv in Hw. subst fs'.
  apply bind_inv in Hrun as [([] & s1 & [= <-] & Hrun)|(e & [=] & _)].
  eapply within_trans.
  { apply sw_set_fs_insert. simpl. by exists cls. }
  assert (Hemit : stays_within (fp_training P (ckpt_of s))
            (emit (EvSave cls (ckpt_of s cls)) : M State unit)).
  { apply sw_emit. simpl. done. }
  eapply Hemit. exact Hrun.
Qed.

Lemma within_fit_class P cls (dl : DataLoader) (s : State) r s' :
  P cls →
  fit_class (cls, dl) s = (r, s') →
  within (fp_training P (ckpt_of s)) s s'.
Proof.
  intros HP. unfold fit_class; simpl. intros Hrun.
  apply bind_inv in Hrun as [([] & s1 & Ht & Hrun)|(e & Ht & _)].
  2:{ eapply sw_train_class_in; eauto. }
  assert (H1 : within (fp_training P (ckpt_of s)) s s1)
    by (eapply sw_train_class_in; eauto).
  eapply within_trans; [exact H1|].
  apply bind_inv in Hrun as [(ae & s2 & Hg & Hrun)|(e & Hg & _)].
  2:{ eapply sw_get_autoencoder; eauto. }
  injection Hg as _ <-.
  rewrite <- (ckpt_of_within (fp_training _ _) _ _ eq_refl H1).
  eapply within_save_autoencoder; eauto.
Qed.

(** The loop of [__fit] over the classes [k, k + 1, ...]. *)
Lemma within_fit_loop (loaders : list DataLoader) k (s : State) r s' :
  for_each (imap (fun i dl => ((k + i)%nat, dl)) loaders) fit_class s = (r, s') →
  within (fp_training (fun c => (k <= c < k + length loaders)%nat) (ckpt_of s)) s s'.
Proof.
  revert k s; induction loaders as [|dl loaders IH]; intros k s; simpl.
  - intros [= <- <-]. apply within_refl.
  - intros Hrun.
    apply bind_inv in Hrun as [([] & s1 & Hc & Hrun)|(e & Hc & _)].
    2:{ rewrite Nat.add_0_r in Hc. eapply within_fit_class; [|exact Hc]. simpl. lia. }
    rewrite Nat.add_0_r in Hc.
    assert (H1 : within (fp_training (fun c => (k <= c < k + S (length loaders))%nat)
                           (ckpt_of s)) s s1).
    { eapply within_fit_class; [|exact Hc]. simpl. lia. }
    eapply within_trans; [exact H1|].
    rewrite (imap_ext _ (fun i dl => ((S k + i)%nat, dl))) in Hrun
      by (intros; simpl; f_equal; lia).
    apply IH in Hrun. rewrite (ckpt_of_within (fp_training _ _) _ _ eq_refl H1) in Hrun.
    eapply within_weaken; [|exact Hrun].
    split_and!; simpl; try done.
    + intros [| | |c x ei ea|c ep l|c p]; simpl; try done.
      * intros [? ?]. split; [lia|done].
      * lia.
      * intros [? ?]. split; [lia|done].
    + intros p (c & ? & ?). exists c. split; [lia|done].
Qed.

Lemma within___fit {Oracle} (oracle : Oracle) dataset (s : State) r s' :
  __fit zero oracle dataset s = (r, s') →
  within (fp_training (fun _ => True) (ckpt_of s)) s s'.
Proof.
  unfold __fit. intros Hrun.
  assert (Hemit : stays_within (fp_training (fun _ => True) (ckpt_of s))
            (emit EvTrain : M State unit)) by (by apply sw_emit).
  apply bind_inv in Hrun as [([] & s1 & He & Hrun)|(e & He & _)];
    [|eapply Hemit; eauto].
  assert (H1 := Hemit _ _ _ He).
  eapply within_trans; [exact H1|].
  apply bind_inv in Hrun as [(s0 & s2 & [= <- <-] & Hrun)|(e & [=] & _)].
  apply bind_inv in Hrun as [(loaders & s2 & [= _ <-] & Hrun)|(e & [= _ <-] & _)];
    [|apply within_refl].
  unfold enumerate in Hrun. apply (within_fit_loop loaders 0) in Hrun.
  rewrite (ckpt_of_within (fp_training _ _) _ _ eq_refl H1) in Hrun.
  eapply within_weaken; [|exact Hrun].
  split_and!; simpl; try done.
  + intros [| | |c x ei ea|c ep l|c p]; simpl; try done; naive_solver.
  + intros p (c & ? & ?). by exists c.
Qed.

Lemma sw_load_explainers :
  stays_within fp_load (load_explainers : M State unit).
Proof.
  unfold load_explainers.
  apply sw_bind; [by apply sw_emit|intros _].
  apply sw_bind; [apply sw_get|intros s].
  apply sw_for_each. intros cls. unfold load_autoencoder.
  apply sw_bind; [apply sw_get|intros s1]. cbv zeta.
  apply sw_bind; [apply sw_lift|intros weights].
  apply sw_update_autoencoder.
Qed.
End TrainingFootprints.

(** ** [fit] *)

Section FitFacts.
Context {W Params OptState Loss : Type} `{EqDecision W}
        `{!TorchOps W Params OptState Loss}.
Context (zero : W).
Import AdaptiveGCE.

Local Abbreviation State := (AdaptiveGCE.State W Params OptState).

(** [fit], one branch at a time. *)
Lemma fit_unfold {Oracle} (oracle : Oracle) ds fold (s : State) :
  fit zero oracle ds fold s =
  if Os.path_exists (fs s) (explainer_uri (self s) ds fold)
  then bind load_explainers (fun _ => modify (set_self (with_fitted true)))
         (fit_entered s ds fold)
  else match Os.mkdir (fs s) (explainer_uri (self s) ds fold) with
       | Ok fs' =>
           bind (__fit zero oracle ds)
             (fun _ => modify (set_self (with_fitted true)))
             (set_fs fs' (fit_entered s ds fold))
       | Raise e => (Raise e, fit_entered s ds fold)
       end.
Proof.
  unfold fit, fit_entered, explainer_uri, explainer_name.
  unfold bind at 1 2 3 4. unfold emit, modify, get. cbn [fs self set_self].
  destruct (Os.path_exists _ _); [done|].
  unfold bind at 1 2. unfold lift. cbn [fs].
  destruct (Os.mkdir _ _); done.
Qed.

Lemma within_fs_eq F (s s' : State) :
  (∀ p, ¬ may_write F p) → within F s s' → fs s' = fs s.
Proof.
  intros Hw (_ & _ & _ & _ & _ & _ & Hfs & _). apply map_eq. intros p.
  apply Hfs, Hw.
Qed.

Lemma within_silent_trace F (s s' : State) :
  (∀ e, ¬ may_emit F e) → within F s s' → trace s' = trace s.
Proof.
  intros He (_ & _ & _ & _ & _ & _ & _ & _ & evs & -> & Hevs).
  destruct evs as [|e evs]; [by rewrite app_nil_r|].
  apply Forall_cons in Hevs as [He' _]. by destruct (He e).
Qed.

Lemma sw_load_autoencoders (classes : list nat) :
  stays_within fp_silent
    (for_each classes load_autoencoder : M State unit).
Proof.
  apply sw_for_each. intros cls. unfold load_autoencoder.
  apply sw_bind; [apply sw_get|intros s1]. cbv zeta.
  apply sw_bind; [apply sw_lift|intros weights].
  apply sw_update_autoencoder.
Qed.

(** [load_explainers] enters, reads, and leaves everything but the
    weights as it was. *)
Lemma load_explainers_inv (s : State) r s' :
  load_explainers s = (r, s') →
  trace s' = trace s ++ [EvLoad] ∧ fs s' = fs s ∧
  _fitted (self s') = _fitted (self s) ∧
  class_name (self s') = class_name (self s) ∧
  explainer_store_path (self s') = explainer_store_path (self s).
Proof.
  unfold load_explainers. intros Hrun.
  apply bind_inv in Hrun as [([] & s1 & [= <-] & Hrun)|(e & [=] & _)].
  apply bind_inv in Hrun as [(s0 & s1 & [= <- <-] & Hrun)|(e & [=] & _)].
  apply sw_load_autoencoders in Hrun.
  pose proof (within_fs_eq fp_silent _ _ (fun p (H : False) => H) Hrun) as Hfs.
  pose proof (within_silent_trace fp_silent _ _ (fun p (H : False) => H) Hrun) as Htr.
  destruct Hrun as (Hc & Hp & _ & _ & _ & Hna & _).
  destruct (Hna eq_refl) as [_ Hfit].
  simpl in *. by rewrite Htr, Hfs, Hfit, Hc, Hp.
Qed.

Lemma mkdir_inv {C} (fs fs' : gmap string (Os.node C)) path :
  Os.mkdir fs path = Ok fs' →
  fs' = <[path := Os.Dir]> fs ∧ Os.path_exists fs path = false.
Proof.
  unfold Os.mkdir. destruct (Os.path_exists fs path); [done|].
  destruct (Os.parent_ok fs path); [|done]. by intros [= <-].
Qed.

Lemma path_exists_mono {C} (fs fs' : gmap string (Os.node C)) path :
  (∀ p, is_Some (fs !! p) → is_Some (fs' !! p)) →
  Os.path_exists fs path = true → Os.path_exists fs' path = true.
Proof.
  unfold Os.path_exists. intros Hm H1%bool_decide_eq_true.
  apply bool_decide_eq_true. auto.
Qed.

(** What [fit] may touch once it is entered. *)
Lemma within_fit {Oracle} (oracle : Oracle) ds fold (s : State) r s' :
  fit zero oracle ds fold s = (r, s') →
  within (fp_fit (explainer_uri (self s) ds fold)
                 (ckpt_of (fit_entered s ds fold)))
         (fit_entered s ds fold) s'.
Proof.
  rewrite fit_unfold.
  set (F := fp_fit _ _). set (s0 := fit_entered s ds fold).
  assert (Hfitted : stays_within F
            (modify (set_self (with_fitted true)) : M State unit)).
  { apply sw_assign; [done|]. by intros e. }
  destruct (Os.path_exists _ _).
  - intros Hrun. eapply (sw_bind F); [| |exact Hrun].
    + eapply sw_weaken; [|apply sw_load_explainers].
      split_and!; simpl; try done. intros e ->. by left.
    + intros ?. apply Hfitted.
  - destruct (Os.mkdir _ _) as [fs'|e] eqn:Hmk.
    + apply mkdir_inv in Hmk as [-> _]. intros Hrun.
      eapply within_trans.
      { apply (sw_set_fs_insert F (explainer_uri (self s) ds fold) Os.Dir s0).
        simpl. by left. }
      apply bind_inv in Hrun as [([] & s1 & Hf & Hrun)|(e & Hf & _)].
      * eapply within_trans; [|eapply Hfitted; exact Hrun].
        eapply within_weaken; [|eapply within___fit; exact Hf].
        split_and!; simpl; try done.
        -- intros e He. by right.
        -- intros p (c & _ & ->). right. by exists c.
      * eapply within_weaken; [|eapply within___fit; exact Hf].
        split_and!; simpl; try done.
        -- intros e' He. by right.
        -- intros p (c & _ & ->). right. by exists c.
    + intros [= <- <-]. apply within_refl.
Qed.

Lemma explainer_uri_within F (s s' : State) (ds : Dataset.t W) fold :
  within F s s' →
  explainer_uri (self s') ds fold = explainer_uri (self s) ds fold.
Proof.
  intros (Hc & Hp & _). unfold explainer_uri, explainer_name.
  by rewrite Hc, Hp.
Qed.

(** [fit] on a state whose checkpoint directory exists: it loads. *)
Lemma fit_on_existing {Oracle} (oracle : Oracle) ds fold (s : State) r s' :
  Os.path_exists (fs s) (explainer_uri (self s) ds fold) = true →
  fit zero oracle ds fold s = (r, s') →
  trace s' = trace s ++ [EvFit fold; EvLoad] ∧ fs s' = fs s ∧
  (r = Ok tt → _fitted (self s') = true).
Proof.
  intros Hex. rewrite fit_unfold, Hex. intros Hrun.
  apply bind_inv in Hrun as [([] & s1 & Hl & Hrun)|(e & Hl & ->)].
  - apply load_explainers_inv in Hl as (Htr & Hfs & _).
    injection Hrun as <- <-. simpl in *.
    rewrite Htr, Hfs. by rewrite <- app_assoc.
  - apply load_explainers_inv in Hl as (Htr & Hfs & _). simpl in *.
    rewrite Htr, Hfs. by rewrite <- app_assoc.
Qed.

(** A call of [fit] that returns has set the flag and leaves the
    checkpoint directory behind. *)
Lemma fit_ok {Oracle} (oracle : Oracle) ds fold (s : State) s' :
  fit zero oracle ds fold s = (Ok tt, s') →
  _fitted (self s') = true.
Proof.
  rewrite fit_unfold. destruct (Os.path_exists _ _).
  - intros Hrun.
    apply bind_inv in Hrun as [([] & s1 & _ & Hrun)|(e & _ & [=])].
    by injection Hrun as <-.
  - destruct (Os.mkdir _ _); [|done]. intros Hrun.
    apply bind_inv in Hrun as [([] & s1 & _ & Hrun)|(e & _ & [=])].
    by injection Hrun as <-.
Qed.

(** After [fit], however it ended: either the checkpoint directory
    exists, or [fit] failed to create it and left the file system as it
    was. *)
Lemma fit_leaves_directory {Oracle} (oracle : Oracle) ds fold (s : State) r s' :
  fit zero oracle ds fold s = (r, s') →
  Os.path_exists (fs s') (explainer_uri (self s) ds fold) = true ∨
  (∃ e, r = Raise e ∧ s' = fit_entered s ds fold ∧
        Os.path_exists (fs s) (explainer_uri (self s) ds fold) = false ∧
        Os.mkdir (fs s) (explainer_uri (self s) ds fold) = Raise e).
Proof.
  intros Hrun. pose proof (within_fit _ _ _ _ _ _ Hrun) as Hw.
  destruct Hw as (_ & _ & _ & _ & _ & _ & _ & Hmono & _).
  rewrite fit_unfold in Hrun.
  destruct (Os.path_exists (fs s) _) eqn:Hex.
  - left. eapply path_exists_mono; [|exact Hex]. exact Hmono.
  - destruct (Os.mkdir _ _) as [fs'|e] eqn:Hmk.
    + left. apply mkdir_inv in Hmk as [-> _].
      apply bind_inv in Hrun as [([] & s1 & Hf & Hrun)|(e & Hf & _)].
      * apply within___fit in Hf. injection Hrun as _ <-.
        destruct Hf as (_ & _ & _ & _ & _ & _ & _ & Hm & _).
        apply bool_decide_eq_true. simpl. apply Hm. simpl.
        by rewrite lookup_insert_eq.
      * apply within___fit in Hf.
        destruct Hf as (_ & _ & _ & _ & _ & _ & _ & Hm & _).
        apply bool_decide_eq_true. apply Hm. simpl.
        by rewrite lookup_insert_eq.
    + right. exists e. by injection Hrun as <- <-.
Qed.

(** A second call of [fit] with the same oracle, dataset and fold id
    trains nothing: it emits its entry event and at most a load, and
    writes nothing; when the first call returned, it has left the
    checkpoint directory and has set [_fitted], and the second call,
    finding the directory, enters the load. *)
Lemma fit_again_loads {Oracle} (oracle : Oracle) ds fold
    (s s1 s2 : State) r1 r2 :
  fit zero oracle ds fold s = (r1, s1) →
  fit zero oracle ds fold s1 = (r2, s2) →
  (∃ evs, trace s2 = trace s1 ++ EvFit fold :: evs ∧
          Forall (fun e => e = EvLoad) evs) ∧
  fs s2 = fs s1 ∧
  (r1 = Ok tt →
     Os.path_exists (fs s1) (explainer_uri (self s) ds fold) = true ∧
     _fitted (self s1) = true ∧
     trace s2 = trace s1 ++ [EvFit fold; EvLoad]) ∧
  (r2 = Ok tt → _fitted (self s2) = true).
Proof.
  intros H1 H2.
  assert (Huri : explainer_uri (self s1) ds fold = explainer_uri (self s) ds fold).
  { rewrite (explainer_uri_within _ _ _ _ _ (within_fit _ _ _ _ _ _ H1)).
    done. }
  destruct (fit_leaves_directory _ _ _ _ _ _ H1)
    as [Hex|(e & -> & -> & Hno & Hmk)].
  - rewrite <- Huri in Hex.
    destruct (fit_on_existing _ _ _ _ _ _ Hex H2) as (Htr & Hfs & Hfit).
    split_and!; try done.
    + exists [EvLoad]. split; [done|]. by apply Forall_singleton.
    + intros ->. rewrite <- Huri. split_and!; try done.
      by eapply fit_ok.
  - rewrite fit_unfold in H2. rewrite Huri in H2. simpl in H2.
    rewrite Hno, Hmk in H2. injection H2 as <- <-. simpl.
    split_and!; try done. exists []. done.
Qed.
End FitFacts.

(** ** [explain] *)

Section ExplainFacts.
Context {W Params OptState Loss : Type} `{EqDecision W}
        `{!TorchOps W Params OptState Loss}.
Context (zero : W).
Context {Instance Oracle : Type}.
Import AdaptiveGCE Caller.

Local Abbreviation State := (AdaptiveGCE.State W Params OptState).
Local Abbreviation Event := (AdaptiveGCE.Event W).

Lemma fit_calls_app (tr1 tr2 : list Event) :
  fit_calls (tr1 ++ tr2) = (fit_calls tr1 + fit_calls tr2)%nat.
Proof. unfold fit_calls. by rewrite List.filter_app, length_app. Qed.

Lemma fit_calls_none (evs : list Event) :
  Forall (fun e => ∀ fold, e ≠ EvFit fold) evs → fit_calls evs = 0%nat.
Proof.
  unfold fit_calls. induction 1 as [|e evs He _ IH]; simpl; [done|].
  destruct e; try done. by destruct (He fold).
Qed.

(** A call of [fit] is one entry into [fit]. *)
Lemma fit_calls_fit (oracle : Oracle) ds fold (s : State) r s' :
  fit zero oracle ds fold s = (r, s') →
  fit_calls (trace s') = S (fit_calls (trace s)).
Proof.
  intros Hrun. apply within_fit in Hrun.
  destruct Hrun as (_ & _ & _ & _ & _ & _ & _ & _ & evs & -> & Hevs).
  simpl. rewrite !fit_calls_app. rewrite (fit_calls_none evs).
  - simpl. unfold fit_calls at 2. simpl. lia.
  - eapply Forall_impl; [exact Hevs|]. simpl.
    intros e He fold' ->. by destruct He.
Qed.

Lemma explain_unfold (instance : Instance) (oracle : Oracle) ds (s : State) :
  explain zero instance oracle ds s =
  if _fitted (self s) then (Ok instance, s)
  else (map_res (fun _ => instance) (fit zero oracle ds (fold_id (self s)) s).1,
        (fit zero oracle ds (fold_id (self s)) s).2).
Proof.
  unfold explain. unfold bind at 1. unfold get.
  destruct (_fitted (self s)); simpl.
  - done.
  - unfold bind at 1.
    destruct (fit zero oracle ds (fold_id (self s)) s) as [[[]|e] s']; done.
Qed.

Lemma explain_all_fitted (instances : list Instance) (oracle : Oracle) ds
    (s : State) :
  _fitted (self s) = true →
  explain_all zero instances oracle ds s = (Ok instances, s).
Proof.
  intros Hf. induction instances as [|i rest IH]; simpl; [done|].
  unfold bind at 1. rewrite explain_unfold, Hf.
  unfold bind at 1. by rewrite IH.
Qed.

Lemma explain_all_inv (instances : list Instance) (oracle : Oracle) ds
    (s : State) :
  (fit_calls (trace (explain_all zero instances oracle ds s).2)
     <= fit_calls (trace s) + 1)%nat ∧
  ∀ l, (explain_all zero instances oracle ds s).1 = Ok l → l = instances.
Proof.
  destruct (_fitted (self s)) eqn:Hf.
  { rewrite explain_all_fitted by done. simpl. split; [lia|]. by intros l [= <-]. }
  destruct instances as [|i rest]; simpl.
  { split; [lia|]. by intros l [= <-]. }
  unfold bind at 1 3. rewrite explain_unfold, Hf.
  destruct (fit zero oracle ds (fold_id (self s)) s) as [[[]|e] s1] eqn:Hfit;
    simpl.
  - pose proof (fit_calls_fit _ _ _ _ _ _ Hfit) as Hcalls.
    apply fit_ok in Hfit.
    unfold bind. rewrite (explain_all_fitted rest oracle ds s1 Hfit). simpl.
    split; [lia|]. by intros l [= <-].
  - pose proof (fit_calls_fit _ _ _ _ _ _ Hfit) as Hcalls.
    split; [lia|done].
Qed.

(** A call of [fit] that raises leaves the flag as it was. *)
Lemma fit_raise_keeps_flag (oracle : Oracle) ds fold (s : State) e s' :
  fit zero oracle ds fold s = (Raise e, s') →
  _fitted (self s') = _fitted (self s).
Proof.
  rewrite fit_unfold. destruct (Os.path_exists _ _).
  - intros Hrun.
    apply bind_inv in Hrun as [([] & s1 & _ & [=])|(e' & Hl & _)].
    by apply load_explainers_inv in Hl as (_ & _ & -> & _).
  - destruct (Os.mkdir _ _) as [fs'|e'] eqn:Hmk.
    + intros Hrun.
      apply bind_inv in Hrun as [([] & s1 & _ & [=])|(e' & Hf & _)].
      apply within___fit in Hf.
      destruct Hf as (_ & _ & _ & _ & _ & Hna & _).
      by destruct (Hna eq_refl) as [_ ->].
    + by intros [= _ <-].
Qed.

Lemma explain_each_fitted (instances : list Instance) (oracle : Oracle) ds
    (s : State) :
  _fitted (self s) = true →
  explain_each zero instances oracle ds s = (map Ok instances, s).
Proof.
  intros Hf. induction instances as [|i rest IH]; cbn [explain_each map];
    [done|].
  rewrite explain_unfold, Hf. cbn [fst snd]. by rewrite IH.
Qed.

(** A caller that goes on after a call that raises: the calls made
    while the explainer is not fitted enter [fit], the others do not. *)
Lemma explain_each_inv (instances : list Instance) (oracle : Oracle) ds
    (s : State) :
  length (explain_each zero instances oracle ds s).1 = length instances ∧
  Forall2 (fun instance r => r = Ok instance ∨ ∃ e, r = Raise e)
    instances (explain_each zero instances oracle ds s).1 ∧
  fit_calls (trace (explain_each zero instances oracle ds s).2) =
    (fit_calls (trace s) +
     (if _fitted (self s) then 0
      else calls_until_return (explain_each zero instances oracle ds s).1))%nat ∧
  _fitted (self (explain_each zero instances oracle ds s).2) =
    _fitted (self s) || existsb is_ok (explain_each zero instances oracle ds s).1.
Proof.
  revert s; induction instances as [|i rest IH]; intros s.
  { cbn. split_and!; [done|done| |by rewrite orb_false_r].
    destruct (_fitted (self s)); lia. }
  destruct (_fitted (self s)) eqn:Hf.
  { rewrite explain_each_fitted by done. cbn [fst snd].
    rewrite length_map, Hf. split_and!; [done| |lia|done].
    apply Forall2_fmap_r, Forall_Forall2_diag, Forall_true. by left. }
  cbn [explain_each fst snd]. rewrite explain_unfold, Hf. cbn [fst snd].
  destruct (fit zero oracle ds (fold_id (self s)) s) as [[[]|e] s1] eqn:Hfit;
    cbn [fst snd map_res].
  - pose proof (fit_calls_fit _ _ _ _ _ _ Hfit) as Hcalls.
    apply fit_ok in Hfit.
    rewrite explain_each_fitted by done. cbn [fst snd length].
    rewrite length_map, Hfit, Hcalls.
    split_and!; [done| |cbn; lia|done].
    constructor; [by left|].
    apply Forall2_fmap_r, Forall_Forall2_diag, Forall_true. by left.
  - pose proof (fit_calls_fit _ _ _ _ _ _ Hfit) as Hcalls.
    apply fit_raise_keeps_flag in Hfit. rewrite Hf in Hfit.
    destruct (IH s1) as (Hlen & Hres & Hc & Hflag).
    rewrite Hfit in Hc, Hflag. cbn [length calls_until_return existsb is_ok].
    rewrite Hlen, Hc, Hcalls, Hflag.
    split_and!; [done| |lia|done].
    constructor; [right; by exists e|done].
Qed.

(** C2, amended: [explain] returns the input instance unchanged when it
    returns; it calls [fit], with the stored [fold_id], exactly when the
    explainer is not yet fitted.  A call that returns leaves the
    explainer fitted and a call that raises leaves it as it was.  So a
    sequence of calls that ends at the first exception enters [fit] at
    most once, and for a caller that goes on after an exception the calls
    that enter [fit] are those up to and including the first one that
    returns: no call enters [fit] after a call has returned, and every
    call before that enters it again. *)
Theorem explain_fits_lazily (instance : Instance) (oracle : Oracle) ds
    (s : State) :
  explain zero instance oracle ds s =
    (if _fitted (self s) then (Ok instance, s)
     else (map_res (fun _ => instance)
             (fit zero oracle ds (fold_id (self s)) s).1,
           (fit zero oracle ds (fold_id (self s)) s).2)) ∧
  (∀ i, (explain zero instance oracle ds s).1 = Ok i → i = instance) ∧
  fit_calls (trace (explain zero instance oracle ds s).2) =
    (fit_calls (trace s) + (if _fitted (self s) then 0 else 1))%nat ∧
  (is_ok (explain zero instance oracle ds s).1 = true →
     _fitted (self (explain zero instance oracle ds s).2) = true) ∧
  (is_ok (explain zero instance oracle ds s).1 = false →
     _fitted (self (explain zero instance oracle ds s).2) = false) ∧
  (∀ instances : list Instance,
     (fit_calls (trace (explain_all zero instances oracle ds s).2)
        <= fit_calls (trace s) + 1)%nat ∧
     ∀ l, (explain_all zero instances oracle ds s).1 = Ok l → l = instances) ∧
  ∀ instances : list Instance,
    length (explain_each zero instances oracle ds s).1 = length instances ∧
    Forall2 (fun instance r => r = Ok instance ∨ ∃ e, r = Raise e)
      instances (explain_each zero instances oracle ds s).1 ∧
    fit_calls (trace (explain_each zero instances oracle ds s).2) =
      (fit_calls (trace s) +
       (if _fitted (self s) then 0
        else calls_until_return
               (explain_each zero instances oracle ds s).1))%nat ∧
    _fitted (self (explain_each zero instances oracle ds s).2) =
      _fitted (self s)
      || existsb is_ok (explain_each zero instances oracle ds s).1.
Proof.
  split_and!.
  - apply explain_unfold.
  - rewrite explain_unfold. destruct (_fitted (self s)); simpl.
    + by intros i [= <-].
    + destruct (fit zero oracle ds (fold_id (self s)) s).1; simpl; [|done].
      by intros i [= <-].
  - rewrite explain_unfold. destruct (_fitted (self s)); simpl; [lia|].
    destruct (fit zero oracle ds (fold_id (self s)) s) as [r s'] eqn:Hfit.
    simpl. rewrite (fit_calls_fit _ _ _ _ _ _ Hfit). lia.
  - rewrite explain_unfold. destruct (_fitted (self s)) eqn:Hf; simpl; [done|].
    destruct (fit zero oracle ds (fold_id (self s)) s) as [[[]|e] s'] eqn:Hfit;
      simpl; [|done].
    intros _. by eapply fit_ok.
  - rewrite explain_unfold. destruct (_fitted (self s)) eqn:Hf; simpl; [done|].
    destruct (fit zero oracle ds (fold_id (self s)) s) as [[[]|e] s'] eqn:Hfit;
      simpl; [done|].
    intros _. apply fit_raise_keeps_flag in Hfit. by rewrite Hfit.
  - intros instances. apply explain_all_inv.
  - intros instances. apply explain_each_inv.
Qed.
End ExplainFacts.

(** ** [transform_data] *)

Section DictFacts.
Context {K V : Type} `{EqDecision K}.
Implicit Types (d : list (K * V)) (k : K) (v : V).

Lemma dict_get_set_eq d k v : Dict.get (Dict.set d k v) k = Ok v.
Proof.
  induction d as [|[k' v'] d IH]; simpl.
  - by rewrite decide_True.
  - destruct (decide (k' = k)) as [->|Hne]; simpl.
    + by rewrite decide_True.
    + by rewrite decide_False.
Qed.

Lemma dict_get_set_ne d k k' v :
  k ≠ k' → Dict.get (Dict.set d k v) k' = Dict.get d k'.
Proof.
  intros Hne. induction d as [|[k0 v0] d IH]; simpl.
  - by rewrite decide_False.
  - destruct (decide (k0 = k)) as [->|Hk]; simpl.
    + by rewrite !decide_False.
    + destruct (decide (k0 = k')); [done|]. apply IH.
Qed.

Lemma dict_get_key d k v : Dict.get d k = Ok v → k ∈ Dict.keys d.
Proof.
  induction d as [|[k0 v0] d IH]; simpl; [done|].
  destruct (decide (k0 = k)) as [->|Hk].
  - intros _. apply elem_of_cons. by left.
  - intros Hg. apply elem_of_cons. right. by apply IH.
Qed.

Lemma dict_key_get d k : k ∈ Dict.keys d → ∃ v, Dict.get d k = Ok v.
Proof.
  induction d as [|[k0 v0] d IH]; simpl.
  - by intros ?%elem_of_nil.
  - intros [->|Hin]%elem_of_cons.
    + exists v0. by rewrite decide_True.
    + destruct (decide (k0 = k)); [by exists v0|]. by apply IH.
Qed.

Lemma dict_keys_set d k v :
  Dict.keys (Dict.set d k v) =
  if decide (k ∈ Dict.keys d) then Dict.keys d else Dict.keys d ++ [k].
Proof.
  induction d as [|[k0 v0] d IH].
  - simpl. done.
  - cbn [Dict.set Dict.keys map fst].
    destruct (decide (k0 = k)) as [->|Hk]; cbn [map fst].
    + rewrite (decide_True (P := k ∈ k :: map fst d)); [done|].
      apply elem_of_cons. by left.
    + unfold Dict.keys in IH. rewrite IH.
      destruct (decide (k ∈ map fst d)) as [Hin|Hin].
      * rewrite (decide_True (P := k ∈ k0 :: map fst d)); [done|].
        apply elem_of_cons. by right.
      * rewrite (decide_False (P := k ∈ k0 :: map fst d)); [done|].
        intros [?|?]%elem_of_cons; congruence.
Qed.

Lemma dict_keys_set_NoDup d k v :
  NoDup (Dict.keys d) → NoDup (Dict.keys (Dict.set d k v)).
Proof.
  intros Hnd. rewrite dict_keys_set. case_decide as Hin; [done|].
  apply NoDup_app. split_and!; [done| |apply NoDup_singleton].
  intros x Hx ->%list_elem_of_singleton. done.
Qed.

Lemma dict_from_keys_NoDup (ks : list K) v :
  NoDup (Dict.keys (Dict.from_keys ks v)).
Proof.
  unfold Dict.from_keys.
  assert (Hgen : ∀ d, NoDup (Dict.keys d) →
            NoDup (Dict.keys (fold_left (fun d k => Dict.set d k v) ks d))).
  { induction ks as [|k ks IH]; intros d Hd; simpl; [done|].
    apply IH. by apply dict_keys_set_NoDup. }
  apply Hgen. simpl. apply NoDup_nil_2.
Qed.

Lemma dict_get_from_keys (ks : list K) v k :
  Dict.get (Dict.from_keys ks v) k =
  if decide (k ∈ ks) then Ok v else Raise KeyError.
Proof.
  unfold Dict.from_keys.
  assert (Hgen : ∀ d,
            Dict.get (fold_left (fun d k => Dict.set d k v) ks d) k =
            if decide (k ∈ ks) then Ok v else Dict.get d k).
  { induction ks as [|k0 ks IH]; intros d.
    - simpl. done.
    - cbn [fold_left]. rewrite IH.
      destruct (decide (k ∈ ks)) as [Hin|Hin].
      + rewrite (decide_True (P := k ∈ k0 :: ks)); [done|].
        apply elem_of_cons. by right.
      + destruct (decide (k0 = k)) as [->|Hne].
        * rewrite dict_get_set_eq.
          rewrite (decide_True (P := k ∈ k :: ks)); [done|].
          apply elem_of_cons. by left.
        * rewrite dict_get_set_ne by done.
          rewrite (decide_False (P := k ∈ k0 :: ks)); [done|].
          intros [?|?]%elem_of_cons; congruence. }
  rewrite Hgen. done.
Qed.

Lemma dict_get_elem d k v :
  NoDup (Dict.keys d) → (Dict.get d k = Ok v ↔ (k, v) ∈ d).
Proof.
  induction d as [|[k0 v0] d IH]; simpl.
  - intros _. split; [done|]. by intros ?%elem_of_nil.
  - intros [Hnotin Hnd]%NoDup_cons. rewrite elem_of_cons.
    destruct (decide (k0 = k)) as [->|Hne].
    + split.
      * intros [= ->]. by left.
      * intros [[= ->]|Hin]; [done|].
        destruct Hnotin. apply list_elem_of_fmap. by exists (k, v).
    + rewrite IH by done. split; [by right|].
      intros [[= -> ->]|?]; done.
Qed.
End DictFacts.

Section IndexFacts.
Context {A B : Type} (f : A -> B).

Lemma index_map (xs : list A) i :
  index (map f xs) i = map_res f (index xs i).
Proof.
  unfold index. rewrite length_map.
  destruct (norm_index (length xs) i) as [k|]; [|done].
  change (map f xs) with (f <$> xs). rewrite list_lookup_fmap.
  by destruct (xs !! k).
Qed.

Lemma take_indices_map (xs : list A) indices :
  take_indices (map f xs) indices = map_res (map f) (take_indices xs indices).
Proof.
  induction indices as [|i rest IH]; simpl; [done|].
  rewrite index_map, IH.
  destruct (index xs i); simpl; [|done].
  by destruct (take_indices xs rest).
Qed.
End IndexFacts.

Section PartitionFacts.
Context {W Params OptState Loss : Type} `{EqDecision W}
        `{!TorchOps W Params OptState Loss}.
Context (zero : W).
Import AdaptiveGCE.

Local Abbreviation Data := (AdaptiveGCE.Data W).
Local Abbreviation Inst := (Dataset.DataInstance W).

(** The samples the loop appends to the list of class [c]. *)
Lemma fill_classes_inv (rows : list (list (list W) * list (list W) * Z))
    (d d' : list (Z * list Data)) :
  fill_classes zero d rows = Ok d' →
  Dict.keys d' = Dict.keys d ∧
  (∀ c l, Dict.get d c = Ok l →
     Dict.get d' c =
     Ok (l ++ map (fun row => make_sample zero row.1.1 row.1.2 row.2)
                (filter (fun row => row.2 = c) rows))) ∧
  Forall (fun row => row.2 ∈ Dict.keys d) rows.
Proof.
  revert d; induction rows as [|[[xi adji] yi] rows IH]; intros d; simpl.
  - intros [= <-]. split_and!; [done| |done].
    intros c l ->. by rewrite app_nil_r.
  - destruct (Dict.get d yi) as [l0|e] eqn:Hget; [|done].
    intros Hfill. apply IH in Hfill as (Hkeys & Hgets & Hall).
    assert (Hk : Dict.keys (Dict.set d yi (l0 ++ [make_sample zero xi adji yi]))
                 = Dict.keys d).
    { rewrite dict_keys_set. rewrite decide_True; [done|].
      by eapply dict_get_key. }
    rewrite Hk in Hkeys, Hall. split_and!; [done| |].
    + intros c l Hc. destruct (decide (yi = c)) as [->|Hne].
      * rewrite filter_cons_True by done. simpl.
        rewrite (Hgets c (l0 ++ [make_sample zero xi adji c])).
        -- rewrite Hget in Hc. injection Hc as ->.
           by rewrite <- app_assoc.
        -- apply dict_get_set_eq.
      * rewrite filter_cons_False by done.
        apply Hgets. by rewrite dict_get_set_ne.
    + apply Forall_cons. split; [|done]. simpl. by eapply dict_get_key.
Qed.

Lemma zip_instances (sel : list Inst) :
  zip (zip (map Dataset.features sel) (map Dataset.to_numpy_array sel))
      (map Dataset.graph_label sel) =
  map (fun i => (Dataset.features i, Dataset.to_numpy_array i,
                 Dataset.graph_label i)) sel.
Proof. induction sel as [|i sel IH]; simpl; [done|]. by rewrite IH. Qed.

Lemma samples_of_rows (sel : list Inst) c :
  map (fun row : list (list W) * list (list W) * Z =>
         make_sample zero row.1.1 row.1.2 row.2)
      (filter (fun row => row.2 = c)
         (map (fun i => (Dataset.features i, Dataset.to_numpy_array i,
                         Dataset.graph_label i)) sel)) =
  map (sample_of zero) (filter (fun i => Dataset.graph_label i = c) sel).
Proof.
  induction sel as [|i sel IH]; simpl; [done|].
  destruct (decide (Dataset.graph_label i = c)) as [Hc|Hc].
  - rewrite !filter_cons_True by done. simpl. by rewrite IH.
  - rewrite !filter_cons_False by done. done.
Qed.

(** [class_partitions], in terms of the instances the train split
    selects. *)
Lemma class_partitions_inv (self : AdaptiveGCE.t Params OptState) ds d :
  class_partitions zero self ds = Ok d →
  ∃ split selected,
    Dataset.get_split_indices ds !! fold_id self = Some split ∧
    take_indices (Dataset.instances ds) (Dataset.train split) = Ok selected ∧
    NoDup (Dict.keys d) ∧
    Forall (fun i => Dataset.graph_label i ∈ Dict.keys d) selected ∧
    ∀ c, c ∈ Dict.keys d →
      Dict.get d c =
      Ok (map (sample_of zero)
            (filter (fun i => Dataset.graph_label i = c) selected)).
Proof.
  unfold class_partitions.
  destruct (Dataset.get_split_indices ds !! fold_id self) as [split|];
    [|done].
  rewrite !take_indices_map.
  destruct (take_indices (Dataset.instances ds) (Dataset.train split))
    as [sel|e] eqn:Hsel; simpl; [|done].
  rewrite zip_instances. intros Hfill.
  apply fill_classes_inv in Hfill as (Hkeys & Hgets & Hall).
  exists split, sel. split_and!; try done.
  - rewrite Hkeys. apply dict_from_keys_NoDup.
  - rewrite Hkeys. apply Forall_forall. intros i Hi.
    rewrite Forall_forall in Hall.
    apply (Hall (Dataset.features i, Dataset.to_numpy_array i,
                 Dataset.graph_label i)).
    apply list_elem_of_fmap. by exists i.
  - intros c Hc. rewrite Hkeys in Hc.
    apply dict_key_get in Hc as [l Hl].
    rewrite (Hgets c l Hl). rewrite samples_of_rows.
    rewrite dict_get_from_keys in Hl. case_decide; [|done].
    by injection Hl as <-.
Qed.

Lemma concat_filter_keys {A} (label : A -> Z) (ks : list Z) (l : list A) :
  NoDup ks → Forall (fun a => label a ∈ ks) l →
  concat (map (fun c => filter (fun a => label a = c) l) ks) ≡ₚ l.
Proof.
  revert l; induction ks as [|k ks IH]; intros l Hnd Hall; simpl.
  - destruct l as [|a l]; [done|].
    apply Forall_cons in Hall as [Ha _]. by apply elem_of_nil in Ha.
  - apply NoDup_cons in Hnd as [Hk Hnd].
    rewrite <- (filter_app_complement (fun a => label a = k) l) at 2.
    apply Permutation_app; [done|].
    assert (Heq : map (fun c => filter (fun a => label a = c) l) ks =
                  map (fun c => filter (fun a => label a = c)
                                  (filter (fun a => ¬ label a = k) l)) ks).
    { apply map_ext_in. intros c Hc.
      rewrite list_filter_filter. apply list_filter_iff.
      intros a. split; [|by intros [? ?]]. intros <-. split; [done|].
      intros <-. apply Hk. by apply list_elem_of_In. }
    rewrite Heq. apply IH; [done|].
    apply Forall_forall. intros a [Hne Ha]%list_elem_of_filter.
      rewrite Forall_forall in Hall. specialize (Hall a Ha).
      apply elem_of_cons in Hall as [?|?]; done.
Qed.

(** C5: the per-class collections built by [transform_data] partition
    the instances of the fold's train split: the collection keyed by [c]
    holds exactly the samples of the selected instances with label [c],
    every selected instance has its sample in the collection of its
    label, a sample in the collection of [c] has label [c] and comes from
    a selected instance, no two collections share a key, and all
    collections together hold each selected instance once. *)
Theorem class_partition_complete (self : AdaptiveGCE.t Params OptState)
    ds (data_dict_cls : list (Z * list Data)) :
  class_partitions zero self ds = Ok data_dict_cls →
  ∃ split selected,
    Dataset.get_split_indices ds !! fold_id self = Some split ∧
    take_indices (Dataset.instances ds) (Dataset.train split) = Ok selected ∧
    transform_data zero self ds =
      Ok (map (fun cls_data => mkLoader cls_data.2 1 true 2) data_dict_cls) ∧
    NoDup (Dict.keys data_dict_cls) ∧
    (∀ c coll, (c, coll) ∈ data_dict_cls →
       coll = map (sample_of zero)
                (filter (fun i => Dataset.graph_label i = c) selected)) ∧
    (∀ i, i ∈ selected →
       ∃ coll, (Dataset.graph_label i, coll) ∈ data_dict_cls ∧
               sample_of zero i ∈ coll) ∧
    (∀ c coll smp, (c, coll) ∈ data_dict_cls → smp ∈ coll →
       y smp = c ∧ ∃ i, i ∈ selected ∧ smp = sample_of zero i) ∧
    concat (Dict.values data_dict_cls) ≡ₚ map (sample_of zero) selected.
Proof.
  intros Hcp. pose proof Hcp as Hinv.
  apply class_partitions_inv in Hinv
    as (split & selected & Hsplit & Hsel & Hnd & Hlabels & Hgets).
  assert (Hcoll : ∀ c coll, (c, coll) ∈ data_dict_cls →
            coll = map (sample_of zero)
                     (filter (fun i => Dataset.graph_label i = c) selected)).
  { intros c coll Hin. pose proof Hin as Hg.
    apply dict_get_elem in Hg; [|done].
    rewrite Hgets in Hg; [by injection Hg|]. by eapply dict_get_key. }
  exists split, selected. split_and!; try done.
  - unfold transform_data. by rewrite Hcp.
  - intros i Hi. rewrite Forall_forall in Hlabels.
    specialize (Hlabels i Hi). pose proof (Hgets _ Hlabels) as Hg.
    eexists. split; [apply dict_get_elem; [done|exact Hg]|].
    apply list_elem_of_fmap. exists i. split; [done|].
    apply list_elem_of_filter. done.
  - intros c coll smp Hin Hsmp. rewrite (Hcoll c coll Hin) in Hsmp.
    apply list_elem_of_fmap in Hsmp as (i & -> & Hi).
    apply list_elem_of_filter in Hi as [Hc Hi]. split; [done|]. by exists i.
  - assert (Hvals : Dict.values data_dict_cls =
              map (fun c => map (sample_of zero)
                     (filter (fun i => Dataset.graph_label i = c) selected))
                  (Dict.keys data_dict_cls)).
    { unfold Dict.values, Dict.keys. rewrite map_map.
      apply map_ext_in. intros [c coll] Hin. simpl.
      apply Hcoll. by apply list_elem_of_In. }
    rewrite Hvals.
    trans (map (sample_of zero)
             (concat (map (fun c => filter (fun i => Dataset.graph_label i = c)
                                      selected)
                        (Dict.keys data_dict_cls)))).
    + rewrite concat_map, map_map. done.
    + apply Permutation_map. by apply concat_filter_keys.
Qed.
End PartitionFacts.

(** ** Failures during training *)

Section PathFacts.

Lemma string_app_empty_r (s : string) : s +:+ "" = s.
Proof.
  induction s as [|c s IH]; [done|].
  change (String c s +:+ "") with (String c (s +:+ "")). by rewrite IH.
Qed.

Lemma string_app_ne (s x : string) : x ≠ "" → s +:+ x ≠ s.
Proof.
  intros Hx Heq. rewrite <- (string_app_empty_r s) in Heq at 2.
  by apply (inj (String.app s)) in Heq.
Qed.

Lemma join2_checkpoint (p : string) (cls : nat) :
  Os.join2 p ("autoencoder_" +:+ pretty cls) =
  p +:+ Os.sep_after p +:+ "autoencoder_" +:+ pretty cls.
Proof.
  unfold Os.join2, Os.sep_after. cbn [Os.startswith_sep String.append].
  destruct (bool_decide (p = "") || Os.endswith_sep p); done.
Qed.

Lemma join2_checkpoint_inj (p : string) (i j : nat) :
  Os.join2 p ("autoencoder_" +:+ pretty i) =
  Os.join2 p ("autoencoder_" +:+ pretty j) → i = j.
Proof.
  rewrite !join2_checkpoint. intros Heq.
  apply (inj (String.app p)) in Heq.
  apply (inj (String.app (Os.sep_after p))) in Heq.
  apply (inj (String.app "autoencoder_")) in Heq.
  by apply (inj pretty) in Heq.
Qed.

Lemma join2_checkpoint_ne (p : string) (i : nat) :
  Os.join2 p ("autoencoder_" +:+ pretty i) ≠ p.
Proof.
  rewrite join2_checkpoint. apply string_app_ne.
  unfold Os.sep_after. destruct (bool_decide (p = "") || Os.endswith_sep p); done.
Qed.
End PathFacts.

Section AbortFacts.
Context {W Params OptState Loss : Type} `{EqDecision W}
        `{!TorchOps W Params OptState Loss}.
Context (zero : W).
Import AdaptiveGCE.

Local Abbreviation State := (AdaptiveGCE.State W Params OptState).
Local Abbreviation DataLoader := (AdaptiveGCE.DataLoader W).
Local Abbreviation Event := (AdaptiveGCE.Event W).

Lemma ckpt_of_inj (s : State) i j : ckpt_of s i = ckpt_of s j → i = j.
Proof. unfold ckpt_of, Os.join; simpl. apply join2_checkpoint_inj. Qed.

Lemma ckpt_of_training_start (s : State) ds fold cls :
  ckpt_of (training_start s ds fold) cls = checkpoint_path (self s) ds fold cls.
Proof. done. Qed.

Lemma checkpoint_path_ne_uri (self : AdaptiveGCE.t Params OptState)
    (ds : Dataset.t W) fold cls :
  checkpoint_path self ds fold cls ≠ explainer_uri self ds fold.
Proof.
  unfold checkpoint_path, explainer_uri, Os.join; simpl.
  apply join2_checkpoint_ne.
Qed.

(** A round of the loop that returns has written the checkpoint file of
    its class. *)
Lemma fit_class_ok_writes cls (dl : DataLoader) (s s1 : State) :
  fit_class (cls, dl) s = (Ok tt, s1) →
  ∃ w, fs s1 !! ckpt_of s cls = Some (Os.File w).
Proof.
  unfold fit_class; simpl. intros Hrun.
  apply bind_inv in Hrun as [([] & s' & Ht & Hrun)|(e & _ & [=])].
  apply sw_train_class in Ht.
  pose proof (ckpt_of_within (fp_train_class cls) _ _ eq_refl Ht) as Hck.
  apply bind_inv in Hrun as [(ae & s'' & Hg & Hrun)|(e & _ & [=])].
  injection Hg as _ <-. unfold save_autoencoder in Hrun.
  apply bind_inv in Hrun as [(s0 & s'' & [= <- <-] & Hrun)|(e & _ & [=])].
  cbv zeta in Hrun. fold (ckpt_of s' cls) in Hrun.
  apply bind_inv in Hrun as [(fs' & s'' & Hw & Hrun)|(e & _ & [=])].
  injection Hw as Hw <-. apply write_file_inv in Hw. subst fs'.
  apply bind_inv in Hrun as [([] & s'' & [= <-] & Hrun)|(e & _ & [=])].
  injection Hrun as <-. simpl. rewrite Hck.
  eexists. apply lookup_insert_eq.
Qed.

(** When the rounds for the classes [k .. k + n - 1] have returned, their
    checkpoint files are there. *)
Lemma fit_loop_ok_writes (loaders : list DataLoader) k (s s2 : State) :
  for_each (imap (fun i dl => ((k + i)%nat, dl)) loaders) fit_class s = (Ok tt, s2) →
  ∀ j, (k <= j < k + length loaders)%nat →
    ∃ w, fs s2 !! ckpt_of s j = Some (Os.File w).
Proof.
  revert k s; induction loaders as [|dl loaders IH]; intros k s; simpl.
  - intros _ j Hj. lia.
  - intros Hrun j Hj.
    apply bind_inv in Hrun as [([] & s1 & Hc & Hrun)|(e & _ & [=])].
    rewrite Nat.add_0_r in Hc.
    rewrite (imap_ext _ (fun i dl => ((S k + i)%nat, dl))) in Hrun
      by (intros; simpl; f_equal; lia).
    pose proof (within_fit_class (fun c => c = k) _ _ _ _ _ eq_refl Hc) as H1.
    pose proof (ckpt_of_within (fp_training _ _) _ _ eq_refl H1) as Hck.
    destruct (decide (j = k)) as [->|Hne].
    + apply fit_class_ok_writes in Hc as [w Hw].
      apply within_fit_loop in Hrun.
      destruct Hrun as (_ & _ & _ & _ & _ & _ & Hfs & _).
      exists w. rewrite Hfs; [done|]. simpl.
      intros (c & Hc & Heq). rewrite Hck in Heq.
      apply ckpt_of_inj in Heq. lia.
    + rewrite <- Hck. apply (IH (S k) s1 Hrun). lia.
Qed.

Lemma enumerate_split (loaders : list DataLoader) c dl :
  loaders !! c = Some dl →
  enumerate loaders =
  enumerate (take c loaders) ++ (c, dl) ::
    imap (fun i dl => ((S c + i)%nat, dl)) (drop (S c) loaders).
Proof.
  intros Hdl. unfold enumerate.
  rewrite <- (take_drop_middle loaders c dl Hdl) at 1.
  rewrite imap_app. f_equal. simpl.
  assert (Hlen : length (take c loaders) = c).
  { rewrite length_take. apply lookup_lt_Some in Hdl. lia. }
  rewrite Hlen, Nat.add_0_r. f_equal.
  apply imap_ext. intros i x _. simpl. f_equal. lia.
Qed.

(** C7: when the epoch loop of class [c] raises, the exception leaves
    [fit] and the call is over: [_fitted] is as it was, the checkpoint
    directory created before training is there, the checkpoint files of
    the classes before [c] are there, no checkpoint is written for [c] or
    a later class, and no later class is trained. *)
Theorem fit_aborts_when_training_raises {Oracle} (oracle : Oracle)
    ds fold (s s2 s3 : State) fs1 loaders c dl e :
  Os.mkdir (fs s) (explainer_uri (self s) ds fold) = Ok fs1 →
  transform_data zero (self s) ds = Ok loaders →
  loaders !! c = Some dl →
  for_each (enumerate (take c loaders)) fit_class (training_start s ds fold)
    = (Ok tt, s2) →
  train_class c dl s2 = (Raise e, s3) →
  fit zero oracle ds fold s = (Raise e, s3) ∧
  _fitted (self s3) = _fitted (self s) ∧
  fs s3 !! explainer_uri (self s) ds fold = Some Os.Dir ∧
  (∀ j, (j < c)%nat →
     ∃ w, fs s3 !! checkpoint_path (self s) ds fold j = Some (Os.File w)) ∧
  (∀ j, (c <= j)%nat →
     fs s3 !! checkpoint_path (self s) ds fold j =
     fs s !! checkpoint_path (self s) ds fold j) ∧
  ∃ evs, trace s3 = trace s ++ evs ∧ Forall (aborted_at c) evs.
Proof.
  intros Hmk Htd Hdl Hpre Hfail.
  pose proof (mkdir_inv _ _ _ Hmk) as [-> Hno].
  assert (Hlen : length (take c loaders) = c).
  { rewrite length_take. apply lookup_lt_Some in Hdl. lia. }
  (* the run *)
  assert (Hfit : fit zero oracle ds fold s = (Raise e, s3)).
  { rewrite fit_unfold, Hno, Hmk.
    apply bind_raise. unfold __fit.
    erewrite bind_ok; [|reflexivity].
    erewrite bind_ok; [|reflexivity].
    erewrite bind_ok; [|unfold lift; simpl; rewrite <- Htd; reflexivity].
    rewrite (enumerate_split _ _ _ Hdl).
    eapply for_each_raise_at.
    - unfold training_start in Hpre. simpl. rewrite <- app_assoc. exact Hpre.
    - unfold fit_class. simpl. by apply bind_raise. }
  (* what the rounds before [c] and the epoch loop of [c] touched *)
  pose proof (within_fit_loop (take c loaders) 0 _ _ _ Hpre) as Hloop.
  rewrite Hlen in Hloop. simpl in Hloop.
  pose proof (sw_train_class _ _ _ _ _ Hfail) as Hcls.
  pose proof (within_fs_eq (fp_train_class c) _ _ (fun p (H : False) => H) Hcls)
    as Hfs.
  split_and!.
  - done.
  - destruct Hcls as (_ & _ & _ & _ & _ & Ha & _).
    destruct Hloop as (_ & _ & _ & _ & _ & Hb & _).
    destruct (Ha eq_refl) as [_ ->]. destruct (Hb eq_refl) as [_ ->]. done.
  - rewrite Hfs. destruct Hloop as (_ & _ & _ & _ & _ & _ & Hw & _).
    rewrite Hw.
    + simpl. apply lookup_insert_eq.
    + simpl. intros (j & _ & Heq).
      exact (checkpoint_path_ne_uri (self s) ds fold j (eq_sym Heq)).
  - intros j Hj. rewrite Hfs.
    apply (fit_loop_ok_writes (take c loaders) 0 _ _ Hpre). lia.
  - intros j Hj. rewrite Hfs.
    destruct Hloop as (_ & _ & _ & _ & _ & _ & Hw & _). rewrite Hw.
    + simpl. rewrite lookup_insert_ne; [done|].
      intros Heq.
      exact (checkpoint_path_ne_uri (self s) ds fold j (eq_sym Heq)).
    + simpl. intros (k & Hk & Heq).
      change (checkpoint_path (self s) ds fold j)
        with (ckpt_of (training_start s ds fold) j) in Heq.
      apply ckpt_of_inj in Heq. lia.
  - destruct Hcls as (_ & _ & _ & _ & _ & _ & _ & _ & evs2 & -> & Hevs2).
    destruct Hloop as (_ & _ & _ & _ & _ & _ & _ & _ & evs1 & -> & Hevs1).
    simpl. exists ([EvFit fold; EvTrain] ++ evs1 ++ evs2). split.
    + by rewrite <- !app_assoc.
    + apply Forall_app. split; [by repeat constructor|].
      apply Forall_app. split.
      * eapply Forall_impl; [exact Hevs1|].
        intros [| | |k x ei ea|k ep l|k p]; simpl; try done; lia.
      * eapply Forall_impl; [exact Hevs2|].
        intros [| | |k x ei ea|k ep l|k p]; simpl; try done; lia.
Qed.
End AbortFacts.

(** ** Node features *)

Section LoopExt.
Context {S : Type}.



End LoopExt.

Section FeatureFacts.
Context {W Params OptState Loss : Type} `{EqDecision W}
        `{!TorchOps W Params OptState Loss}.
Context (zero : W).
Import AdaptiveGCE.

Local Abbreviation State := (AdaptiveGCE.State W Params OptState).
Local Abbreviation Data := (AdaptiveGCE.Data W).
Local Abbreviation DataLoader := (AdaptiveGCE.DataLoader W).
Local Abbreviation Event := (AdaptiveGCE.Event W).
















End FeatureFacts.

(** ** [DynamicEvaluator.evaluate] *)

Section EvaluatorFacts.
Context {Dataset Oracle Explainer Metrics : Type}.
Import DynamicEvaluator.

Local Abbreviation Evaluator :=
  (DynamicEvaluator.t Dataset Oracle Explainer Metrics).
Local Abbreviation State :=
  (DynamicEvaluator.State Dataset Oracle Explainer Metrics).
Local Abbreviation Event := (DynamicEvaluator.Event Dataset).

Context (super_evaluate : Evaluator -> res unit * Evaluator).

Lemma evaluations_app (tr1 tr2 : list Event) :
  evaluations (tr1 ++ tr2) = (evaluations tr1 + evaluations tr2)%nat.
Proof. unfold evaluations. by rewrite List.filter_app, length_app. Qed.

(** The trace of a run of [evaluate]: nothing on an empty graph, else the
    line printed for the first key in the order of the [dict] and one
    inherited evaluation, on the snapshot stored at that key. *)
Lemma evaluate_trace (s : State) :
  trace (evaluate super_evaluate s).2 =
  trace s ++
  match dyn_graph (self s) with
  | [] => []
  | (time, snapshot) :: rest =>
      let begin_time := fold_left Z.min (Dict.keys rest) time in
      [EvPrint (time - begin_time);
       EvEvaluate (Some (time - begin_time)) (PlainDataset snapshot)]
  end.
Proof.
  unfold evaluate. unfold bind at 1. unfold get.
  destruct (dyn_graph (self s)) as [|[time snapshot] rest] eqn:Hg.
  - simpl. by rewrite app_nil_r.
  - cbn [Dict.keys map fst py_min]. unfold bind at 1. unfold lift.
    cbn [for_each_ctl]. unfold evaluate_body.
    unfold bind at 1 2 3. unfold emit, modify. cbn [self trace].
    unfold bind at 1. unfold get.
    cbn [self set_iteration dyn_graph]. rewrite Hg.
    cbn [Dict.get]. rewrite decide_True by done.
    unfold bind at 1 2. unfold lift, modify.
    unfold bind at 1. unfold call_super. cbn [self trace].
    destruct (super_evaluate _) as [[[]|e] ev']; cbn [fst snd];
      unfold bind, ret; cbn [snd trace]; by rewrite <- app_assoc.
Qed.

(** C3: a call of [evaluate] on a dynamic graph with one or more time
    keys enters the inherited single-snapshot evaluation exactly once,
    however many keys there are (and not at all on an empty graph). *)
Theorem evaluate_single_snapshot (s : State) :
  evaluations (trace (evaluate super_evaluate s).2) =
  (evaluations (trace s) + Nat.min 1 (length (dyn_graph (self s))))%nat.
Proof.
  rewrite evaluate_trace, evaluations_app.
  destruct (dyn_graph (self s)) as [|[time snapshot] rest]; done.
Qed.

Lemma run_events_eq (s : State) :
  run_events super_evaluate s =
  match dyn_graph (self s) with
  | [] => []
  | (time, snapshot) :: rest =>
      let begin_time := fold_left Z.min (Dict.keys rest) time in
      [EvPrint (time - begin_time);
       EvEvaluate (Some (time - begin_time)) (PlainDataset snapshot)]
  end.
Proof. unfold run_events. by rewrite evaluate_trace, drop_app_length. Qed.

(** C4, amended: [evaluate] processes the first key of the dynamic graph
    in the iteration order of the mapping.  Before the inherited
    evaluation the iteration counter of the explainer is the first key
    minus the minimum key and the active dataset is the snapshot stored
    at the first key; when the first key is the minimum key, the counter
    is 0 and the snapshot is the one at the minimum key. *)
Theorem evaluate_starts_at_first_key (s : State) time snapshot rest :
  dyn_graph (self s) = (time, snapshot) :: rest →
  let begin_time := fold_left Z.min (Dict.keys rest) time in
  py_min (Dict.keys (dyn_graph (self s))) = Ok begin_time ∧
  run_events super_evaluate s =
    [EvPrint (time - begin_time);
     EvEvaluate (Some (time - begin_time)) (PlainDataset snapshot)] ∧
  (time = begin_time → starts_at_minimum super_evaluate s).
Proof.
  intros Hg. cbv zeta. split_and!.
  - by rewrite Hg.
  - by rewrite run_events_eq, Hg.
  - intros Hmin. unfold starts_at_minimum.
    exists time, snapshot. rewrite run_events_eq, Hg. split_and!.
    + simpl. by rewrite <- Hmin.
    + simpl. by rewrite decide_True.
    + simpl. rewrite <- Hmin. by rewrite Z.sub_diag.
Qed.
End EvaluatorFacts.

(** ** Examples *)

Import Example.

(** The class partitions of the toy dataset: the train split selects the
    graphs at the indices 0 and 1, one of each class. *)
Lemma class_partition_complete_witness :
  AdaptiveGCE.class_partitions 0 explainer toy =
    Ok [(0, [AdaptiveGCE.mkData [[1]; [1]] 0 ([0; 1], [1; 0])%nat [2; 2]]);
        (1, [AdaptiveGCE.mkData [[1]; [1]] 1 ([0], [1])%nat [3]])] ∧
  ∃ selected,
    take_indices (Dataset.instances toy) [0; 1] = Ok selected ∧
    concat (Dict.values
      [(0, [AdaptiveGCE.mkData [[1]; [1]] 0 ([0; 1], [1; 0])%nat [2; 2]]);
       (1, [AdaptiveGCE.mkData [[1]; [1]] 1 ([0], [1])%nat [3]])])
    ≡ₚ map (AdaptiveGCE.sample_of 0) selected.
Proof.
  assert (H : AdaptiveGCE.class_partitions 0 explainer toy =
    Ok [(0, [AdaptiveGCE.mkData [[1]; [1]] 0 ([0; 1], [1; 0])%nat [2; 2]]);
        (1, [AdaptiveGCE.mkData [[1]; [1]] 1 ([0], [1])%nat [3]])]).
  { vm_compute. reflexivity. }
  split; [exact H|].
  destruct (class_partition_complete 0 explainer toy _ H)
    as (split & selected & Hsplit & Hsel & _ & _ & _ & _ & _ & Hperm).
  exists selected. split; [|exact Hperm].
  vm_compute in Hsplit. injection Hsplit as <-. exact Hsel.
Defined.

(** A run of [fit] that aborts in class 1, on the dataset whose class 1
    has a graph without edges. *)
Lemma fit_aborts_when_training_raises_witness :
  Os.mkdir (AdaptiveGCE.fs start)
    (AdaptiveGCE.explainer_uri explainer broken 0) =
    Ok (<["store/AdaptiveGCE_fit_on_broken_fold_id_0" := Os.Dir]>
          (AdaptiveGCE.fs start)) ∧
  AdaptiveGCE.transform_data 0 explainer broken = Ok broken_loaders ∧
  broken_loaders !! 1%nat = Some broken_class1 ∧
  for_each (AdaptiveGCE.enumerate (take 1 broken_loaders))
    AdaptiveGCE.fit_class (AdaptiveGCE.training_start start broken 0)
    = (Ok tt, class0_done) ∧
  AdaptiveGCE.train_class 1 broken_class1 class0_done
    = (Raise RuntimeError, class1_failed) ∧
  AdaptiveGCE.fit 0 tt broken 0 start = (Raise RuntimeError, class1_failed) ∧
  AdaptiveGCE._fitted (AdaptiveGCE.self class1_failed) = false ∧
  AdaptiveGCE.fs class1_failed
    !! "store/AdaptiveGCE_fit_on_broken_fold_id_0" = Some Os.Dir.
Proof.
  assert (H1 : Os.mkdir (AdaptiveGCE.fs start)
                 (AdaptiveGCE.explainer_uri explainer broken 0) =
               Ok (<["store/AdaptiveGCE_fit_on_broken_fold_id_0" := Os.Dir]>
                     (AdaptiveGCE.fs start))).
  { vm_compute. reflexivity. }
  assert (H2 : AdaptiveGCE.transform_data 0 explainer broken = Ok broken_loaders).
  { vm_compute. reflexivity. }
  assert (H3 : broken_loaders !! 1%nat = Some broken_class1).
  { vm_compute. reflexivity. }
  assert (H4 : for_each (AdaptiveGCE.enumerate (take 1 broken_loaders))
                 AdaptiveGCE.fit_class (AdaptiveGCE.training_start start broken 0)
               = (Ok tt, class0_done)).
  { vm_compute. reflexivity. }
  assert (H5 : AdaptiveGCE.train_class 1 broken_class1 class0_done
               = (Raise RuntimeError, class1_failed)).
  { vm_compute. reflexivity. }
  destruct (fit_aborts_when_training_raises 0 tt broken 0 start
              class0_done class1_failed _ broken_loaders 1 broken_class1
              RuntimeError H1 H2 H3 H4 H5)
    as (Hfit & Hfitted & Hdir & _).
  split_and!; try assumption.
Defined.

Lemma toy_conv_keeps_nodes :
  @GCNEncoder.conv_keeps_nodes Z nat nat unit toy_ops.
Proof.
  intros c x ei ew x' n Hx. simpl. unfold toy_conv.
  destruct x as [v|rows]; [done|]. destruct Hx as [Hn _].
  intros [= <-]. simpl. split.
  - by rewrite length_map.
  - apply Forall_map, Forall_true. intros _. simpl. apply repeat_length.
Qed.

(** The shapes along [forward] on an input with three nodes and one
    channel, for an encoder with four output channels. *)
Lemma encoder_output_shape_witness :
  @GCNEncoder.conv_keeps_nodes Z nat nat unit toy_ops ∧
  GCNEncoder.configured encoder 1 4 ∧
  has_shape three_nodes 3 1 ∧
  ∃ x1 x2 x3,
    GCNEncoder.stage1 encoder 0 three_nodes ([], []) (Vec []) = Ok x1 ∧
    GCNEncoder.stage2 encoder 0 x1 ([], []) (Vec []) = Ok x2 ∧
    GCNEncoder.stage3 encoder x2 ([], []) (Vec []) = Ok x3 ∧
    has_shape x1 3 4 ∧ has_shape x2 3 4 ∧ has_shape x3 3 1 ∧
    all_entries (fun v => -1 <= v <= 1)%R x3.
Proof.
  assert (Hc : GCNEncoder.configured encoder 1 4).
  { repeat split. }
  assert (Hx : has_shape three_nodes 3 1).
  { split; [reflexivity|]. repeat constructor. }
  split; [exact toy_conv_keeps_nodes|]. split; [exact Hc|]. split; [exact Hx|].
  eexists _, _, _.
  split; [reflexivity|]. split; [reflexivity|]. split; [reflexivity|].
  destruct (encoder_output_shape encoder 1 4 3 0 three_nodes _ _ _
              ([], []) (Vec []) toy_conv_keeps_nodes Hc Hx
              eq_refl eq_refl eq_refl) as (H1 & H2 & H3 & H4 & _).
  split_and!; assumption.
Defined.


(** A run of [evaluate] on the keys 5, 8, 13 in ascending order: it
    begins at the minimum key. *)
Lemma evaluate_starts_at_first_key_witness :
  DynamicEvaluator.dyn_graph (DynamicEvaluator.self (evaluator ascending)) =
    (5, "at 5") :: [(8, "at 8"); (13, "at 13")] ∧
  DynamicEvaluator.run_events super_evaluate (evaluator ascending) =
    [DynamicEvaluator.EvPrint 0;
     DynamicEvaluator.EvEvaluate (Some 0) (DynamicEvaluator.PlainDataset "at 5")] ∧
  DynamicEvaluator.starts_at_minimum super_evaluate (evaluator ascending).
Proof.
  assert (H : DynamicEvaluator.dyn_graph
                (DynamicEvaluator.self (evaluator ascending)) =
              (5, "at 5") :: [(8, "at 8"); (13, "at 13")]).
  { reflexivity. }
  split; [exact H|].
  destruct (evaluate_starts_at_first_key super_evaluate (evaluator ascending)
              5 "at 5" [(8, "at 8"); (13, "at 13")] H) as (_ & Hrun & Hmin).
  split; [exact Hrun|]. apply Hmin. reflexivity.
Defined.

(** C4 as stated fails: with the keys 8, 5, 13 in this order, the first
    inherited evaluation sees the iteration counter 3 and the snapshot
    stored at key 8. *)
Lemma evaluate_may_start_after_minimum :
  DynamicEvaluator.run_events super_evaluate (evaluator shuffled) =
    [DynamicEvaluator.EvPrint 3;
     DynamicEvaluator.EvEvaluate (Some 3) (DynamicEvaluator.PlainDataset "at 8")] ∧
  ¬ DynamicEvaluator.starts_at_minimum super_evaluate (evaluator shuffled).
Proof.
  split; [reflexivity|].
  intros (begin_time & snapshot & Hmin & Hget & Hhead).
  vm_compute in Hhead. discriminate Hhead.
Qed.

(** ** The losses of the autoencoder variants *)

Section LossFacts.
Context {Label : Type} `{!Autoencoders.LossOps Label}.
Import Autoencoders.















(** X3: the loss of [ContrastiveGAE] is a pair.  When it returns, its
    first component is the loss of [CustomGAE] on the first latent
    against the first truth, and its second component the contrastive
    loss of the reconstructions of the first two latents under the
    grouping signal; on fewer than two latents it raises. *)
Theorem contrastive_loss_components (margin : R) (z : list Tensor)
    (truth : Tensor * Label) :
  ((length z < 2)%nat → is_ok (ContrastiveGAE_loss margin z truth) = false) ∧
  ∀ reconstruction contrast,
    ContrastiveGAE_loss margin z truth = Ok (reconstruction, contrast) →
    ∃ z0 z1 rec_x1 rec_x2,
      z !! 0%nat = Some z0 ∧ z !! 1%nat = Some z1 ∧
      forward_all z0 = Ok rec_x1 ∧ forward_all z1 = Ok rec_x2 ∧
      CustomGAE_loss z0 truth.1 = Ok reconstruction ∧
      contrastive_loss margin rec_x1 rec_x2 truth.2 = Ok contrast.
Proof.
  assert (Hone : ∀ z0 : Tensor, index [z0] 1 = Raise IndexError).
  { intros z0. unfold index, norm_index. simpl length.
    rewrite decide_False by lia. rewrite decide_False by lia. done. }
  unfold ContrastiveGAE_loss, CustomGAE_loss. split.
  - intros Hlen. destruct z as [|z0 [|z1 z]]; simpl in Hlen; try lia.
    + done.
    + change (index [z0] 0) with (Ok z0 : res Tensor). rewrite Hone.
      destruct (forward_all z0); done.
  - intros reconstruction contrast.
    destruct z as [|z0 [|z1 z]].
    + simpl. intros [=].
    + change (index [z0] 0) with (Ok z0 : res Tensor). rewrite Hone.
      destruct (forward_all z0); simpl; intros [=].
    + assert (Hi0 : index (z0 :: z1 :: z) 0 = Ok z0) by done.
      assert (Hi1 : index (z0 :: z1 :: z) 1 = Ok z1).
      { unfold index, norm_index. simpl length.
        rewrite decide_True by lia. done. }
      rewrite Hi0, Hi1. intros Heq.
      destruct (forward_all z0) as [rec_x1|] eqn:H1; [|discriminate Heq].
      destruct (forward_all z1) as [rec_x2|] eqn:H2; [|discriminate Heq].
      destruct (mse rec_x1 truth.1) as [r|] eqn:Hm; [|discriminate Heq].
      destruct (contrastive_loss margin rec_x1 rec_x2 truth.2) as [c|] eqn:Hc;
        [|discriminate Heq].
      simplify_eq. exists z0, z1, rec_x1, rec_x2.
      split_and!; try done. rewrite H1. exact Hm.
Qed.
End LossFacts.

(** ** [DynamicEvaluator.evaluate]: edge cases *)

Section EvaluatorEdges.
Context {Dataset Oracle Explainer Metrics : Type}.
Import DynamicEvaluator.

Local Abbreviation Evaluator :=
  (DynamicEvaluator.t Dataset Oracle Explainer Metrics).
Local Abbreviation State :=
  (DynamicEvaluator.State Dataset Oracle Explainer Metrics).
Local Abbreviation Event := (DynamicEvaluator.Event Dataset).

Context (super_evaluate : Evaluator -> res unit * Evaluator).

Lemma fold_min_le (ks : list Z) (k : Z) : fold_left Z.min ks k <= k.
Proof.
  revert k; induction ks as [|k' ks IH]; intros k; simpl; [lia|].
  specialize (IH (Z.min k k')). lia.
Qed.

Lemma evaluate_on_empty (s : State) :
  dyn_graph (self s) = [] →
  evaluate super_evaluate s = (Raise ValueError, s).
Proof.
  intros Hg. unfold evaluate, bind, get, lift. rewrite Hg. done.
Qed.

(** X4: on a dynamic graph without keys, [evaluate] raises the
    [ValueError] of [min] and leaves the evaluator and the explainer as
    they were; nothing is printed or evaluated. *)
Theorem evaluate_empty_graph (s : State) :
  dyn_graph (self s) = [] →
  evaluate super_evaluate s = (Raise ValueError, s) ∧
  run_events super_evaluate s = [].
Proof.
  intros Hg. split; [by apply evaluate_on_empty|].
  by rewrite run_events_eq, Hg.
Qed.

Lemma evaluate_run (s : State) time snapshot rest :
  dyn_graph (self s) = (time, snapshot) :: rest →
  let begin_time := fold_left Z.min (Dict.keys rest) time in
  let prepared :=
    set_data (PlainDataset snapshot)
      (set_iteration (time - begin_time) (self s)) in
  evaluate super_evaluate s =
  ((super_evaluate prepared).1,
   {| self := (super_evaluate prepared).2;
      trace := trace s ++
        [EvPrint (time - begin_time);
         EvEvaluate (Some (time - begin_time)) (PlainDataset snapshot)] |}).
Proof.
  intros Hg. cbv zeta.
  unfold evaluate. unfold bind at 1. unfold get. rewrite Hg.
  cbn [Dict.keys map fst py_min]. unfold bind at 1. unfold lift.
  cbn [for_each_ctl]. unfold evaluate_body.
  unfold bind at 1 2 3. unfold emit, modify. cbn [self trace].
  unfold bind at 1. unfold get.
  cbn [self set_iteration dyn_graph]. rewrite Hg.
  cbn [Dict.get]. rewrite decide_True by done.
  unfold bind at 1 2. unfold lift, modify.
  unfold bind at 1. unfold call_super. cbn [self trace].
  destruct (super_evaluate _) as [[[]|e] ev'] eqn:Hsuper; cbn [fst snd];
    unfold bind, ret; by rewrite <- app_assoc.
Qed.

(** X5: on a dynamic graph with a first key, [evaluate] hands the
    evaluator, with the iteration counter and the active dataset rebound,
    to the inherited evaluation; its outcome is the outcome of that
    evaluation (a raise goes through) and the evaluator it leaves is the
    one the inherited evaluation leaves, with the rebinding in place. *)
Theorem evaluate_outcome (s : State) time snapshot rest :
  dyn_graph (self s) = (time, snapshot) :: rest →
  let begin_time := fold_left Z.min (Dict.keys rest) time in
  let prepared :=
    set_data (PlainDataset snapshot)
      (set_iteration (time - begin_time) (self s)) in
  evaluate super_evaluate s =
  ((super_evaluate prepared).1,
   {| self := (super_evaluate prepared).2;
      trace := trace s ++
        [EvPrint (time - begin_time);
         EvEvaluate (Some (time - begin_time)) (PlainDataset snapshot)] |}).
Proof. apply evaluate_run. Qed.

(** X6: the iteration counter [evaluate] prints and assigns is never
    negative, in whatever order the keys are stored, and the inherited
    evaluation never runs before the counter is assigned. *)
Theorem iteration_offset_not_negative (s : State) :
  Forall (fun e => match e with
                   | EvPrint offset => 0 <= offset
                   | EvEvaluate (Some iteration) _ => 0 <= iteration
                   | EvEvaluate None _ => False
                   end)
         (run_events super_evaluate s).
Proof.
  rewrite run_events_eq.
  destruct (dyn_graph (self s)) as [|[time snapshot] rest]; [done|].
  pose proof (fold_min_le (Dict.keys rest) time) as Hmin.
  repeat constructor; simpl; lia.
Qed.

(** X7: [evaluate] does not advance.  When the inherited evaluation
    leaves the dynamic graph as it is, a second call processes the same
    key as the first, with the same counter and the same snapshot. *)
Theorem evaluate_again_same_snapshot (s : State) :
  (∀ e, dyn_graph (super_evaluate e).2 = dyn_graph e) →
  run_events super_evaluate (evaluate super_evaluate s).2 =
  run_events super_evaluate s.
Proof.
  intros Hkeep. rewrite !run_events_eq.
  destruct (dyn_graph (self s)) as [|[time snapshot] rest] eqn:Hg.
  - rewrite (evaluate_on_empty s Hg). simpl. by rewrite Hg.
  - rewrite (evaluate_run s time snapshot rest Hg). cbn [snd self].
    rewrite Hkeep. cbn [set_data set_iteration dyn_graph]. by rewrite Hg.
Qed.
End EvaluatorEdges.

(** ** The samples of [transform_data] *)

Section SampleFacts.
Context {W : Type} `{EqDecision W} (zero : W).
Import Sparse.

Lemma NoDup_nonzero_row r c (row : list W) :
  NoDup (nonzero_row zero r c row).
Proof.
  revert c; induction row as [|v row IH]; intros c; simpl;
    [apply NoDup_nil_2|].
  destruct (decide (v = zero)); [apply IH|].
  apply NoDup_cons. split; [|apply IH].
  rewrite elem_of_nonzero_row. intros (_ & k & w & Hk & _). lia.
Qed.

Lemma NoDup_nonzero_from r (adj : list (list W)) :
  NoDup (nonzero_from zero r adj).
Proof.
  revert r; induction adj as [|row adj IH]; intros r; simpl;
    [apply NoDup_nil_2|].
  apply NoDup_app. split_and!; [apply NoDup_nonzero_row| |apply IH].
  intros [i j]. rewrite elem_of_nonzero_row, elem_of_nonzero_from.
  intros (-> & _) (k & v & Hk & _). lia.
Qed.

Lemma lookup_transpose (a : list (nat * nat)) k r c :
  (transpose a).1 !! k = Some r → (transpose a).2 !! k = Some c →
  a !! k = Some (r, c).
Proof.
  unfold transpose. cbn [fst snd].
  change (map fst a) with (fst <$> a). change (map snd a) with (snd <$> a).
  rewrite !list_lookup_fmap. destruct (a !! k) as [[r' c']|]; [|done].
  simpl. by intros [= ->] [= ->].
Qed.

(** X10: the sample [transform_data] builds from a graph keeps its
    features and label and lists each non-zero entry of the adjacency
    exactly once as an edge: the [k]-th column of [edge_index] is the
    position of a non-zero entry and the [k]-th edge attribute is that
    entry, every non-zero entry has its column, and no column occurs
    twice. *)
Theorem sample_edges_sound (xi adji : list (list W)) (yi : Z) :
  let d := AdaptiveGCE.make_sample zero xi adji yi in
  AdaptiveGCE.x d = xi ∧ AdaptiveGCE.y d = yi ∧
  (∀ k r c,
     (AdaptiveGCE.edge_index d).1 !! k = Some r →
     (AdaptiveGCE.edge_index d).2 !! k = Some c →
     ∃ w, get2 adji r c = Some w ∧ w ≠ zero ∧
          AdaptiveGCE.edge_attr d !! k = Some w) ∧
  (∀ r c w, get2 adji r c = Some w → w ≠ zero →
     ∃ k, (AdaptiveGCE.edge_index d).1 !! k = Some r ∧
          (AdaptiveGCE.edge_index d).2 !! k = Some c) ∧
  NoDup (zip (AdaptiveGCE.edge_index d).1 (AdaptiveGCE.edge_index d).2).
Proof.
  cbv zeta. unfold AdaptiveGCE.make_sample.
  cbn [AdaptiveGCE.x AdaptiveGCE.y AdaptiveGCE.edge_index
       AdaptiveGCE.edge_attr].
  split_and!; [done|done| | |].
  - intros k r c Hr Hc.
    pose proof (lookup_transpose _ _ _ _ Hr Hc) as Hk.
    assert (Hin : (r, c) ∈ nonzero zero adji)
      by (eapply list_elem_of_lookup_2; eauto).
    apply elem_of_nonzero in Hin as (w & Hw & Hnz).
    exists w. split_and!; [done|done|].
    unfold gather. change (map ?f ?l) with (f <$> l).
    rewrite list_lookup_fmap, Hk. simpl. by rewrite Hw.
  - intros r c w Hw Hnz.
    assert (Hin : (r, c) ∈ nonzero zero adji)
      by (apply elem_of_nonzero; eauto).
    apply list_elem_of_lookup_1 in Hin as [k Hk]. exists k.
    unfold transpose. cbn [fst snd].
    change (map fst ?l) with (fst <$> l). change (map snd ?l) with (snd <$> l).
    rewrite !list_lookup_fmap, Hk. done.
  - unfold transpose. cbn [fst snd].
    change (map fst ?l) with (l.*1). change (map snd ?l) with (l.*2).
    rewrite zip_fst_snd. apply NoDup_nonzero_from.
Qed.
End SampleFacts.

(** ** [transform_data]: failures, loaders, checkpoint names *)

Section FirstOccurrences.
Import Ensemble.

Lemma first_occurrences_from (ks seen : list Z) :
  NoDup seen →
  NoDup (fold_left (fun seen k => if decide (k ∈ seen) then seen
                                  else seen ++ [k]) ks seen) ∧
  ∀ k, k ∈ fold_left (fun seen k => if decide (k ∈ seen) then seen
                                    else seen ++ [k]) ks seen
       ↔ k ∈ seen ∨ k ∈ ks.
Proof.
  revert seen; induction ks as [|k0 ks IH]; intros seen Hnd; simpl.
  - split; [done|]. intros k. rewrite elem_of_nil. naive_solver.
  - destruct (decide (k0 ∈ seen)) as [Hin|Hin].
    + destruct (IH seen Hnd) as [H1 H2]. split; [done|].
      intros k. rewrite H2, elem_of_cons. naive_solver.
    + assert (Hnd' : NoDup (seen ++ [k0])).
      { apply NoDup_app. split_and!; [done| |apply NoDup_singleton].
        intros x Hx ->%list_elem_of_singleton. done. }
      destruct (IH _ Hnd') as [H1 H2]. split; [done|].
      intros k. rewrite H2, elem_of_app, list_elem_of_singleton, elem_of_cons.
      naive_solver.
Qed.

Lemma dict_keys_from_keys {V} (ks : list Z) (v : V) :
  Dict.keys (Dict.from_keys ks v) = first_occurrences ks.
Proof.
  unfold Dict.from_keys, first_occurrences.
  assert (Hgen : ∀ d : list (Z * V),
            Dict.keys (fold_left (fun d k => Dict.set d k v) ks d) =
            fold_left (fun seen k => if decide (k ∈ seen) then seen
                                     else seen ++ [k]) ks (Dict.keys d)).
  { induction ks as [|k ks IH]; intros d; simpl; [done|].
    rewrite IH. by rewrite dict_keys_set. }
  apply (Hgen []).
Qed.
End FirstOccurrences.

Section TransformFacts.
Context {W Params OptState Loss : Type} `{EqDecision W}
        `{!TorchOps W Params OptState Loss}.
Context (zero : W).
Import AdaptiveGCE Ensemble.

Local Abbreviation State := (AdaptiveGCE.State W Params OptState).
Local Abbreviation Data := (AdaptiveGCE.Data W).
Local Abbreviation DataLoader := (AdaptiveGCE.DataLoader W).
Local Abbreviation Inst := (Dataset.DataInstance W).

Lemma index_raises {A} (xs : list A) i e : index xs i = Raise e → e = IndexError.
Proof.
  unfold index. destruct (norm_index _ _) as [k|]; [|by intros [= <-]].
  destruct (xs !! k); [done|by intros [= <-]].
Qed.

Lemma take_indices_raises {A} (xs : list A) indices e :
  take_indices xs indices = Raise e → e = IndexError.
Proof.
  induction indices as [|i rest IH]; simpl; [done|].
  destruct (index xs i) as [a|e'] eqn:Hi.
  - destruct (take_indices xs rest); [done|]. intros [= <-]. by apply IH.
  - intros [= <-]. by eapply index_raises.
Qed.


Lemma fill_classes_raises
    (rows : list (list (list W) * list (list W) * Z))
    (d : list (Z * list Data)) e :
  fill_classes zero d rows = Raise e → e = KeyError.
Proof.
  revert d; induction rows as [|[[xi adji] yi] rows IH]; intros d; simpl;
    [done|].
  destruct (Dict.get d yi) as [l|e'] eqn:Hg; [apply IH|].
  intros [= <-]. clear IH. induction d as [|[k v] d IHd]; simpl in Hg.
  - by injection Hg.
  - destruct (decide (k = yi)); [done|]. by apply IHd.
Qed.

Lemma class_partitions_unfold (self : AdaptiveGCE.t Params OptState)
    (ds : Dataset.t W) :
  class_partitions zero self ds =
  match Dataset.get_split_indices ds !! fold_id self with
  | None => Raise KeyError
  | Some split =>
      match take_indices (Dataset.instances ds) (Dataset.train split) with
      | Ok selected =>
          fill_classes zero (Dict.from_keys (Dataset.get_classes ds) [])
            (map (fun i => (Dataset.features i, Dataset.to_numpy_array i,
                            Dataset.graph_label i)) selected)
      | Raise e => Raise e
      end
  end.
Proof.
  unfold class_partitions.
  destruct (Dataset.get_split_indices ds !! fold_id self) as [split|];
    [|done].
  rewrite !take_indices_map.
  destruct (take_indices (Dataset.instances ds) (Dataset.train split))
    as [sel|e]; simpl; [|done].
  by rewrite zip_instances.
Qed.

Lemma transform_data_raises (self : AdaptiveGCE.t Params OptState)
    (ds : Dataset.t W) e :
  transform_data zero self ds = Raise e → e = KeyError ∨ e = IndexError.
Proof.
  unfold transform_data. rewrite class_partitions_unfold.
  destruct (Dataset.get_split_indices ds !! fold_id self) as [split|];
    [|intros [= <-]; by left].
  destruct (take_indices _ _) as [sel|e0] eqn:Hsel.
  - destruct (fill_classes _ _ _) as [d|e1] eqn:Hfill; [done|].
    intros [= <-]. left. by eapply fill_classes_raises.
  - intros [= <-]. right. by eapply take_indices_raises.
Qed.


(** X9: when [transform_data] returns, it returns one loader per
    distinct class label of [get_classes()], in the order of first
    occurrence: a label listed twice gives no second loader, and the
    position of a loader is the position of its class among the distinct
    labels, not the label itself. *)
Theorem loaders_follow_classes (self : AdaptiveGCE.t Params OptState)
    (ds : Dataset.t W) (data_dict_cls : list (Z * list Data))
    (loaders : list DataLoader) :
  class_partitions zero self ds = Ok data_dict_cls →
  transform_data zero self ds = Ok loaders →
  Dict.keys data_dict_cls = first_occurrences (Dataset.get_classes ds) ∧
  map dataset loaders = Dict.values data_dict_cls ∧
  length loaders = length (first_occurrences (Dataset.get_classes ds)) ∧
  NoDup (first_occurrences (Dataset.get_classes ds)) ∧
  ∀ c, c ∈ first_occurrences (Dataset.get_classes ds)
       ↔ c ∈ Dataset.get_classes ds.
Proof.
  intros Hcp. unfold transform_data. rewrite Hcp. intros [= <-].
  rewrite class_partitions_unfold in Hcp.
  destruct (Dataset.get_split_indices ds !! fold_id self); [|done].
  destruct (take_indices _ _); [|done].
  apply fill_classes_inv in Hcp as (Hkeys & _ & _).
  rewrite dict_keys_from_keys in Hkeys.
  destruct (first_occurrences_from (Dataset.get_classes ds) [])
    as [Hnd Hel]; [apply NoDup_nil_2|].
  split_and!; try done.
  - unfold Dict.values. rewrite map_map. done.
  - rewrite length_map, <- Hkeys. unfold Dict.keys. by rewrite length_map.
  - intros c. unfold first_occurrences. rewrite Hel, elem_of_nil.
    naive_solver.
Qed.

Lemma omap_lookup_seq {A} (l : list A) :
  omap (fun i => l !! i) (seq 0 (length l)) = l.
Proof.
  assert (Hgen : ∀ pre, omap (fun i => (pre ++ l) !! i)
                          (seq (length pre) (length l)) = l).
  { induction l as [|a l IH]; intros pre; simpl; [done|].
    rewrite list_lookup_middle by done. f_equal.
    specialize (IH (pre ++ [a])). rewrite length_app in IH. simpl in IH.
    rewrite Nat.add_1_r in IH. rewrite <- IH at 2.
    apply list_omap_ext.
    apply Forall_Forall2_diag, Forall_forall. intros i _.
    by rewrite <- app_assoc. }
  apply (Hgen []).
Qed.

(** One pass over a loader yields every sample of its collection exactly
    once: shuffling neither drops nor repeats a sample. *)
Lemma loader_items_perm (dl : DataLoader) (seed : nat) :
  loader_items dl seed ≡ₚ dataset dl.
Proof.
  unfold loader_items.
  rewrite <- (omap_lookup_seq (dataset dl)) at 3.
  destruct (shuffle dl); [|done].
  by rewrite randperm_perm.
Qed.

(** X11: the checkpoint identities of [fit] and [save_autoencoder] do
    not collide: for one explainer and dataset, different fold ids give
    different checkpoint directories, different classes give different
    checkpoint files, and no checkpoint file is the directory itself. *)
Theorem checkpoint_identities_distinct (self : AdaptiveGCE.t Params OptState)
    (ds : Dataset.t W) :
  (∀ fold1 fold2,
     explainer_uri self ds fold1 = explainer_uri self ds fold2 →
     fold1 = fold2) ∧
  (∀ fold cls1 cls2,
     checkpoint_path self ds fold cls1 = checkpoint_path self ds fold cls2 →
     cls1 = cls2) ∧
  (∀ fold cls, checkpoint_path self ds fold cls ≠ explainer_uri self ds fold).
Proof.
  split_and!.
  - intros fold1 fold2. unfold explainer_uri, explainer_name, Os.join.
    cbn [fold_left]. unfold Os.join2.
    assert (Hs : ∀ fold : Z,
              Os.startswith_sep
                (class_name self +:+ "_fit_on_" +:+ Dataset.name ds
                   +:+ "_fold_id_" +:+ pretty fold) =
              Os.startswith_sep (class_name self +:+ "_")).
    { intros fold. by destruct (class_name self). }
    rewrite !Hs.
    destruct (Os.startswith_sep (class_name self +:+ "_")),
             (bool_decide (explainer_store_path self = "")
              || Os.endswith_sep (explainer_store_path self));
      intros Heq;
      repeat match type of Heq with
             | ?p +:+ _ = ?p +:+ _ => apply (inj (String.app p)) in Heq
             end;
      by apply (inj pretty) in Heq.
  - intros fold cls1 cls2. unfold checkpoint_path, Os.join; simpl.
    apply join2_checkpoint_inj.
  - intros fold cls. apply checkpoint_path_ne_uri.
Qed.
End TransformFacts.

(** ** The units of the ensemble *)

Section UnitFacts.
Context {W Params OptState Loss : Type} `{EqDecision W}
        `{!TorchOps W Params OptState Loss}.
Context (zero : W).
Import AdaptiveGCE Ensemble.

Local Abbreviation State := (AdaptiveGCE.State W Params OptState).
Local Abbreviation Data := (AdaptiveGCE.Data W).
Local Abbreviation DataLoader := (AdaptiveGCE.DataLoader W).
Local Abbreviation Event := (AdaptiveGCE.Event W).

Implicit Types (s : State).

Lemma index_nat {A} (l : list A) (n : nat) :
  index l (Z.of_nat n) =
  match l !! n with Some a => Ok a | None => Raise IndexError end.
Proof.
  unfold index, norm_index.
  destruct (decide (0 <= Z.of_nat n < Z.of_nat (length l))) as [Hin|Hout].
  - by rewrite Nat2Z.id.
  - rewrite decide_False by lia. by rewrite lookup_ge_None_2 by lia.
Qed.

Lemma only_unit_refl cls s : only_unit cls s s.
Proof. split; [done|]. by intros j _. Qed.

Lemma only_unit_trans cls s1 s2 s3 :
  only_unit cls s1 s2 → only_unit cls s2 s3 → only_unit cls s1 s3.
Proof.
  intros [[Ha Hb] H1] [[Hc Hd] H2]. split; [split; congruence|].
  intros j Hj. destruct (H1 j Hj) as [? ?], (H2 j Hj) as [? ?].
  split; congruence.
Qed.

Lemma keeps_pure {A} cls (m : M State A) :
  (∀ s, self (m s).2 = self s) → keeps (only_unit cls) m.
Proof.
  intros Hm s r s' Hrun. specialize (Hm s). rewrite Hrun in Hm.
  simpl in Hm. unfold only_unit, same_sizes, same_unit. by rewrite Hm.
Qed.

Lemma keeps_bind {A B} cls (m : M State A) (f : A -> M State B) :
  keeps (only_unit cls) m → (∀ a, keeps (only_unit cls) (f a)) →
  keeps (only_unit cls) (bind m f).
Proof.
  intros Hm Hf s r s' Hrun.
  apply bind_inv in Hrun as [(a & s1 & H1 & H2)|(e & H1 & _)].
  - eapply only_unit_trans; [eapply Hm|eapply Hf]; eauto.
  - eapply Hm; eauto.
Qed.

Lemma keeps_for_each {A} cls (xs : list A) (body : A -> M State unit) :
  (∀ x, keeps (only_unit cls) (body x)) →
  keeps (only_unit cls) (for_each xs body).
Proof.
  intros Hb. induction xs as [|x xs IH]; simpl.
  - by apply keeps_pure.
  - apply keeps_bind; [apply Hb|by intros _].
Qed.

Lemma keeps_update_autoencoder cls f :
  keeps (only_unit cls) (update_autoencoder cls f : M State unit).
Proof.
  intros s r s'. unfold update_autoencoder, modify. intros [= _ <-].
  unfold only_unit, same_sizes, same_unit. simpl.
  rewrite length_alter. split; [done|].
  intros j Hj. by rewrite list_lookup_alter_ne.
Qed.

Lemma keeps_put_optimiser cls o :
  keeps (only_unit cls) (put_optimiser cls o : M State unit).
Proof.
  intros s r s'. unfold put_optimiser, modify. intros [= _ <-].
  unfold only_unit, same_sizes, same_unit. simpl.
  rewrite length_insert. split; [done|].
  intros j Hj. by rewrite list_lookup_insert_ne.
Qed.

Ltac ku :=
  repeat first
    [ apply keeps_update_autoencoder | apply keeps_put_optimiser
    | (apply keeps_bind; [|intros ?])
    | (apply keeps_for_each; intros ?)
    | (apply keeps_pure; intros ?; reflexivity) ].

Lemma keeps_train_item cls (item : Data) :
  keeps (only_unit cls) (train_item cls item : M State R).
Proof. unfold train_item. cbv zeta. ku. Qed.

Lemma keeps_train_items cls (items : list Data) :
  keeps (only_unit cls) (train_items cls items : M State _).
Proof.
  induction items as [|item items IH]; cbn [train_items].
  - by apply keeps_pure.
  - apply keeps_bind; [apply keeps_train_item|intros l].
    apply keeps_bind; [exact IH|intros ls]. by apply keeps_pure.
Qed.

Lemma keeps_train_class cls (dl : DataLoader) :
  keeps (only_unit cls) (train_class cls dl : M State unit).
Proof.
  unfold train_class.
  apply keeps_bind; [by apply keeps_pure|intros optimiser].
  apply keeps_bind; [by apply keeps_pure|intros autoencoder].
  apply keeps_bind; [apply keeps_update_autoencoder|intros _].
  apply keeps_bind; [by apply keeps_pure|intros s0].
  apply keeps_for_each. intros epoch. unfold train_epoch.
  apply keeps_bind; [by apply keeps_pure|intros seed].
  apply keeps_bind; [apply keeps_train_items|intros losses].
  by apply keeps_pure.
Qed.

Lemma save_autoencoder_self model cls s :
  self (save_autoencoder model cls s).2 = self s.
Proof.
  unfold save_autoencoder, bind, get, lift, modify, emit. cbv zeta.
  by destruct (Os.write_file _ _ _).
Qed.

Lemma keeps_fit_class cls (dl : DataLoader) :
  keeps (only_unit cls) (fit_class (cls, dl) : M State unit).
Proof.
  unfold fit_class. cbn [fst snd].
  apply keeps_bind; [apply keeps_train_class|intros _].
  apply keeps_bind; [by apply keeps_pure|intros autoencoder].
  apply keeps_pure. intros s. apply save_autoencoder_self.
Qed.

(** X13: training and saving the class [cls] never touches the unit of
    another class: the ensemble keeps its size, and the autoencoder and
    the optimiser of every other class are the same afterwards, however
    the round ends. *)
Theorem training_touches_own_unit cls (dl : DataLoader) s :
  let s' := (fit_class (cls, dl) s).2 in
  length (autoencoders (self s')) = length (autoencoders (self s)) ∧
  length (optimisers (self s')) = length (optimisers (self s)) ∧
  ∀ j, j ≠ cls →
    autoencoders (self s') !! j = autoencoders (self s) !! j ∧
    optimisers (self s') !! j = optimisers (self s) !! j.
Proof.
  cbv zeta.
  destruct (keeps_fit_class cls dl s _ _ (surjective_pairing _))
    as [[Ha Ho] Hunits].
  split_and!; [done|done|]. intros j Hj. apply (Hunits j Hj).
Qed.

(** The loop of [__fit] over the classes [k, k + 1, ...] keeps the size
    of the ensemble and the units of the classes it does not reach. *)
Lemma fit_loop_units (loaders : list DataLoader) k s r s' :
  for_each (imap (fun i dl => ((k + i)%nat, dl)) loaders) fit_class s
    = (r, s') →
  same_sizes s s' ∧
  ∀ j, ¬ (k <= j < k + length loaders)%nat → same_unit j s s'.
Proof.
  revert k s; induction loaders as [|dl loaders IH]; intros k s; simpl.
  - intros [= _ <-]. by split.
  - intros Hrun.
    assert (Hstep : ∀ s1 r1, fit_class (k, dl) s = (r1, s1) →
              same_sizes s s1 ∧
              ∀ j, ¬ (k <= j < k + S (length loaders))%nat → same_unit j s s1).
    { intros s1 r1 Hc. destruct (keeps_fit_class k dl s _ _ Hc) as [Hs Hu].
      split; [done|]. intros j Hj. apply Hu. lia. }
    apply bind_inv in Hrun as [([] & s1 & Hc & Hrun)|(e & Hc & _)];
      rewrite Nat.add_0_r in Hc; [|by eapply Hstep].
    destruct (Hstep _ _ Hc) as [[Ha Ho] Hu].
    rewrite (imap_ext _ (fun i dl => ((S k + i)%nat, dl))) in Hrun
      by (intros; simpl; f_equal; lia).
    destruct (IH _ _ Hrun) as [[Ha' Ho'] Hu'].
    split; [split; congruence|].
    intros j Hj. destruct (Hu j Hj) as [? ?], (Hu' j) as [? ?]; [lia|].
    split; congruence.
Qed.
End UnitFacts.

(** ** [fit]: failures before and during training *)

Section FitEdges.
Context {W Params OptState Loss : Type} `{EqDecision W}
        `{!TorchOps W Params OptState Loss}.
Context (zero : W).
Import AdaptiveGCE Ensemble.

Local Abbreviation State := (AdaptiveGCE.State W Params OptState).
Local Abbreviation Data := (AdaptiveGCE.Data W).
Local Abbreviation DataLoader := (AdaptiveGCE.DataLoader W).
Local Abbreviation Event := (AdaptiveGCE.Event W).

Implicit Types (s : State).

(** [fit] on a state in which it creates the checkpoint directory. *)
Lemma fit_trains {Oracle} (oracle : Oracle) ds fold s fs1 :
  Os.mkdir (fs s) (explainer_uri (self s) ds fold) = Ok fs1 →
  fit zero oracle ds fold s =
  match transform_data zero (self s) ds with
  | Ok loaders =>
      bind (for_each (enumerate loaders) fit_class)
        (fun _ => modify (set_self (with_fitted true)))
        (training_start s ds fold)
  | Raise e => (Raise e, training_start s ds fold)
  end.
Proof.
  intros Hmk. pose proof (mkdir_inv _ _ _ Hmk) as [-> Hno].
  rewrite fit_unfold, Hno, Hmk.
  assert (Hfit : __fit zero oracle ds
                   (set_fs (<[explainer_uri (self s) ds fold := Os.Dir]> (fs s))
                      (fit_entered s ds fold)) =
                 match transform_data zero (self s) ds with
                 | Ok loaders =>
                     for_each (enumerate loaders) fit_class
                       (training_start s ds fold)
                 | Raise e => (Raise e, training_start s ds fold)
                 end).
  { unfold __fit.
    erewrite bind_ok; [|reflexivity].
    erewrite bind_ok; [|reflexivity].
    unfold training_start, bind, lift. cbn [self set_fs fit_entered fs trace rng].
    change (transform_data zero (with_name _ (self s)) ds)
      with (transform_data zero (self s) ds).
    rewrite <- app_assoc. cbn [app].
    by destruct (transform_data zero (self s) ds). }
  unfold bind at 1. rewrite Hfit.
  by destruct (transform_data zero (self s) ds).
Qed.

Lemma train_class_no_optimiser cls (dl : DataLoader) s :
  (length (optimisers (self s)) <= cls)%nat →
  train_class cls dl s = (Raise IndexError, s).
Proof.
  intros Hlen. unfold train_class. apply bind_raise.
  unfold get_optimiser. by rewrite index_nat, lookup_ge_None_2.
Qed.

(** The loop of [__fit] over more loaders than the ensemble has
    optimisers does not return; when the rounds for the classes the
    ensemble has units for return, it raises [IndexError] at the first
    class without a unit. *)
Lemma fit_loop_raises (loaders : list DataLoader) s :
  (length (optimisers (self s)) < length loaders)%nat →
  ∃ e s', for_each (enumerate loaders) fit_class s = (Raise e, s') ∧
    ∀ s2, for_each (enumerate (take (length (optimisers (self s))) loaders))
            fit_class s = (Ok tt, s2) →
          e = IndexError ∧ s' = s2.
Proof.
  intros Hlen. set (c := length (optimisers (self s))) in *.
  destruct (lookup_lt_is_Some_2 loaders c Hlen) as [dl Hdl].
  rewrite (enumerate_split _ _ _ Hdl), for_each_app.
  destruct (for_each (enumerate (take c loaders)) fit_class s)
    as [[[]|e] s1] eqn:Hpre.
  - unfold enumerate in Hpre.
    destruct (fit_loop_units (take c loaders) 0 _ _ _ Hpre) as [[_ Ho] _].
    exists IndexError, s1. split; [|by intros s2 [= <-]].
    cbn [for_each]. apply bind_raise. unfold fit_class. cbn [fst snd].
    apply bind_raise. apply train_class_no_optimiser. lia.
  - exists e, s1. split; [done|]. by intros s2 [=].
Qed.

(** X14: when the dataset gives more loaders than the explainer has
    optimisers, a call of [fit] that finds no checkpoint directory never
    returns: it raises and leaves [_fitted] as it was; when the directory
    is created and the classes the explainer has units for train and
    save, the exception is the [IndexError] of [self.optimisers[cls]],
    raised before a sample of the surplus class is touched. *)
Theorem fit_raises_on_surplus_class {Oracle} (oracle : Oracle) ds fold s
    (loaders : list DataLoader) :
  Os.path_exists (fs s) (explainer_uri (self s) ds fold) = false →
  transform_data zero (self s) ds = Ok loaders →
  (length (optimisers (self s)) < length loaders)%nat →
  ∃ e s',
    fit zero oracle ds fold s = (Raise e, s') ∧
    _fitted (self s') = _fitted (self s) ∧
    ∀ fs1 s2,
      Os.mkdir (fs s) (explainer_uri (self s) ds fold) = Ok fs1 →
      for_each (enumerate (take (length (optimisers (self s))) loaders))
        fit_class (training_start s ds fold) = (Ok tt, s2) →
      e = IndexError ∧ s' = s2.
Proof.
  intros Hno Htd Hlen.
  destruct (Os.mkdir (fs s) (explainer_uri (self s) ds fold))
    as [fs1|e] eqn:Hmk.
  - rewrite (fit_trains oracle ds fold s fs1 Hmk), Htd.
    destruct (fit_loop_raises loaders (training_start s ds fold) Hlen)
      as (e & s' & Hloop & Hidx).
    exists e, s'. split_and!.
    + by apply bind_raise.
    + unfold enumerate in Hloop.
      apply (within_fit_loop loaders 0) in Hloop.
      destruct Hloop as (_ & _ & _ & _ & _ & Hna & _).
      by destruct (Hna eq_refl) as [_ ->].
    + intros fs2 s2 _ Hpre. by apply Hidx.
  - exists e, (fit_entered s ds fold). rewrite fit_unfold, Hno, Hmk.
    split_and!; [done|done|]. by intros fs1 s2 [=].
Qed.

(** X15: [fit] creates the checkpoint directory before the dataset is
    looked at.  When [transform_data] raises - a missing fold (also when
    the fold passed to [fit] has a split but the fold of the explainer has
    none), an index out of range, a label that is not a class - the
    exception leaves [fit] with the empty directory in place, nothing
    trained and [_fitted] as it was. *)
Theorem fit_validates_after_mkdir {Oracle} (oracle : Oracle) ds fold s
    fs1 e :
  Os.mkdir (fs s) (explainer_uri (self s) ds fold) = Ok fs1 →
  transform_data zero (self s) ds = Raise e →
  fit zero oracle ds fold s = (Raise e, training_start s ds fold) ∧
  (e = KeyError ∨ e = IndexError) ∧
  fs (training_start s ds fold) =
    <[explainer_uri (self s) ds fold := Os.Dir]> (fs s) ∧
  Os.path_exists (fs (training_start s ds fold))
    (explainer_uri (self s) ds fold) = true ∧
  trace (training_start s ds fold) = trace s ++ [EvFit fold; EvTrain] ∧
  autoencoders (self (training_start s ds fold)) = autoencoders (self s) ∧
  _fitted (self (training_start s ds fold)) = _fitted (self s).
Proof.
  intros Hmk Htd. rewrite (fit_trains oracle ds fold s fs1 Hmk), Htd.
  split_and!; try done.
  - by eapply transform_data_raises.
  - apply bool_decide_eq_true. simpl. rewrite lookup_insert_eq. by eexists.
Qed.
End FitEdges.

(** ** Checkpoints *)

Section CheckpointFacts.
Context {W Params OptState Loss : Type} `{EqDecision W}
        `{!TorchOps W Params OptState Loss}.
Context (zero : W).
Import AdaptiveGCE Ensemble.

Local Abbreviation State := (AdaptiveGCE.State W Params OptState).
Local Abbreviation Data := (AdaptiveGCE.Data W).
Local Abbreviation DataLoader := (AdaptiveGCE.DataLoader W).
Local Abbreviation Event := (AdaptiveGCE.Event W).

Implicit Types (s : State).

(** [save_autoencoder], by the outcome of the write. *)
Lemma save_autoencoder_unfold (model : GAE.t Params) cls s :
  save_autoencoder model cls s =
  match Os.write_file (fs s) (ckpt_of s cls) (GAE.state_dict model) with
  | Ok fs' => (Ok tt, {| self := self s; fs := fs';
                         trace := trace s ++ [EvSave cls (ckpt_of s cls)];
                         rng := rng s |})
  | Raise e => (Raise e, s)
  end.
Proof.
  unfold save_autoencoder, bind, get, lift, modify, emit, ckpt_of. cbv zeta.
  by destruct (Os.write_file _ _ _).
Qed.

(** X12: [save_autoencoder] writes the weights of the model it is given
    to the checkpoint file of the class: when it returns, reading the
    file gives these weights back, every other path is as it was and the
    explainer is unchanged; when the write fails, it raises the error of
    the write and changes nothing. *)
Theorem save_autoencoder_stores_weights (model : GAE.t Params) cls s :
  match save_autoencoder model cls s with
  | (Ok _, s') =>
      Os.read_file (fs s') (ckpt_of s cls) = Ok (GAE.state_dict model) ∧
      (∀ p, p ≠ ckpt_of s cls → fs s' !! p = fs s !! p) ∧
      self s' = self s ∧
      trace s' = trace s ++ [EvSave cls (ckpt_of s cls)]
  | (Raise e, s') =>
      s' = s ∧
      Os.write_file (fs s) (ckpt_of s cls) (GAE.state_dict model) = Raise e
  end.
Proof.
  rewrite save_autoencoder_unfold.
  destruct (Os.write_file _ _ _) as [fs'|e] eqn:Hw.
  - apply write_file_inv in Hw as ->. cbn [fs self trace].
    split_and!; try done.
    + unfold Os.read_file. by rewrite lookup_insert_eq.
    + intros p Hp. by rewrite lookup_insert_ne.
  - done.
Qed.

(** A round of the loop that returns leaves in the checkpoint file of
    its class the weights its autoencoder has then. *)
Lemma fit_class_ok_saves cls (dl : DataLoader) s s1 :
  fit_class (cls, dl) s = (Ok tt, s1) →
  ∃ ae, autoencoders (self s1) !! cls = Some ae ∧
        fs s1 !! ckpt_of s cls = Some (Os.File (GAE.state_dict ae)).
Proof.
  unfold fit_class; cbn [fst snd]. intros Hrun.
  apply bind_inv in Hrun as [([] & s' & Ht & Hrun)|(e & _ & [=])].
  apply sw_train_class in Ht.
  pose proof (ckpt_of_within (fp_train_class cls) _ _ eq_refl Ht) as Hck.
  apply bind_inv in Hrun as [(ae & s'' & Hg & Hrun)|(e & _ & [=])].
  unfold get_autoencoder in Hg. rewrite index_nat in Hg.
  destruct (autoencoders (self s') !! cls) as [ae'|] eqn:Hae; [|done].
  injection Hg as -> <-.
  rewrite save_autoencoder_unfold in Hrun.
  destruct (Os.write_file _ _ _) as [fs'|] eqn:Hw; [|done].
  apply write_file_inv in Hw as ->. injection Hrun as <-.
  exists ae. cbn [self fs]. split; [done|].
  rewrite Hck. apply lookup_insert_eq.
Qed.

(** When the rounds for the classes [k .. k + n - 1] have returned, each
    checkpoint file holds the weights its class has at the end. *)
Lemma fit_loop_ok_saves (loaders : list DataLoader) k s s2 :
  for_each (imap (fun i dl => ((k + i)%nat, dl)) loaders) fit_class s
    = (Ok tt, s2) →
  ∀ j, (k <= j < k + length loaders)%nat →
    ∃ ae, autoencoders (self s2) !! j = Some ae ∧
          fs s2 !! ckpt_of s j = Some (Os.File (GAE.state_dict ae)).
Proof.
  revert k s; induction loaders as [|dl loaders IH]; intros k s; simpl.
  - intros _ j Hj. lia.
  - intros Hrun j Hj.
    apply bind_inv in Hrun as [([] & s1 & Hc & Hrun)|(e & _ & [=])].
    rewrite Nat.add_0_r in Hc.
    rewrite (imap_ext _ (fun i dl => ((S k + i)%nat, dl))) in Hrun
      by (intros; simpl; f_equal; lia).
    pose proof (within_fit_class (fun c => c = k) _ _ _ _ _ eq_refl Hc) as H1.
    pose proof (ckpt_of_within (fp_training _ _) _ _ eq_refl H1) as Hck.
    destruct (decide (j = k)) as [->|Hne].
    + apply fit_class_ok_saves in Hc as (ae & Hae & Hfile).
      destruct (fit_loop_units _ _ _ _ _ Hrun) as [_ Hu].
      destruct (Hu k) as [Hsame _]; [lia|].
      apply within_fit_loop in Hrun.
      destruct Hrun as (_ & _ & _ & _ & _ & _ & Hfs & _).
      exists ae. split; [by rewrite Hsame|].
      rewrite Hfs; [done|]. simpl.
      intros (c & Hc & Heq). rewrite Hck in Heq.
      apply ckpt_of_inj in Heq. lia.
    + rewrite <- Hck. apply (IH (S k) s1 Hrun). lia.
Qed.

(** X17: after a call of [fit] that trained and returned, the checkpoint
    file of every class with a loader holds exactly the weights the
    explainer has for that class in memory. *)
Theorem checkpoints_hold_final_weights {Oracle} (oracle : Oracle) ds fold
    s s' (loaders : list DataLoader) :
  Os.path_exists (fs s) (explainer_uri (self s) ds fold) = false →
  transform_data zero (self s) ds = Ok loaders →
  fit zero oracle ds fold s = (Ok tt, s') →
  ∀ j, (j < length loaders)%nat →
    ∃ ae, autoencoders (self s') !! j = Some ae ∧
          Os.read_file (fs s') (checkpoint_path (self s) ds fold j)
            = Ok (GAE.state_dict ae).
Proof.
  intros Hno Htd Hfit j Hj.
  destruct (Os.mkdir (fs s) (explainer_uri (self s) ds fold))
    as [fs1|e] eqn:Hmk.
  2:{ rewrite fit_unfold, Hno, Hmk in Hfit. done. }
  rewrite (fit_trains zero oracle ds fold s fs1 Hmk), Htd in Hfit.
  apply bind_inv in Hfit as [([] & s1 & Hloop & Hfit)|(e & _ & [=])].
  injection Hfit as <-. unfold enumerate in Hloop.
  destruct (fit_loop_ok_saves loaders 0 _ _ Hloop j) as (ae & Hae & Hfile);
    [lia|].
  exists ae. cbn [self fs set_self with_fitted autoencoders].
  split; [done|]. unfold Os.read_file.
  rewrite <- ckpt_of_training_start. by rewrite Hfile.
Qed.
End CheckpointFacts.

(** ** Epochs *)

Section EpochFacts.
Context {W Params OptState Loss : Type} `{EqDecision W}
        `{!TorchOps W Params OptState Loss}.
Context (zero : W).
Import AdaptiveGCE Ensemble.

Local Abbreviation State := (AdaptiveGCE.State W Params OptState).
Local Abbreviation Data := (AdaptiveGCE.Data W).
Local Abbreviation DataLoader := (AdaptiveGCE.DataLoader W).
Local Abbreviation Event := (AdaptiveGCE.Event W).

Implicit Types (s : State).

(** What a returning [train_item] leaves in the trace and draws from the
    generator. *)
Lemma train_item_events cls (item : Data) s l s' :
  train_item cls item s = (Ok l, s') →
  trace s' = trace s ++ [encode_event cls item] ∧
  rng s' = (rng s + 2)%nat ∧ fs s' = fs s.
Proof.
  unfold train_item. cbv zeta.
  unfold bind, update_autoencoder, get_autoencoder, get_optimiser,
    put_optimiser, emit, fresh_seed, lift, modify, ret.
  cbn [self fs trace rng set_self].
  repeat match goal with
         | |- context [match ?x with Ok _ => _ | Raise _ => _ end] =>
             destruct x
         end; intros [= <- <-] || intros [=].
  cbn [self fs trace rng set_self]. split_and!; [done|lia|done].
Qed.

Lemma train_items_events cls (items : list Data) s ls s' :
  train_items cls items s = (Ok ls, s') →
  length ls = length items ∧
  trace s' = trace s ++ map (encode_event cls) items ∧
  rng s' = (rng s + 2 * length items)%nat ∧ fs s' = fs s.
Proof.
  revert s ls; induction items as [|item items IH]; intros s ls;
    cbn [train_items].
  - intros [= <- <-]. simpl. rewrite app_nil_r. split_and!; [done|done|lia|done].
  - intros Hrun.
    apply bind_inv in Hrun as [(l & s1 & Hi & Hrun)|(e & _ & [=])].
    apply bind_inv in Hrun as [(ls' & s2 & Hr & Hrun)|(e & _ & [=])].
    injection Hrun as <- <-.
    apply train_item_events in Hi as (Ht1 & Hr1 & Hf1).
    apply IH in Hr as (Hlen & Ht2 & Hr2 & Hf2).
    simpl. rewrite Ht2, Ht1, Hr2, Hr1, Hf2, Hf1, Hlen, <- app_assoc.
    split_and!; [done|done|lia|done].
Qed.

(** X16: an epoch that completes has called [encode] exactly once for
    every sample of the class, in the order the loader drew, each time
    on the empty feature tensor and the edges of the sample; the line it
    prints averages one loss per sample, and the file system is as it
    was. *)
Theorem epoch_encodes_each_sample_once cls (dl : DataLoader) epoch s s' :
  train_epoch cls dl epoch s = (Ok tt, s') →
  ∃ items losses,
    items ≡ₚ dataset dl ∧
    length losses = length (dataset dl) ∧
    trace s' = trace s ++ map (encode_event cls) items
                 ++ [EvEpoch cls epoch losses] ∧
    rng s' = (rng s + 1 + 2 * length (dataset dl))%nat ∧
    fs s' = fs s.
Proof.
  unfold train_epoch. intros Hrun.
  apply bind_inv in Hrun as [(seed & s1 & Hs & Hrun)|(e & _ & [=])].
  unfold fresh_seed in Hs. injection Hs as <- <-.
  apply bind_inv in Hrun as [(losses & s2 & Hi & Hrun)|(e & _ & [=])].
  apply train_items_events in Hi as (Hlen & Ht & Hr & Hf).
  unfold emit, modify in Hrun. injection Hrun as <-.
  pose proof (loader_items_perm dl (rng s)) as Hperm.
  exists (loader_items dl (rng s)), losses.
  cbn [self fs trace rng] in *.
  rewrite Ht, Hr, Hf, Hlen, <- app_assoc, (Permutation_length Hperm).
  split_and!; [done|done|done|lia|done].
Qed.
End EpochFacts.

(** ** The fold passed to [fit] *)

Section FoldFacts.
Context {W Params OptState Loss : Type} `{EqDecision W}
        `{!TorchOps W Params OptState Loss}.
Context (zero : W).
Import AdaptiveGCE Ensemble.

Local Abbreviation State := (AdaptiveGCE.State W Params OptState).
Local Abbreviation Data := (AdaptiveGCE.Data W).
Local Abbreviation DataLoader := (AdaptiveGCE.DataLoader W).
Local Abbreviation Event := (AdaptiveGCE.Event W).

Implicit Types (s : State).

Lemma oe_bind {A B} (m : M State A) (f : A -> M State B) :
  on_ensemble m → (∀ a, on_ensemble (f a)) → on_ensemble (bind m f).
Proof.
  intros Hm Hf s1 s2 Hs. destruct (Hm s1 s2 Hs) as [Hr Hs'].
  unfold bind. destruct (m s1) as [[a1|e1] s1'], (m s2) as [[a2|e2] s2'];
    simpl in Hr, Hs'; simplify_eq; [by apply Hf|done].
Qed.

Lemma oe_for_each {A} (xs : list A) (body : A -> M State unit) :
  (∀ x, on_ensemble (body x)) → on_ensemble (for_each xs body).
Proof.
  intros Hb. induction xs as [|x xs IH]; simpl.
  - by intros s1 s2 Hs.
  - apply oe_bind; [apply Hb|by intros _].
Qed.

Lemma same_ensemble_refl s : same_ensemble s s.
Proof. by repeat split. Qed.

Lemma same_ensemble_sym s1 s2 : same_ensemble s1 s2 → same_ensemble s2 s1.
Proof. intros (? & ? & ? & ?). by repeat split. Qed.

Lemma same_ensemble_trans s1 s2 s3 :
  same_ensemble s1 s2 → same_ensemble s2 s3 → same_ensemble s1 s3.
Proof.
  intros (? & ? & ? & ?) (? & ? & ? & ?). repeat split; congruence.
Qed.

Lemma oe_ret {A} (a : A) : on_ensemble (ret a : M State A).
Proof. by intros s1 s2 Hs. Qed.

Lemma oe_lift {A} (r : res A) : on_ensemble (lift r : M State A).
Proof. by intros s1 s2 Hs. Qed.

Lemma oe_emit (e : Event) : on_ensemble (emit e : M State unit).
Proof. by intros s1 s2 Hs. Qed.

Lemma oe_fresh_seed : on_ensemble (fresh_seed : M State nat).
Proof.
  intros s1 s2 (Ha & Ho & He & Hr). unfold fresh_seed, same_ensemble.
  cbn. by rewrite Ha, Ho, He, Hr.
Qed.

Lemma oe_get_autoencoder cls : on_ensemble (get_autoencoder cls : M State _).
Proof.
  intros s1 s2 Hs. unfold get_autoencoder. cbn.
  split; [|done]. by destruct Hs as (-> & _).
Qed.

Lemma oe_get_optimiser cls : on_ensemble (get_optimiser cls : M State _).
Proof.
  intros s1 s2 Hs. unfold get_optimiser. cbn.
  split; [|done]. by destruct Hs as (_ & -> & _).
Qed.

Lemma oe_update_autoencoder cls f :
  on_ensemble (update_autoencoder cls f : M State unit).
Proof.
  intros s1 s2 (Ha & Ho & He & Hr).
  unfold update_autoencoder, modify, same_ensemble. cbn.
  by rewrite Ha, Ho, He, Hr.
Qed.

Lemma oe_put_optimiser cls o :
  on_ensemble (put_optimiser cls o : M State unit).
Proof.
  intros s1 s2 (Ha & Ho & He & Hr).
  unfold put_optimiser, modify, same_ensemble. cbn.
  by rewrite Ha, Ho, He, Hr.
Qed.

Ltac oe :=
  repeat first
    [ apply oe_ret | apply oe_lift | apply oe_emit | apply oe_fresh_seed
    | apply oe_get_autoencoder | apply oe_get_optimiser
    | apply oe_update_autoencoder | apply oe_put_optimiser
    | (apply oe_bind; [|intros ?])
    | (apply oe_for_each; intros ?) ].

Lemma oe_train_item cls (item : Data) :
  on_ensemble (train_item cls item : M State R).
Proof. unfold train_item. cbv zeta. oe. Qed.

Lemma oe_train_items cls (items : list Data) :
  on_ensemble (train_items cls items : M State _).
Proof.
  induction items as [|item items IH]; cbn [train_items].
  - apply oe_ret.
  - apply oe_bind; [apply oe_train_item|intros l].
    apply oe_bind; [exact IH|intros ls]. apply oe_ret.
Qed.

Lemma oe_train_epoch cls (dl : DataLoader) epoch :
  on_ensemble (train_epoch cls dl epoch : M State unit).
Proof.
  unfold train_epoch.
  apply oe_bind; [apply oe_fresh_seed|intros seed].
  apply oe_bind; [apply oe_train_items|intros losses]. apply oe_emit.
Qed.

Lemma oe_train_class cls (dl : DataLoader) :
  on_ensemble (train_class cls dl : M State unit).
Proof.
  unfold train_class.
  apply oe_bind; [apply oe_get_optimiser|intros optimiser].
  apply oe_bind; [apply oe_get_autoencoder|intros autoencoder].
  apply oe_bind; [apply oe_update_autoencoder|intros _].
  intros s1 s2 Hs. unfold bind at 1 3. unfold get.
  destruct Hs as (Ha & Ho & He & Hr). rewrite He.
  apply oe_for_each; [intros epoch; apply oe_train_epoch|done].
Qed.

Lemma save_autoencoder_ensemble (model : GAE.t Params) cls s r s' :
  save_autoencoder model cls s = (r, s') → same_ensemble s s'.
Proof.
  rewrite save_autoencoder_unfold.
  destruct (Os.write_file _ _ _); intros [= _ <-]; by repeat split.
Qed.

(** Two rounds for the same class that both return, from states that
    hold the same ensemble, end in states that hold the same ensemble. *)
Lemma fit_class_same_ensemble cls (dl : DataLoader) s1 s2 s1' s2' :
  same_ensemble s1 s2 →
  fit_class (cls, dl) s1 = (Ok tt, s1') →
  fit_class (cls, dl) s2 = (Ok tt, s2') →
  same_ensemble s1' s2'.
Proof.
  intros Hs. unfold fit_class; cbn [fst snd]. intros H1 H2.
  apply bind_inv in H1 as [([] & t1 & Ht1 & H1)|(e & _ & [=])].
  apply bind_inv in H2 as [([] & t2 & Ht2 & H2)|(e & _ & [=])].
  destruct (oe_train_class cls dl s1 s2 Hs) as [_ Ht].
  rewrite Ht1, Ht2 in Ht. cbn [snd] in Ht.
  apply bind_inv in H1 as [(ae1 & u1 & Hg1 & H1)|(e & _ & [=])].
  apply bind_inv in H2 as [(ae2 & u2 & Hg2 & H2)|(e & _ & [=])].
  injection Hg1 as _ <-. injection Hg2 as _ <-.
  apply save_autoencoder_ensemble in H1, H2.
  eapply same_ensemble_trans; [apply same_ensemble_sym; exact H1|].
  eapply same_ensemble_trans; [exact Ht|exact H2].
Qed.

Lemma fit_loop_same_ensemble (rounds : list (nat * DataLoader))
    s1 s2 s1' s2' :
  same_ensemble s1 s2 →
  for_each rounds fit_class s1 = (Ok tt, s1') →
  for_each rounds fit_class s2 = (Ok tt, s2') →
  same_ensemble s1' s2'.
Proof.
  revert s1 s2; induction rounds as [|[cls dl] rounds IH]; intros s1 s2 Hs;
    cbn [for_each].
  - by intros [= <-] [= <-].
  - intros H1 H2.
    apply bind_inv in H1 as [([] & t1 & Hc1 & H1)|(e & _ & [=])].
    apply bind_inv in H2 as [([] & t2 & Hc2 & H2)|(e & _ & [=])].
    eapply IH; [|exact H1|exact H2].
    eapply fit_class_same_ensemble; eauto.
Qed.

(** X18: the fold passed to [fit] only names the checkpoint directory.
    The data trained on are those of the split of the explainer's own
    [fold_id]: two training calls of [fit] from the same state that
    differ only in the fold passed, and that both return, leave the same
    autoencoders and the same optimisers, under different names. *)
Theorem fit_fold_only_names {Oracle} (oracle : Oracle) ds fold1 fold2
    s s1 s2 :
  Os.path_exists (fs s) (explainer_uri (self s) ds fold1) = false →
  Os.path_exists (fs s) (explainer_uri (self s) ds fold2) = false →
  fit zero oracle ds fold1 s = (Ok tt, s1) →
  fit zero oracle ds fold2 s = (Ok tt, s2) →
  autoencoders (self s1) = autoencoders (self s2) ∧
  optimisers (self s1) = optimisers (self s2) ∧
  name (self s1) = explainer_name (self s) ds fold1 ∧
  name (self s2) = explainer_name (self s) ds fold2.
Proof.
  intros Hno1 Hno2 Hfit1 Hfit2.
  assert (Hrun : ∀ fold s',
            Os.path_exists (fs s) (explainer_uri (self s) ds fold) = false →
            fit zero oracle ds fold s = (Ok tt, s') →
            ∃ loaders t,
              transform_data zero (self s) ds = Ok loaders ∧
              for_each (enumerate loaders) fit_class
                (training_start s ds fold) = (Ok tt, t) ∧
              same_ensemble t s' ∧
              name (self s') = explainer_name (self s) ds fold).
  { intros fold s' Hno Hfit.
    destruct (Os.mkdir (fs s) (explainer_uri (self s) ds fold))
      as [fs1|e] eqn:Hmk.
    2:{ rewrite fit_unfold, Hno, Hmk in Hfit. done. }
    rewrite (fit_trains zero oracle ds fold s fs1 Hmk) in Hfit.
    destruct (transform_data zero (self s) ds) as [loaders|e]; [|done].
    apply bind_inv in Hfit as [([] & t & Hloop & Hfit)|(e & _ & [=])].
    injection Hfit as <-. exists loaders, t.
    split_and!; [done|done|by repeat split|].
    unfold enumerate in Hloop. apply (within_fit_loop loaders 0) in Hloop.
    destruct Hloop as (_ & _ & _ & _ & _ & Hna & _).
    destruct (Hna eq_refl) as [Hname _]. cbn. by rewrite Hname. }
  destruct (Hrun fold1 s1 Hno1 Hfit1) as (l1 & t1 & Htd1 & Hl1 & He1 & Hn1).
  destruct (Hrun fold2 s2 Hno2 Hfit2) as (l2 & t2 & Htd2 & Hl2 & He2 & Hn2).
  rewrite Htd1 in Htd2. injection Htd2 as <-.
  assert (Hstart : same_ensemble (training_start s ds fold1)
                     (training_start s ds fold2)) by (by repeat split).
  pose proof (fit_loop_same_ensemble _ _ _ _ _ Hstart Hl1 Hl2) as Ht.
  assert (Hs : same_ensemble s1 s2).
  { eapply same_ensemble_trans; [apply same_ensemble_sym; exact He1|].
    eapply same_ensemble_trans; [exact Ht|exact He2]. }
  destruct Hs as (Ha & Ho & _). by split_and!.
Qed.
End FoldFacts.

(** ** Classes and class indices *)

Section ClassFacts.
Context {W Params OptState Loss : Type} `{EqDecision W}
        `{!TorchOps W Params OptState Loss}.
Context (zero : W).
Import AdaptiveGCE Ensemble.

Local Abbreviation State := (AdaptiveGCE.State W Params OptState).
Local Abbreviation Data := (AdaptiveGCE.Data W).
Local Abbreviation DataLoader := (AdaptiveGCE.DataLoader W).
Local Abbreviation Event := (AdaptiveGCE.Event W).
Local Abbreviation Inst := (Dataset.DataInstance W).

Implicit Types (s : State).

Lemma sw_for_each_in {A} F (xs : list A) (body : A -> M State unit) :
  (∀ x, x ∈ xs → stays_within F (body x)) →
  stays_within F (for_each xs body).
Proof.
  induction xs as [|x xs IH]; intros Hb; simpl.
  - apply sw_ret.
  - apply sw_bind; [apply Hb; by left|intros _].
    apply IH. intros y Hy. apply Hb. by right.
Qed.

Ltac sw :=
  repeat first
    [ apply sw_ret | apply sw_lift | apply sw_get | apply sw_fresh_seed
    | apply sw_get_autoencoder | apply sw_get_optimiser
    | apply sw_update_autoencoder | apply sw_put_optimiser
    | (apply sw_bind; [|intros ?]) ].

Lemma sw_train_item_from items cls (item : Data) :
  item ∈ items cls →
  stays_within (fp_events (encodes_from items))
    (train_item cls item : M State R).
Proof.
  intros Hin. unfold train_item. cbv zeta. sw.
  apply sw_emit. simpl. by exists item.
Qed.

Lemma sw_train_items_from items cls (l : list Data) :
  l ⊆ items cls →
  stays_within (fp_events (encodes_from items))
    (train_items cls l : M State _).
Proof.
  induction l as [|item l IH]; intros Hsub; cbn [train_items].
  - apply sw_ret.
  - apply sw_bind; [apply sw_train_item_from, Hsub; by left|intros x].
    apply sw_bind; [|intros ls; apply sw_ret].
    apply IH. intros y Hy. apply Hsub. by right.
Qed.

Lemma sw_train_class_from items cls (dl : DataLoader) :
  dataset dl ⊆ items cls →
  stays_within (fp_events (encodes_from items))
    (train_class cls dl : M State unit).
Proof.
  intros Hsub. unfold train_class.
  apply sw_bind; [apply sw_get_optimiser|intros optimiser].
  apply sw_bind; [apply sw_get_autoencoder|intros autoencoder].
  apply sw_bind; [apply sw_update_autoencoder|intros _].
  apply sw_bind; [apply sw_get|intros s0].
  apply sw_for_each. intros epoch. unfold train_epoch.
  apply sw_bind; [apply sw_fresh_seed|intros seed].
  apply sw_bind; [|intros losses; by apply sw_emit].
  apply sw_train_items_from. intros item Hitem. apply Hsub.
  by rewrite <- (loader_items_perm dl seed).
Qed.

Lemma sw_save_autoencoder_events (good : Event -> Prop)
    (model : GAE.t Params) cls :
  (∀ p, good (EvSave cls p)) →
  stays_within (fp_events good) (save_autoencoder model cls : M State unit).
Proof.
  intros Hgood s r s'. rewrite save_autoencoder_unfold.
  destruct (Os.write_file _ _ _) as [fs'|e] eqn:Hw.
  - apply write_file_inv in Hw as ->. intros [= _ <-].
    eapply within_trans.
    { apply (sw_set_fs_insert (fp_events good) (ckpt_of s cls)
               (Os.File (GAE.state_dict model)) s). done. }
    assert (Hemit : stays_within (fp_events good)
              (emit (EvSave cls (ckpt_of s cls)) : M State unit))
      by (apply sw_emit, Hgood).
    eapply Hemit. reflexivity.
  - intros [= _ <-]. apply within_refl.
Qed.

Lemma sw_fit_class_from items cls (dl : DataLoader) :
  dataset dl ⊆ items cls →
  stays_within (fp_events (encodes_from items))
    (fit_class (cls, dl) : M State unit).
Proof.
  intros Hsub. unfold fit_class. cbn [fst snd].
  apply sw_bind; [by apply sw_train_class_from|intros _].
  apply sw_bind; [apply sw_get_autoencoder|intros autoencoder].
  by apply sw_save_autoencoder_events.
Qed.

Lemma sw_fit_loop_from (loaders : list DataLoader) :
  stays_within (fp_events (encodes_from (samples_at loaders)))
    (for_each (enumerate loaders) fit_class : M State unit).
Proof.
  apply sw_for_each_in. intros [k dl] Hin.
  unfold enumerate in Hin. apply elem_of_lookup_imap in Hin
    as (i & dl' & [= -> ->] & Hdl).
  apply sw_fit_class_from. unfold samples_at. by rewrite Hdl.
Qed.

Lemma index_elem {A} (xs : list A) i a : index xs i = Ok a → a ∈ xs.
Proof.
  unfold index. destruct (norm_index _ _) as [k|]; [|done].
  destruct (xs !! k) as [a'|] eqn:Hk; [|done]. intros [= <-].
  by eapply list_elem_of_lookup_2.
Qed.

Lemma take_indices_elem {A} (xs : list A) indices sel a :
  take_indices xs indices = Ok sel → a ∈ sel → a ∈ xs.
Proof.
  revert sel; induction indices as [|i rest IH]; intros sel; simpl.
  - intros [= <-] Hin. by apply elem_of_nil in Hin.
  - destruct (index xs i) as [a0|] eqn:Hi; [|done].
    destruct (take_indices xs rest) as [l|]; [|done].
    intros [= <-] [->|Hin]%elem_of_cons; [by eapply index_elem|by eapply IH].
Qed.

Lemma class_partitions_keys (self : AdaptiveGCE.t Params OptState)
    (ds : Dataset.t W) d :
  class_partitions zero self ds = Ok d →
  Dict.keys d = first_occurrences (Dataset.get_classes ds).
Proof.
  rewrite class_partitions_unfold.
  destruct (Dataset.get_split_indices ds !! fold_id self); [|done].
  destruct (take_indices _ _); [|done].
  intros Hfill. apply fill_classes_inv in Hfill as (Hkeys & _ & _).
  by rewrite Hkeys, dict_keys_from_keys.
Qed.

(** The samples of the loader at position [k] come from instances whose
    label is the [k]-th distinct class label. *)
Lemma samples_at_labels (self : AdaptiveGCE.t Params OptState)
    (ds : Dataset.t W) loaders k item :
  transform_data zero self ds = Ok loaders →
  item ∈ samples_at loaders k →
  ∃ c i, first_occurrences (Dataset.get_classes ds) !! k = Some c ∧
         i ∈ Dataset.instances ds ∧ Dataset.graph_label i = c ∧
         item = sample_of zero i.
Proof.
  unfold transform_data.
  destruct (class_partitions zero self ds) as [d|] eqn:Hcp; [|done].
  intros [= <-]. unfold samples_at.
  change (map ?f d) with (f <$> d). rewrite list_lookup_fmap.
  destruct (d !! k) as [[c coll]|] eqn:Hk; simpl;
    [|by intros ?%elem_of_nil].
  intros Hitem.
  pose proof (class_partitions_keys _ _ _ Hcp) as Hkeys.
  apply class_partitions_inv in Hcp
    as (split & selected & _ & Hsel & Hnd & _ & Hget).
  assert (Hin : (c, coll) ∈ d) by (by eapply list_elem_of_lookup_2).
  assert (Hc : c ∈ Dict.keys d).
  { apply list_elem_of_fmap. by exists (c, coll). }
  apply (dict_get_elem d c coll Hnd) in Hin.
  rewrite (Hget c Hc) in Hin. injection Hin as <-.
  apply list_elem_of_fmap in Hitem as (i & -> & Hi).
  apply list_elem_of_filter in Hi as [Hlabel Hi].
  exists c, i. split_and!; try done.
  - rewrite <- Hkeys. unfold Dict.keys.
    change (map fst d) with (fst <$> d). by rewrite list_lookup_fmap, Hk.
  - by eapply take_indices_elem.
Qed.

(** The events of a run of [fit]: every call of [encode] is on a sample
    of the loader at the position of its class index. *)
Lemma fit_events_from {Oracle} (oracle : Oracle) ds fold s :
  ∃ evs, trace (fit zero oracle ds fold s).2 = trace s ++ evs ∧
    Forall (encodes_from
              (samples_at
                 match transform_data zero (self s) ds with
                 | Ok loaders => loaders
                 | Raise _ => []
                 end)) evs.
Proof.
  rewrite fit_unfold.
  destruct (Os.path_exists (fs s) _) eqn:Hex.
  - destruct (load_explainers (fit_entered s ds fold)) as [r s1] eqn:Hload.
    pose proof (load_explainers_inv _ _ _ Hload) as (Htr & _).
    exists [EvFit fold; EvLoad]. split; [|by repeat constructor].
    unfold bind. rewrite Hload.
    destruct r as [[]|e]; cbn [snd]; unfold modify; cbn [snd trace set_self];
      rewrite Htr; cbn [fit_entered trace]; by rewrite <- app_assoc.
  - destruct (Os.mkdir (fs s) _) as [fs1|e] eqn:Hmk.
    + pose proof (fit_trains zero oracle ds fold s fs1 Hmk) as Hfit.
      rewrite fit_unfold, Hex, Hmk in Hfit. rewrite Hfit. clear Hfit.
      destruct (transform_data zero (self s) ds) as [loaders|e].
      * destruct (for_each (enumerate loaders) fit_class
                    (training_start s ds fold)) as [r s1] eqn:Hloop.
        pose proof (sw_fit_loop_from loaders _ _ _ Hloop) as Hw.
        destruct Hw as (_ & _ & _ & _ & _ & _ & _ & _ & evs & Htr & Hevs).
        exists ([EvFit fold; EvTrain] ++ evs). split.
        -- unfold bind. rewrite Hloop.
           destruct r as [[]|e]; cbn [snd]; unfold modify; cbn [snd trace set_self];
             rewrite Htr; cbn [training_start trace];
             by rewrite <- app_assoc.
        -- apply Forall_app. split; [by repeat constructor|done].
      * exists [EvFit fold; EvTrain]. split; [done|by repeat constructor].
    + exists [EvFit fold]. split; [done|by repeat constructor].
Qed.

(** X19: the autoencoder at position [k] of the ensemble is trained on
    graphs of the [k]-th distinct class label only.  In a run of [fit],
    however it ends, every call of [encode] for the class index [k] is on
    the empty feature tensor and the edges of the sample of an instance
    of the dataset whose label is the [k]-th distinct label of
    [get_classes()]. *)
Theorem autoencoder_sees_only_its_class {Oracle} (oracle : Oracle)
    ds fold s :
  ∃ evs, trace (fit zero oracle ds fold s).2 = trace s ++ evs ∧
    Forall (fun e =>
              match e with
              | EvEncode k _ _ _ =>
                  ∃ c i,
                    first_occurrences (Dataset.get_classes ds) !! k = Some c ∧
                    i ∈ Dataset.instances ds ∧
                    Dataset.graph_label i = c ∧
                    e = encode_event k (sample_of zero i)
              | _ => True
              end) evs.
Proof.
  destruct (fit_events_from oracle ds fold s) as (evs & Htr & Hevs).
  exists evs. split; [exact Htr|].
  eapply Forall_impl; [exact Hevs|].
  intros [| | |k x ei ea|k ep l|k p]; simpl; try done.
  intros (item & Hitem & Heq).
  destruct (transform_data zero (self s) ds) as [loaders|] eqn:Htd.
  - destruct (samples_at_labels _ _ _ _ _ Htd Hitem)
      as (c & i & Hc & Hi & Hl & ->).
    by exists c, i.
  - unfold samples_at in Hitem. rewrite lookup_nil in Hitem.
    by apply elem_of_nil in Hitem.
Qed.
End ClassFacts.

(** ** [fit], a second time *)

Section LoadFacts.
Context {W Params OptState Loss : Type} `{EqDecision W}
        `{!TorchOps W Params OptState Loss}.
Context (zero : W).
Import AdaptiveGCE Ensemble.

Local Abbreviation State := (AdaptiveGCE.State W Params OptState).
Local Abbreviation Data := (AdaptiveGCE.Data W).
Local Abbreviation DataLoader := (AdaptiveGCE.DataLoader W).
Local Abbreviation Event := (AdaptiveGCE.Event W).

Implicit Types (s : State).

Lemma state_dict_set_parameters (w : Params * Params * Params)
    (ae : GAE.t Params) :
  GAE.state_dict (GAE.set_parameters w ae) = w.
Proof. by destruct w as [[w1 w2] w3]. Qed.

Lemma set_parameters_state_dict (ae : GAE.t Params) :
  GAE.set_parameters (GAE.state_dict ae) ae = ae.
Proof. by destruct ae as [[[] [] [] ?] ? ?]. Qed.

(** [load_autoencoder], by the outcome of the read. *)
Lemma load_autoencoder_unfold cls s :
  load_autoencoder cls s =
  match Os.read_file (fs s) (ckpt_of s cls) with
  | Ok w =>
      (Ok tt,
       set_self (fun e => with_autoencoders
                            (alter (GAE.set_parameters w) cls (autoencoders e))
                            e) s)
  | Raise e => (Raise e, s)
  end.
Proof.
  unfold load_autoencoder, bind, get, lift, update_autoencoder, modify,
    ckpt_of. cbv zeta.
  by destruct (Os.read_file _ _).
Qed.

(** A load of the classes [cs] that returns has read the file of each
    of them and has given its autoencoder the weights read; it has left
    the other autoencoders and everything else as they were. *)
Lemma load_loop_ok (cs : list nat) s s' :
  NoDup cs →
  for_each cs load_autoencoder s = (Ok tt, s') →
  fs s' = fs s ∧ trace s' = trace s ∧ ckpt_of s' = ckpt_of s ∧
  optimisers (self s') = optimisers (self s) ∧
  _fitted (self s') = _fitted (self s) ∧
  (∀ cls, cls ∉ cs →
     autoencoders (self s') !! cls = autoencoders (self s) !! cls) ∧
  (∀ cls, cls ∈ cs →
     ∃ w, Os.read_file (fs s) (ckpt_of s cls) = Ok w ∧
          ∀ ae, autoencoders (self s') !! cls = Some ae →
                GAE.state_dict ae = w).
Proof.
  revert s; induction cs as [|c cs IH]; intros s Hnd; cbn [for_each].
  - intros [= <-]. split_and!; try done. by intros cls ?%elem_of_nil.
  - apply NoDup_cons in Hnd as [Hc Hnd]. intros Hrun.
    apply bind_inv in Hrun as [([] & s1 & Hl & Hrun)|(e & _ & [=])].
    rewrite load_autoencoder_unfold in Hl.
    destruct (Os.read_file (fs s) (ckpt_of s c)) as [w|] eqn:Hw; [|done].
    injection Hl as <-.
    destruct (IH _ Hnd Hrun) as (Hfs & Htr & Hck & Ho & Hf & Hout & Hin).
    cbn [set_self fs self trace with_autoencoders autoencoders optimisers
         _fitted] in Hfs, Htr, Ho, Hf, Hout, Hin.
    split_and!; try done.
    + intros cls Hcls. apply not_elem_of_cons in Hcls as [Hne Hcls].
      rewrite (Hout cls Hcls). by apply list_lookup_alter_ne.
    + intros cls [->|Hcls]%elem_of_cons.
      * exists w. split; [done|]. intros ae. rewrite (Hout c Hc).
        rewrite list_lookup_alter_eq.
        destruct (autoencoders (self s) !! c) as [ae0|]; simpl; [|done].
        intros [= <-]. apply state_dict_set_parameters.
      * destruct (Hin cls Hcls) as (w' & Hw' & Hae). exists w'.
        split; [exact Hw'|exact Hae].
Qed.

(** On a checkpoint that holds, for each class of [cs], the weights its
    autoencoder has, the load returns and changes nothing. *)
Lemma load_loop_same (cs : list nat) s :
  (∀ cls, cls ∈ cs →
     ∃ ae, autoencoders (self s) !! cls = Some ae ∧
           fs s !! ckpt_of s cls = Some (Os.File (GAE.state_dict ae))) →
  for_each cs load_autoencoder s = (Ok tt, s).
Proof.
  induction cs as [|c cs IH]; intros Hall; cbn [for_each]; [done|].
  destruct (Hall c) as (ae & Hae & Hfile); [by left|].
  erewrite bind_ok; [apply IH; intros cls Hcls; apply Hall; by right|].
  rewrite load_autoencoder_unfold. unfold Os.read_file. rewrite Hfile.
  f_equal. destruct s as [e f t r]. unfold set_self. cbn [self fs trace rng].
  cbn [self] in Hae. f_equal.
  assert (Hsame : alter (GAE.set_parameters (GAE.state_dict ae)) c
                    (autoencoders e) = autoencoders e).
  { apply list_eq. intros i. destruct (decide (i = c)) as [->|Hne].
    - rewrite list_lookup_alter_eq, Hae. simpl.
      by rewrite set_parameters_state_dict.
    - by rewrite list_lookup_alter_ne. }
  rewrite Hsame. by destruct e.
Qed.

(** [load_explainers], by the outcome of its loop. *)
Lemma load_explainers_unfold s :
  load_explainers s =
  for_each (seq 0 (num_classes (self s))) load_autoencoder
    {| self := self s; fs := fs s; trace := trace s ++ [EvLoad];
       rng := rng s |}.
Proof. done. Qed.

Lemma checkpoint_path_within F (s s' : State) (ds : Dataset.t W) fold cls :
  within F s s' →
  checkpoint_path (self s') ds fold cls = checkpoint_path (self s) ds fold cls.
Proof.
  intros (Hc & Hp & _). unfold checkpoint_path, explainer_name.
  by rewrite Hc, Hp.
Qed.

(** The second of two calls of [fit], when the first has left the
    checkpoint directory: it is the load, from the state [fit] has
    entered, followed by the assignment of the flag. *)
Lemma fit_again_unfold {Oracle} (oracle : Oracle) ds fold s r1 s1 :
  fit zero oracle ds fold s = (r1, s1) →
  Os.path_exists (fs s1) (explainer_uri (self s) ds fold) = true →
  fit zero oracle ds fold s1 =
  bind (for_each (seq 0 (num_classes (self s))) load_autoencoder)
    (fun _ => modify (set_self (with_fitted true)))
    {| self := with_name (explainer_name (self s1) ds fold) (self s1);
       fs := fs s1; trace := trace s1 ++ [EvFit fold; EvLoad];
       rng := rng s1 |}.
Proof.
  intros H1 Hex. pose proof (within_fit zero oracle ds fold s _ _ H1) as Hw.
  rewrite fit_unfold, (explainer_uri_within _ _ _ _ _ Hw). cbn [fit_entered self].
  change (explainer_uri (with_name _ (self s)) ds fold)
    with (explainer_uri (self s) ds fold).
  rewrite Hex. destruct Hw as (_ & _ & Hn & _). cbn [fit_entered self] in Hn.
  change (num_classes (with_name _ (self s))) with (num_classes (self s)) in Hn.
  unfold bind. rewrite load_explainers_unfold.
  cbn [fit_entered self fs trace rng].
  change (num_classes (with_name _ (self s1))) with (num_classes (self s1)).
  by rewrite Hn, <- app_assoc.
Qed.

(** C1, amended: a second call of [fit] with the same oracle, dataset
    and fold id triggers no training: it emits its entry event and at
    most a load, and writes nothing.  A first call that returns has left
    the checkpoint directory of the identity string and has set
    [_fitted], and the second call, finding the directory, enters the
    load.  A second call that returns has set [_fitted] and has loaded
    the weights: for every class index below [num_classes] the
    checkpoint file of the class is there and the autoencoder of the
    class has the weights stored in it.  When a checkpoint file of a
    class index below [num_classes] cannot be read, the second call
    raises.  When the first call trained, with as many loaders as
    [num_classes], and returned, the second call returns and leaves the
    autoencoders and the optimisers as the first call left them. *)
Theorem fit_twice_trains_once {Oracle} (oracle : Oracle) ds fold
    (s s1 s2 : State) r1 r2 :
  fit zero oracle ds fold s = (r1, s1) →
  fit zero oracle ds fold s1 = (r2, s2) →
  (∃ evs, trace s2 = trace s1 ++ EvFit fold :: evs ∧
          Forall (fun e => e = EvLoad) evs) ∧
  fs s2 = fs s1 ∧
  (r1 = Ok tt →
     Os.path_exists (fs s1) (explainer_uri (self s) ds fold) = true ∧
     _fitted (self s1) = true ∧
     trace s2 = trace s1 ++ [EvFit fold; EvLoad]) ∧
  (r2 = Ok tt →
     _fitted (self s2) = true ∧
     ∀ cls, (cls < num_classes (self s))%nat →
       ∃ w, Os.read_file (fs s2) (checkpoint_path (self s) ds fold cls)
              = Ok w ∧
            ∀ ae, autoencoders (self s2) !! cls = Some ae →
                  GAE.state_dict ae = w) ∧
  (∀ cls, (cls < num_classes (self s))%nat →
     is_ok (Os.read_file (fs s1) (checkpoint_path (self s) ds fold cls))
       = false →
     ∃ e, r2 = Raise e) ∧
  (r1 = Ok tt →
   Os.path_exists (fs s) (explainer_uri (self s) ds fold) = false →
   ∀ loaders : list DataLoader,
     transform_data zero (self s) ds = Ok loaders →
     length loaders = num_classes (self s) →
     r2 = Ok tt ∧ _fitted (self s2) = true ∧
     autoencoders (self s2) = autoencoders (self s1) ∧
     optimisers (self s2) = optimisers (self s1)).
Proof.
  intros H1 H2.
  destruct (fit_again_loads zero oracle ds fold s s1 s2 r1 r2 H1 H2)
    as (Htrace & Hfs & Hfirst & Hflag).
  pose proof (within_fit zero oracle ds fold s _ _ H1) as Hw.
  assert (Hck : ∀ cls, checkpoint_path (self s1) ds fold cls =
                       checkpoint_path (self s) ds fold cls).
  { intros cls. exact (checkpoint_path_within _ _ _ ds fold cls Hw). }
  assert (Hloaded : r2 = Ok tt →
            ∀ cls, (cls < num_classes (self s))%nat →
              ∃ w, Os.read_file (fs s2) (checkpoint_path (self s) ds fold cls)
                     = Ok w ∧
                   ∀ ae, autoencoders (self s2) !! cls = Some ae →
                         GAE.state_dict ae = w).
  { intros -> cls Hcls.
    destruct (fit_leaves_directory zero oracle ds fold s _ _ H1)
      as [Hex|(e & -> & -> & Hno & Hmk)].
    2:{ rewrite fit_unfold in H2. cbn [fit_entered self fs] in H2.
        change (explainer_uri (with_name _ (self s)) ds fold)
          with (explainer_uri (self s) ds fold) in H2.
        by rewrite Hno, Hmk in H2. }
    rewrite (fit_again_unfold oracle ds fold s r1 s1 H1 Hex) in H2.
    apply bind_inv in H2 as [([] & t & Hload & H2)|(e & _ & [=])].
    injection H2 as <-.
    apply load_loop_ok in Hload
      as (Hfs' & _ & _ & _ & _ & _ & Hin); [|apply NoDup_seq].
    destruct (Hin cls) as (w & Hread & Hae).
    { apply elem_of_seq. lia. }
    exists w. cbn [self fs set_self with_fitted autoencoders].
    rewrite Hfs'. cbn [fs]. split; [|exact Hae].
    rewrite <- Hck. exact Hread. }
  split_and!; try done.
  - intros Hr2. split; [by apply Hflag|by apply Hloaded].
  - intros cls Hcls Hmissing. destruct r2 as [[]|e]; [|by exists e].
    destruct (Hloaded eq_refl cls Hcls) as (w & Hread & _).
    rewrite Hfs in Hread. by rewrite Hread in Hmissing.
  - intros -> Hno loaders Htd Hlen.
    destruct (Hfirst eq_refl) as (Hex & Hfitted & _).
    destruct (Os.mkdir (fs s) (explainer_uri (self s) ds fold))
      as [fs1|e] eqn:Hmk.
    2:{ rewrite fit_unfold, Hno, Hmk in H1. done. }
    pose proof H1 as H1'.
    rewrite (fit_trains zero oracle ds fold s fs1 Hmk), Htd in H1'.
    apply bind_inv in H1' as [([] & t & Hloop & H1')|(e & _ & [=])].
    injection H1' as <-. unfold enumerate in Hloop.
    pose proof (fit_loop_ok_saves loaders 0 _ _ Hloop) as Hsaved.
    rewrite (fit_again_unfold oracle ds fold s _ _ H1 Hex) in H2.
    erewrite bind_ok in H2.
    2:{ apply load_loop_same. intros cls Hcls%elem_of_seq.
        destruct (Hsaved cls) as (ae & Hae & Hfile); [lia|].
        exists ae. cbn [self fs set_self with_fitted with_name autoencoders].
        split; [exact Hae|].
        rewrite ckpt_of_training_start in Hfile.
        rewrite <- Hfile, <- Hck. done. }
    unfold modify in H2. injection H2 as <- <-. done.
Qed.
End LoadFacts.

(** ** Further examples *)

Import Example Scenario.



(** [evaluate] on a dynamic graph without snapshot. *)
Lemma evaluate_empty_graph_witness :
  DynamicEvaluator.evaluate super_evaluate no_snapshots
    = (Raise ValueError, no_snapshots) ∧
  DynamicEvaluator.run_events super_evaluate no_snapshots = [].
Proof.
  apply (evaluate_empty_graph super_evaluate no_snapshots). reflexivity.
Defined.

(** [evaluate] on the keys 8, 5, 13: the evaluator is left with the
    counter 3 and the snapshot stored at key 8. *)
Lemma evaluate_outcome_witness :
  DynamicEvaluator.evaluate super_evaluate (evaluator shuffled) =
  (Ok tt,
   DynamicEvaluator.mkState
     (DynamicEvaluator.set_data (DynamicEvaluator.PlainDataset "at 8")
        (DynamicEvaluator.set_iteration 3
           (DynamicEvaluator.self (evaluator shuffled))))
     [DynamicEvaluator.EvPrint 3;
      DynamicEvaluator.EvEvaluate (Some 3)
        (DynamicEvaluator.PlainDataset "at 8")]).
Proof.
  apply (evaluate_outcome super_evaluate (evaluator shuffled) 8 "at 8"
           [(5, "at 5"); (13, "at 13")]).
  reflexivity.
Defined.

(** Two calls of [evaluate] on the keys 8, 5, 13: both process key 8. *)
Lemma evaluate_again_same_snapshot_witness :
  DynamicEvaluator.run_events super_evaluate
    (DynamicEvaluator.evaluate super_evaluate (evaluator shuffled)).2 =
  DynamicEvaluator.run_events super_evaluate (evaluator shuffled).
Proof.
  apply (evaluate_again_same_snapshot super_evaluate (evaluator shuffled)).
  intros e. reflexivity.
Defined.

(** The loaders of a dataset that lists class 1 twice, before and after
    class 0: one loader for class 1, then one for class 0. *)
Lemma loaders_follow_classes_witness :
  AdaptiveGCE.class_partitions 0 explainer repeated
    = Ok (partitions_of repeated) ∧
  AdaptiveGCE.transform_data 0 explainer repeated
    = Ok (loaders_of repeated) ∧
  Dict.keys (partitions_of repeated) = [1; 0] ∧
  length (loaders_of repeated) = 2%nat.
Proof.
  assert (H1 : AdaptiveGCE.class_partitions 0 explainer repeated
               = Ok (partitions_of repeated)).
  { vm_compute. reflexivity. }
  assert (H2 : AdaptiveGCE.transform_data 0 explainer repeated
               = Ok (loaders_of repeated)).
  { vm_compute. reflexivity. }
  destruct (loaders_follow_classes 0 explainer repeated _ _ H1 H2)
    as (Hkeys & _ & Hlen & _).
  split; [exact H1|]. split; [exact H2|]. split.
  - exact Hkeys.
  - exact Hlen.
Defined.

(** [fit] of an explainer for two classes on a dataset with three. *)
Lemma fit_raises_on_surplus_class_witness :
  Os.path_exists (AdaptiveGCE.fs start)
    (AdaptiveGCE.explainer_uri explainer three_classes 0) = false ∧
  AdaptiveGCE.transform_data 0 explainer three_classes
    = Ok (loaders_of three_classes) ∧
  (length (AdaptiveGCE.optimisers explainer)
     < length (loaders_of three_classes))%nat ∧
  ∃ e s', AdaptiveGCE.fit 0 tt three_classes 0 start = (Raise e, s') ∧
          AdaptiveGCE._fitted (AdaptiveGCE.self s') = false.
Proof.
  assert (H1 : Os.path_exists (AdaptiveGCE.fs start)
                 (AdaptiveGCE.explainer_uri explainer three_classes 0) = false).
  { vm_compute. reflexivity. }
  assert (H2 : AdaptiveGCE.transform_data 0 explainer three_classes
               = Ok (loaders_of three_classes)).
  { vm_compute. reflexivity. }
  assert (H3 : (length (AdaptiveGCE.optimisers explainer)
                  < length (loaders_of three_classes))%nat).
  { vm_compute. lia. }
  split; [exact H1|]. split; [exact H2|]. split; [exact H3|].
  destruct (fit_raises_on_surplus_class 0 tt three_classes 0 start
              (loaders_of three_classes) H1 H2 H3) as (e & s' & Hfit & Hfl & _).
  exists e, s'. split; [exact Hfit|exact Hfl].
Defined.

(** [fit] of an explainer for fold 0 on a dataset whose only split is for
    fold 1. *)
Lemma fit_validates_after_mkdir_witness :
  Os.mkdir (AdaptiveGCE.fs start)
    (AdaptiveGCE.explainer_uri explainer other_fold 0) =
    Ok (<["store/AdaptiveGCE_fit_on_other_fold_id_0" := Os.Dir]>
          (AdaptiveGCE.fs start)) ∧
  AdaptiveGCE.transform_data 0 explainer other_fold = Raise KeyError ∧
  AdaptiveGCE.fit 0 tt other_fold 0 start =
    (Raise KeyError, AdaptiveGCE.training_start start other_fold 0) ∧
  Os.path_exists
    (AdaptiveGCE.fs (AdaptiveGCE.training_start start other_fold 0))
    (AdaptiveGCE.explainer_uri explainer other_fold 0) = true.
Proof.
  assert (H1 : Os.mkdir (AdaptiveGCE.fs start)
                 (AdaptiveGCE.explainer_uri explainer other_fold 0) =
               Ok (<["store/AdaptiveGCE_fit_on_other_fold_id_0" := Os.Dir]>
                     (AdaptiveGCE.fs start))).
  { vm_compute. reflexivity. }
  assert (H2 : AdaptiveGCE.transform_data 0 explainer other_fold
               = Raise KeyError).
  { vm_compute. reflexivity. }
  destruct (fit_validates_after_mkdir 0 tt other_fold 0 start _ KeyError H1 H2)
    as (Hfit & _ & _ & Hdir & _).
  split; [exact H1|]. split; [exact H2|]. split; [exact Hfit|exact Hdir].
Defined.

(** One epoch over a loader with two samples. *)
Lemma epoch_encodes_each_sample_once_witness :
  AdaptiveGCE.train_epoch 0 two_samples 0 start =
    (Ok tt, (AdaptiveGCE.train_epoch 0 two_samples 0 start).2) ∧
  ∃ items losses,
    items ≡ₚ AdaptiveGCE.dataset two_samples ∧
    length losses = 2%nat ∧
    AdaptiveGCE.trace (AdaptiveGCE.train_epoch 0 two_samples 0 start).2 =
      map (Ensemble.encode_event 0) items
        ++ [AdaptiveGCE.EvEpoch 0 0 losses].
Proof.
  assert (H : AdaptiveGCE.train_epoch 0 two_samples 0 start =
              (Ok tt, (AdaptiveGCE.train_epoch 0 two_samples 0 start).2)).
  { vm_compute. reflexivity. }
  split; [exact H|].
  destruct (epoch_encodes_each_sample_once 0 two_samples 0 start _ H)
    as (items & losses & Hperm & Hlen & Htr & _).
  exists items, losses. split; [exact Hperm|]. split; [exact Hlen|exact Htr].
Defined.

(** [fit] on the toy dataset: the checkpoint of class 0 holds the weights
    of the autoencoder of class 0. *)
Lemma checkpoints_hold_final_weights_witness :
  AdaptiveGCE.fit 0 tt toy 0 start =
    (Ok tt, (AdaptiveGCE.fit 0 tt toy 0 start).2) ∧
  ∃ ae,
    AdaptiveGCE.autoencoders
      (AdaptiveGCE.self (AdaptiveGCE.fit 0 tt toy 0 start).2) !! 0%nat
      = Some ae ∧
    Os.read_file (AdaptiveGCE.fs (AdaptiveGCE.fit 0 tt toy 0 start).2)
      (AdaptiveGCE.checkpoint_path explainer toy 0 0) = Ok (GAE.state_dict ae).
Proof.
  assert (H1 : Os.path_exists (AdaptiveGCE.fs start)
                 (AdaptiveGCE.explainer_uri explainer toy 0) = false).
  { vm_compute. reflexivity. }
  assert (H2 : AdaptiveGCE.transform_data 0 explainer toy = Ok (loaders_of toy)).
  { vm_compute. reflexivity. }
  assert (H3 : AdaptiveGCE.fit 0 tt toy 0 start =
               (Ok tt, (AdaptiveGCE.fit 0 tt toy 0 start).2)).
  { vm_compute. reflexivity. }
  split; [exact H3|].
  apply (checkpoints_hold_final_weights 0 tt toy 0 start _ (loaders_of toy)
           H1 H2 H3 0%nat).
  vm_compute. lia.
Defined.

(** Two calls of [fit] on the toy dataset from the same state, for fold 0
    and for a fold the dataset has no split for: both train, on the split
    of fold 0, and leave the same weights. *)
Lemma fit_fold_only_names_witness :
  AdaptiveGCE.fit 0 tt toy 0 start =
    (Ok tt, (AdaptiveGCE.fit 0 tt toy 0 start).2) ∧
  AdaptiveGCE.fit 0 tt toy unknown_fold start =
    (Ok tt, (AdaptiveGCE.fit 0 tt toy unknown_fold start).2) ∧
  Dataset.get_split_indices toy !! unknown_fold = None ∧
  AdaptiveGCE.autoencoders
    (AdaptiveGCE.self (AdaptiveGCE.fit 0 tt toy 0 start).2) =
  AdaptiveGCE.autoencoders
    (AdaptiveGCE.self (AdaptiveGCE.fit 0 tt toy unknown_fold start).2) ∧
  AdaptiveGCE.name
    (AdaptiveGCE.self (AdaptiveGCE.fit 0 tt toy unknown_fold start).2) =
  "AdaptiveGCE_fit_on_toy_fold_id_7".
Proof.
  assert (H1 : Os.path_exists (AdaptiveGCE.fs start)
                 (AdaptiveGCE.explainer_uri explainer toy 0) = false).
  { vm_compute. reflexivity. }
  assert (H2 : Os.path_exists (AdaptiveGCE.fs start)
                 (AdaptiveGCE.explainer_uri explainer toy unknown_fold) = false).
  { vm_compute. reflexivity. }
  assert (H3 : AdaptiveGCE.fit 0 tt toy 0 start =
               (Ok tt, (AdaptiveGCE.fit 0 tt toy 0 start).2)).
  { vm_compute. reflexivity. }
  assert (H4 : AdaptiveGCE.fit 0 tt toy unknown_fold start =
               (Ok tt, (AdaptiveGCE.fit 0 tt toy unknown_fold start).2)).
  { vm_compute. reflexivity. }
  destruct (fit_fold_only_names 0 tt toy 0 unknown_fold start _ _ H1 H2 H3 H4)
    as (Ha & _ & _ & Hn).
  split; [exact H3|]. split; [exact H4|]. split; [reflexivity|].
  split; [exact Ha|exact Hn].
Defined.

(** Two calls of [fit] on the toy dataset, which has a graph of each of
    the two classes of the explainer: the first one trains and returns,
    the second one loads, returns and leaves the autoencoders as the first
    one left them. *)
Lemma fit_twice_trains_once_witness :
  AdaptiveGCE.fit 0 tt toy 0 start =
    (Ok tt, (AdaptiveGCE.fit 0 tt toy 0 start).2) ∧
  (AdaptiveGCE.fit 0 tt toy 0 (AdaptiveGCE.fit 0 tt toy 0 start).2).1
    = Ok tt ∧
  AdaptiveGCE.trace
    (AdaptiveGCE.fit 0 tt toy 0 (AdaptiveGCE.fit 0 tt toy 0 start).2).2 =
  AdaptiveGCE.trace (AdaptiveGCE.fit 0 tt toy 0 start).2 ++
    [AdaptiveGCE.EvFit 0; AdaptiveGCE.EvLoad] ∧
  AdaptiveGCE._fitted (AdaptiveGCE.self (AdaptiveGCE.fit 0 tt toy 0 start).2)
    = true ∧
  AdaptiveGCE._fitted
    (AdaptiveGCE.self
       (AdaptiveGCE.fit 0 tt toy 0 (AdaptiveGCE.fit 0 tt toy 0 start).2).2)
    = true ∧
  AdaptiveGCE.autoencoders
    (AdaptiveGCE.self
       (AdaptiveGCE.fit 0 tt toy 0 (AdaptiveGCE.fit 0 tt toy 0 start).2).2) =
  AdaptiveGCE.autoencoders
    (AdaptiveGCE.self (AdaptiveGCE.fit 0 tt toy 0 start).2).
Proof.
  assert (H1 : AdaptiveGCE.fit 0 tt toy 0 start =
               (Ok tt, (AdaptiveGCE.fit 0 tt toy 0 start).2)).
  { vm_compute. reflexivity. }
  assert (H0 : Os.path_exists (AdaptiveGCE.fs start)
                 (AdaptiveGCE.explainer_uri explainer toy 0) = false).
  { vm_compute. reflexivity. }
  assert (Htd : AdaptiveGCE.transform_data 0 explainer toy
                = Ok (loaders_of toy)).
  { vm_compute. reflexivity. }
  assert (Hlen : length (loaders_of toy) = 2%nat).
  { vm_compute. reflexivity. }
  destruct (fit_twice_trains_once 0 tt toy 0 start _ _ _ _ H1
              (surjective_pairing _)) as (_ & _ & Hfirst & _ & _ & Hcomplete).
  destruct (Hfirst eq_refl) as (_ & Hfitted & Htrace).
  destruct (Hcomplete eq_refl H0 (loaders_of toy) Htd Hlen)
    as (Hr2 & Hfitted2 & Hsame & _).
  split; [exact H1|]. split; [exact Hr2|]. split; [exact Htrace|].
  split; [exact Hfitted|]. split; [exact Hfitted2|exact Hsame].
Defined.

(** C1 as stated fails: on a dataset with one class an explainer built
    for two classes trains and saves the autoencoder of class 0 only.  The
    first call of [fit] returns and marks the explainer fitted; the second
    call finds the directory, finds no weight file for the class index 1
    and raises: it has not loaded the ensemble weights. *)
Lemma fit_again_may_fail_to_load :
  (AdaptiveGCE.fit 0 tt single_class 0 start).1 = Ok tt ∧
  AdaptiveGCE._fitted
    (AdaptiveGCE.self (AdaptiveGCE.fit 0 tt single_class 0 start).2) = true ∧
  AdaptiveGCE.fs (AdaptiveGCE.fit 0 tt single_class 0 start).2
    !! AdaptiveGCE.checkpoint_path explainer single_class 0 1 = None ∧
  (AdaptiveGCE.fit 0 tt single_class 0
     (AdaptiveGCE.fit 0 tt single_class 0 start).2).1
    = Raise FileNotFoundError.
Proof. vm_compute. repeat split. Qed.

(** C2 as stated fails: on the dataset whose class 1 cannot be trained
    on, [fit] raises and leaves the explainer unfitted, so each of three
    calls of [explain] in a row enters [fit]. *)
Lemma explain_enters_fit_again_after_failure :
  is_ok first_attempt.1 = false ∧
  is_ok second_attempt.1 = false ∧
  is_ok third_attempt.1 = false ∧
  AdaptiveGCE._fitted (AdaptiveGCE.self second_attempt.2) = false ∧
  AdaptiveGCE.fit_calls (AdaptiveGCE.trace first_attempt.2) = 1%nat ∧
  AdaptiveGCE.fit_calls (AdaptiveGCE.trace second_attempt.2) = 2%nat ∧
  AdaptiveGCE.fit_calls (AdaptiveGCE.trace third_attempt.2) = 3%nat.
Proof. vm_compute. repeat split. Qed.

